(** * Evaluation pipeline of [pytorch_segmentation/evaluation.py]

    A shallow embedding of the metric-aggregation code: index selection,
    logit flattening, the object-part remapping, confusion-matrix
    accumulation and the IoU / precision / recall calculators.

    Conventions of the embedding.
    - A torch tensor or numpy array is a flat storage seen through sizes
      and strides ([tensor]); [permute], [contiguous] and [view] act on
      that representation as the libraries do.
    - Integer labels and pixel counts are [Z].  Counts are bounded by the
      number of pixels held in memory, far below 2^63, so int64
      wrap-around is not part of the model.
    - Real-valued scores and metric values are rationals [Q].  The
      conversion of an integer count to a float ([astype(np.float32)],
      the promotion of an int64 operand to float64) is modelled with its
      rounding; the quotient of two floats is the exact quotient, and NaN
      scores are outside the model.  [np.mean] of an empty list (NaN in
      numpy) is [None].
    - Python exceptions are the [Raise] results of the [result] monad;
      the library calls that validate their arguments (scikit-learn's
      [confusion_matrix], numpy's [+=], torch's [index_select], [view]
      and [gather]) raise as the libraries do.
    - A 2-D integer array such as a confusion matrix is the list of its
      rows. *)

From Stdlib Require Import ZArith QArith Lia List Permutation String.
From stdpp Require Import base list.
Import ListNotations.

Open Scope Z_scope.

(** ** Exceptions *)

Inductive exn : Type :=
| TypeError
| IndexError
| ValueError
| RuntimeError.

Inductive result (A : Type) : Type :=
| Ok (a : A)
| Raise (e : exn).

Arguments Ok {A} a.
Arguments Raise {A} e.

#[global] Instance result_ret : MRet result := fun A a => Ok a.

#[global] Instance result_bind : MBind result := fun A B k r =>
  match r with
  | Ok a => k a
  | Raise e => Raise e
  end.

#[global] Instance result_fmap : FMap result := fun A B f r =>
  match r with
  | Ok a => Ok (f a)
  | Raise e => Raise e
  end.

Definition is_ok {A} (r : result A) : bool :=
  match r with
  | Ok _ => true
  | Raise _ => false
  end.

(** ** Strided arrays (torch tensors, numpy arrays) *)

Record tensor (A : Type) : Type := Tensor {
  storage : list A;
  sizes : list nat;
  strides : list nat;
}.

Arguments Tensor {A} storage sizes strides.
Arguments storage {A} t.
Arguments sizes {A} t.
Arguments strides {A} t.

Definition prod_list (l : list nat) : nat := foldr Nat.mul 1%nat l.

Definition numel {A} (t : tensor A) : nat := prod_list (sizes t).

(** Strides of a C-contiguous (row-major) layout. *)
Fixpoint contiguous_strides (sz : list nat) : list nat :=
  match sz with
  | [] => []
  | _ :: rest => prod_list rest :: contiguous_strides rest
  end.

Definition flat_offset (idx str : list nat) : nat :=
  sum_list (zip_with Nat.mul idx str).

Fixpoint in_bounds (idx sz : list nat) : bool :=
  match idx, sz with
  | [], [] => true
  | i :: idx', n :: sz' => (i <? n)%nat && in_bounds idx' sz'
  | _, _ => false
  end.

(** All multi-indices of a shape, in row-major order (the order of
    [np.where], [flatten] and [contiguous]). *)
Fixpoint all_indices (sz : list nat) : list (list nat) :=
  match sz with
  | [] => [[]]
  | n :: rest => flat_map (fun i => map (cons i) (all_indices rest)) (seq 0 n)
  end.

(** Full indexing [t[i0, ..., ik]] with non-negative indices. *)
Definition tget {A} (t : tensor A) (idx : list nat) : result A :=
  if in_bounds idx (sizes t) then
    match storage t !! flat_offset idx (strides t) with
    | Some x => Ok x
    | None => Raise IndexError
    end
  else Raise IndexError.

(** A Python index into a dimension of extent [n]: negative indices
    count from the end, anything else out of range raises. *)
Definition py_index (n : nat) (i : Z) : result nat :=
  if (0 <=? i) && (i <? Z.of_nat n) then Ok (Z.to_nat i)
  else if (- Z.of_nat n <=? i) && (i <? 0) then Ok (Z.to_nat (i + Z.of_nat n))
  else Raise IndexError.

Fixpoint py_indices (sz : list nat) (idx : list Z) : result (list nat) :=
  match sz, idx with
  | [], [] => Ok []
  | n :: sz', i :: idx' =>
      i' ← py_index n i; rest ← py_indices sz' idx'; Ok (i' :: rest)
  | _, _ => Raise IndexError
  end.

Definition tget_py {A} (t : tensor A) (idx : list Z) : result A :=
  idx' ← py_indices (sizes t) idx; tget t idx'.

(** Every in-bounds index addresses an element of the storage. *)
Definition wf_tensor {A} (t : tensor A) : bool :=
  (length (strides t) =? length (sizes t))%nat &&
  forallb (fun idx => (flat_offset idx (strides t) <? length (storage t))%nat)
          (all_indices (sizes t)).

Definition is_contiguous {A} (t : tensor A) : bool :=
  bool_decide (strides t = contiguous_strides (sizes t)) &&
  (length (storage t) =? numel t)%nat.

(** [t.permute(dims)]: the same storage with sizes and strides reordered. *)
Definition permute {A} (t : tensor A) (dims : list nat) : result (tensor A) :=
  let n := length (sizes t) in
  if (length dims =? n)%nat
     && forallb (fun d => (d <? n)%nat) dims
     && bool_decide (NoDup dims)
  then Ok (Tensor (storage t)
                  (map (fun d => nth d (sizes t) 0%nat) dims)
                  (map (fun d => nth d (strides t) 0%nat) dims))
  else Raise RuntimeError.

(** [t.contiguous()] / [a.flatten()]: the elements copied out in
    row-major order of the (possibly permuted) index space. *)
Definition row_major {A} (t : tensor A) : result (list A) :=
  mapM (tget t) (all_indices (sizes t)).

Definition contiguous {A} (t : tensor A) : result (tensor A) :=
  data ← row_major t;
  Ok (Tensor data (sizes t) (contiguous_strides (sizes t))).

(** Shape inference of [view]: at most one entry may be [-1]. *)
Definition infer_shape (n : nat) (shape : list Z) : result (list nat) :=
  let known := filter (fun d => d ≠ -1) shape in
  if forallb (fun d => 0 <=? d) known then
    let p := prod_list (map Z.to_nat known) in
    match (length shape - length known)%nat with
    | O => if (p =? n)%nat then Ok (map Z.to_nat shape) else Raise RuntimeError
    | S O =>
        if (p =? 0)%nat then Raise RuntimeError
        else if (n mod p =? 0)%nat
             then Ok (map (fun d => if d =? -1 then (n / p)%nat else Z.to_nat d)
                          shape)
             else Raise RuntimeError
    | _ => Raise RuntimeError
    end
  else Raise RuntimeError.

(** [t.view(shape)] on a contiguous tensor: same storage, new sizes.
    (torch also accepts some non-contiguous layouts; every [view] of this
    file is applied to a contiguous tensor.) *)
Definition view {A} (t : tensor A) (shape : list Z) : result (tensor A) :=
  if is_contiguous t then
    sz ← infer_shape (numel t) shape;
    Ok (Tensor (storage t) sz (contiguous_strides sz))
  else Raise RuntimeError.

(** ** Flattening (lines 128-146) *)

Definition flatten_logits {A} (logits : tensor A) (number_of_classes : Z)
  : result (tensor A) :=
  logits_permuted ← permute logits [0; 2; 3; 1]%nat;
  logits_permuted_cont ← contiguous logits_permuted;
  view logits_permuted_cont [-1; number_of_classes].

Definition flatten_annotations {A} (annotations : tensor A) : result (tensor A) :=
  view annotations [-1].

(** ** Index selection (lines 136-165) *)

(** torch tensors carry their element type at run time; [index_select]
    inspects the type of its index argument. *)
Inductive any_tensor : Type :=
| LongTensor (t : tensor Z)
| FloatTensor (t : tensor Q).

Definition tmap {A B} (f : A -> B) (t : tensor A) : tensor B :=
  Tensor (map f (storage t)) (sizes t) (strides t).

(** The multi-indices at which a boolean array is true, in row-major
    order: the rows of [torch.nonzero], the zipped tuples of [np.where]. *)
Definition true_indices (mask : tensor bool) : result (list (list nat)) :=
  flags ← row_major mask;
  Ok (map fst (filter (fun p => snd p = true)
                      (zip (all_indices (sizes mask)) flags))).

(** [torch.nonzero(mask)]: one row per non-zero element, holding its
    multi-index. *)
Definition nonzero (mask : tensor bool) : result (tensor Z) :=
  hits ← true_indices mask;
  let shape := [length hits; length (sizes mask)] in
  Ok (Tensor (concat (map (map Z.of_nat) hits)) shape (contiguous_strides shape)).

(** [len(t)]: the extent of the first dimension. *)
Definition len {A} (t : tensor A) : nat := hd 0%nat (sizes t).

(** [torch.squeeze(t, dim)]: drops dimension [dim] when its extent is 1. *)
Definition squeeze {A} (t : tensor A) (dim : nat) : result (tensor A) :=
  match sizes t !! dim with
  | Some 1%nat => Ok (Tensor (storage t) (delete dim (sizes t)) (delete dim (strides t)))
  | Some _ => Ok t
  | None => Raise IndexError
  end.

(** [torch.Tensor([])]: an empty tensor of the default (float) type. *)
Definition empty_float_tensor : any_tensor :=
  FloatTensor (Tensor [] [0%nat] [1%nat]).

Definition get_valid_annotations_index (flatten_annotations : tensor Z)
    (mask_out_value : Z) : result any_tensor :=
  nonz ← nonzero (tmap (fun a => negb (a =? mask_out_value)) flatten_annotations);
  if (len nonz =? 0)%nat then Ok empty_float_tensor
  else LongTensor <$> squeeze nonz 1.

(** [torch.index_select(input, dim, index)]: the index must be a 1-D
    LongTensor with entries inside dimension [dim]. *)
Definition index_select {A} (input : tensor A) (dim : nat) (index : any_tensor)
  : result (tensor A) :=
  match index with
  | FloatTensor _ => Raise TypeError
  | LongTensor ix =>
      match sizes ix, sizes input !! dim with
      | [n], Some extent =>
          ks ← row_major ix;
          if forallb (fun k => (0 <=? k) && (k <? Z.of_nat extent)) ks then
            let shape := <[dim := n]> (sizes input) in
            data ← mapM (fun idx =>
                      match idx !! dim ≫= (ks !!.) with
                      | Some k => tget input (<[dim := Z.to_nat k]> idx)
                      | None => Raise IndexError
                      end) (all_indices shape);
            Ok (Tensor data shape (contiguous_strides shape))
          else Raise IndexError
      | _, _ => Raise RuntimeError
      end
  end.

Definition get_valid_logits {A} (logits : tensor A) (index : any_tensor)
    (number_of_classes : Z) : result (tensor A) :=
  logits_flatten ← flatten_logits logits number_of_classes;
  index_select logits_flatten 0 index.

Definition get_valid_annos (anno : tensor Z) (mask_out_value : Z)
  : result (tensor Z * any_tensor) :=
  anno_flatten ← flatten_annotations anno;
  index ← get_valid_annotations_index anno_flatten mask_out_value;
  anno_flatten_valid ← index_select anno_flatten 0 index;
  Ok (anno_flatten_valid, index).

(** A contiguous tensor built from a nested Python list (1-D). *)
Definition tensor1 {A} (l : list A) : tensor A := Tensor l [length l] [1%nat].

(** ** numpy helpers *)

(** [a.flatten()]: a fresh 1-D copy in row-major order. *)
Definition np_flatten {A} (a : tensor A) : result (tensor A) :=
  tensor1 <$> row_major a.

(** [np.zeros_like(a)] *)
Definition zeros_like (a : tensor Z) : tensor Z :=
  Tensor (replicate (numel a) 0) (sizes a) (contiguous_strides (sizes a)).

(** [a[idx] = v] *)
Definition tset {A} (a : tensor A) (idx : list nat) (v : A) : result (tensor A) :=
  if in_bounds idx (sizes a) then
    Ok (Tensor (<[flat_offset idx (strides a) := v]> (storage a)) (sizes a) (strides a))
  else Raise IndexError.

(** [np.argmax] of a non-empty list: the first position of the maximum. *)
Fixpoint argmax_from (best : Q) (best_i i : nat) (l : list Q) : nat :=
  match l with
  | [] => best_i
  | x :: l' =>
      if Qle_bool x best then argmax_from best best_i (S i) l'
      else argmax_from x i (S i) l'
  end.

Definition np_argmax (l : list Q) : result nat :=
  match l with
  | [] => Raise ValueError
  | x :: l' => Ok (argmax_from x 0 1 l')
  end.

(** [np.mean]; [None] stands for the NaN of an empty input. *)
Definition np_mean (l : list Q) : option Q :=
  match l with
  | [] => None
  | _ => Some (foldr Qplus 0%Q l / inject_Z (Z.of_nat (length l)))%Q
  end.

Definition enumerate {A} (l : list A) : list (nat * A) :=
  zip (seq 0 (length l)) l.

(** A Python [for] loop whose body may raise. *)
Fixpoint for_each {S I} (body : S -> I -> result S) (s : S) (l : list I)
  : result S :=
  match l with
  | [] => Ok s
  | i :: l' => s' ← body s i; for_each body s' l'
  end.

(** ** Predictions for the confusion matrices (lines 168-227) *)

(** The indices of [t.max(dim)]: per position of the remaining
    dimensions, the first index of the largest score along [dim]. *)
Definition argmax_dim (t : tensor Q) (dim : nat) : result (tensor Z) :=
  match sizes t !! dim with
  | None => Raise IndexError
  | Some extent =>
      let shape := delete dim (sizes t) in
      data ← mapM (fun idx =>
                scores ← mapM (fun c => tget t (take dim idx ++ c :: drop dim idx))
                              (seq 0 extent);
                Z.of_nat <$> np_argmax scores)
              (all_indices shape);
      Ok (Tensor data shape (contiguous_strides shape))
  end.

Definition numpyify_logits_and_annotations (logits : tensor Q) (anno : tensor Z)
    (flatten : bool) : result (tensor Z * tensor Z) :=
  prediction ← argmax_dim logits 1;
  prediction_np ← squeeze prediction 1;
  let anno_np := anno in
  if flatten then
    p ← np_flatten prediction_np; a ← np_flatten anno_np; Ok (p, a)
  else Ok (prediction_np, anno_np).

Module OutputsTonpGt.

(** The local [to_pair] of [outputs_tonp_gt] (lines 202-207). *)
Definition to_pair (ind num_to_aggregate : Z) : list Z :=
  if ind >? num_to_aggregate then [ind - num_to_aggregate; ind]
  else [ind; ind + num_to_aggregate].

End OutputsTonpGt.

Definition num_to_aggregate : Z := 20.

(** Lines 215-221: the body of the loop up to the assignment.  The
    annotation array is three-dimensional (batch, height, width). *)
Definition aided_prediction (_logits : tensor Q) (anno_np : tensor Z)
    (index : list nat) : result Z :=
  anno_ind ← tget anno_np index;
  match index with
  | [batch_ind; i; j] =>
      let channel_indices := OutputsTonpGt.to_pair anno_ind num_to_aggregate in
      scores ← mapM (fun ci => tget_py _logits
                                 [Z.of_nat batch_ind; ci; Z.of_nat i; Z.of_nat j])
                    channel_indices;
      k ← np_argmax scores;
      match channel_indices !! k with
      | Some c => Ok c
      | None => Raise IndexError
      end
  | _ => Raise IndexError
  end.

Definition outputs_tonp_gt (logits : tensor Q) (anno : tensor Z) (flatten : bool)
  : result (tensor Z * tensor Z) :=
  let _logits := logits in
  let anno_np := anno in
  let predictions := zeros_like anno_np in
  where_ ← true_indices (tmap (fun a => (a >? 0) && negb (a =? 255)) anno_np);
  predictions ← for_each (fun predictions index =>
                   aided_prediction ← aided_prediction _logits anno_np index;
                   tset predictions index aided_prediction)
                 predictions where_;
  if flatten then
    p ← np_flatten predictions; a ← np_flatten anno_np; Ok (p, a)
  else Ok (predictions, anno_np).

Module CompressObjpartLogits.

(** The local [to_pair] of [compress_objpart_logits] (lines 243-248):
    the task bit and the channel pair. *)
Definition to_pair (ind num_to_aggregate : Z) : Z * list Z :=
  if ind >? num_to_aggregate then (1, [ind - num_to_aggregate; ind])
  else (0, [ind; ind + num_to_aggregate]).

End CompressObjpartLogits.

(** ** Confusion matrices and metrics (lines 262-394) *)

Abbreviation matrix := (list (list Z)).

(** Entry (i, j) of a 2-D array given by its rows. *)
Definition entry (m : matrix) (i j : nat) : Z :=
  default 0 (m !! i ≫= (.!! j)).

(** The counts of scikit-learn's [confusion_matrix] for a list of
    distinct labels: entry (i, j) counts the samples (true label,
    predicted label) equal to [(labels[i], labels[j])]; a sample with a
    label outside [labels] is counted nowhere. *)
Definition count_samples (samples : list (Z * Z)) (labels : list Z) : matrix :=
  map (fun lt =>
         map (fun lp => Z.of_nat (length (filter (fun s => s = (lt, lp)) samples)))
             labels)
      labels.

(** scikit-learn's [confusion_matrix(y_true, y_pred, labels)] on two
    one-dimensional integer arrays, with its argument validation, every
    failure of which is a [ValueError]: the two arrays must have one
    length; [labels] must not be empty; and unless [y_true] is empty (the
    result is then the zero matrix) at least one of the labels must occur
    in [y_true]. *)
Definition confusion_matrix (y_true y_pred labels : list Z) : result matrix :=
  if negb (length y_true =? length y_pred)%nat then Raise ValueError
  else if bool_decide (labels = []) then Raise ValueError
  else if bool_decide (y_true = []) then Ok (count_samples [] labels)
  else if forallb (fun l => bool_decide (l ∉ y_true)) labels then Raise ValueError
  else Ok (count_samples (zip y_true y_pred) labels).

(** [np.diag] of a 2-D array. *)
Definition np_diag (m : matrix) : list Z :=
  omap id (imap (fun i row => row !! i) m).

(** [m.sum(axis=1)] and [m.sum(axis=0)] *)
Definition sum_axis1 (m : matrix) : list Z := map (foldr Z.add 0) m.

Definition sum_axis0 (m : matrix) : list Z :=
  match m with
  | [] => []
  | row :: rows => foldl (zip_with Z.add) row rows
  end.

(** Elementwise sum of two arrays of one shape. *)
Definition matrix_add (a b : matrix) : matrix := zip_with (zip_with Z.add) a b.

(** The shape of the 2-D array a list of rows stands for.  The empty
    list is the array of shape (0, 0); rows of unequal length form no
    array (numpy refuses to build one). *)
Definition np_shape (m : matrix) : option (nat * nat) :=
  match m with
  | [] => Some (0, 0)%nat
  | row :: rows =>
      if forallb (fun r => (length r =? length row)%nat) rows
      then Some (length m, length row)
      else None
  end.

(** numpy's in-place [a += b] on 2-D integer arrays: the elementwise sum
    when the shapes agree; otherwise [b] is broadcast to the shape of [a]
    when each of its extents equals that of [a] or is 1, and the
    statement raises a [ValueError] when it cannot be. *)
Definition np_iadd (a b : matrix) : result matrix :=
  match np_shape a, np_shape b with
  | Some (r, c), Some (r', c') =>
      if bool_decide ((r', c') = (r, c)) then Ok (matrix_add a b)
      else if ((r' =? r) || (r' =? 1))%nat && ((c' =? c) || (c' =? 1))%nat then
        Ok (imap (fun i row =>
                    imap (fun j x =>
                            x + entry b (if (r' =? 1)%nat then 0%nat else i)
                                        (if (c' =? 1)%nat then 0%nat else j))
                         row)
                 a)
      else Raise ValueError
  | _, _ => Raise ValueError
  end.

(** The value of the binary float with [p] significant bits nearest to
    the integer [z] (ties to even); it is again an integer.  Counts are
    far below the overflow threshold of either format. *)
Definition round_to_bits (p z : Z) : Z :=
  let m := Z.abs z in
  let s := Z.log2 m + 1 - p in
  if s <=? 0 then z
  else
    let q := Z.shiftr m s in
    let r := m - Z.shiftl q s in
    let half := Z.shiftl 1 (s - 1) in
    let q' := if (half <? r) || ((r =? half) && Z.odd q) then q + 1 else q in
    Z.sgn z * Z.shiftl q' s.

(** [x.astype(np.float32)] and the int64-to-float64 promotion. *)
Definition float32 (z : Z) : Z := round_to_bits 24 z.
Definition float64 (z : Z) : Z := round_to_bits 53 z.

Definition get_iou (confusion_matrix : matrix) : list Q :=
  let intersection := np_diag confusion_matrix in
  let gt_set := sum_axis1 confusion_matrix in
  let predicted_set := sum_axis0 confusion_matrix in
  let union := zip_with Z.sub (zip_with Z.add gt_set predicted_set) intersection in
  let eps := 1 in
  let union := map (fun u => if u =? 0 then eps else u) union in
  zip_with (fun i u => inject_Z (float64 i) / inject_Z u)%Q
           intersection (map float32 union).

Definition get_precision_recall (confusion_matrix : matrix) : list Q * list Q :=
  let intersection := np_diag confusion_matrix in
  let gt_set := sum_axis1 confusion_matrix in
  let predicted_set := sum_axis0 confusion_matrix in
  let precision :=
    zip_with (fun i d => inject_Z (float64 i) / inject_Z d)%Q intersection
             (map float32 (map (fun pred => Z.max (float64 pred) 1) predicted_set)) in
  let recall :=
    zip_with (fun i d => inject_Z (float64 i) / inject_Z d)%Q intersection
             (map float32 (map (fun gt => Z.max (float64 gt) 1) gt_set)) in
  (precision, recall).

Definition no_parts : list nat := [0; 4; 9; 11; 18; 20; 24; 29; 31; 38; 40]%nat.

(** Lines 350-358: the running matrix is the batch matrix on the first
    batch and grows by [+=] afterwards. *)
Definition accumulate (overall : option matrix) (current : matrix) : result matrix :=
  match overall with
  | None => Ok current
  | Some overall => np_iadd overall current
  end.

(** The values [validate_batch] returns (no summary writer). *)
Record batch_result : Type := BatchResult {
  objpart_mPrec : option Q;
  objpart_mRec : option Q;
  semantic_mIoU : option Q;
  overall_part_confusion_matrix : matrix;
  overall_semantic_confusion_matrix : matrix;
}.

(** Lines 334-348 for the object-part task: the flattened ground truth
    with background rewritten, and the batch matrix. *)
Definition objpart_ground_truth (objpart_anno_np : tensor Z) : list Z :=
  map (fun a => if a =? 0 then -1 else a) (storage objpart_anno_np).

(** Lines 327-348: predictions and ground truth of both tasks, and the
    two confusion matrices of the current batch (semantic, object-part). *)
Definition current_confusion_matrices (objpart_dat semantic_dat : tensor Q * tensor Z)
    (labels : list Z * list Z) : result (matrix * matrix) :=
  let '(objpart_logits, objpart_anno) := objpart_dat in
  let '(semantic_logits, semantic_anno) := semantic_dat in
  let '(objpart_labels, semantic_labels) := labels in
  '(semantic_prediction_np, semantic_anno_np) ←
    numpyify_logits_and_annotations semantic_logits semantic_anno true;
  '(objpart_prediction_np, objpart_anno_np) ←
    outputs_tonp_gt objpart_logits objpart_anno true;
  let objpart_anno_np := objpart_ground_truth objpart_anno_np in
  current_semantic_confusion_matrix ←
    confusion_matrix (storage semantic_anno_np) (storage semantic_prediction_np)
                     semantic_labels;
  current_objpart_confusion_matrix ←
    confusion_matrix objpart_anno_np (storage objpart_prediction_np)
                     objpart_labels;
  Ok (current_semantic_confusion_matrix, current_objpart_confusion_matrix).

Definition validate_batch (objpart_dat semantic_dat : tensor Q * tensor Z)
    (overall_part overall_semantic : option matrix)
    (labels : list Z * list Z) : result batch_result :=
  '(current_semantic_confusion_matrix, current_objpart_confusion_matrix) ←
    current_confusion_matrices objpart_dat semantic_dat labels;
  overall_semantic ← accumulate overall_semantic current_semantic_confusion_matrix;
  overall_part ← accumulate overall_part current_objpart_confusion_matrix;
  let semantic_IoU := get_iou current_semantic_confusion_matrix in
  let semantic_mIoU := np_mean semantic_IoU in
  let '(objpart_prec, objpart_rec) :=
    get_precision_recall current_objpart_confusion_matrix in
  let objpart_mPrec :=
    np_mean (map snd (filter (fun p => fst p ∉ no_parts) (enumerate objpart_prec))) in
  let objpart_mRec :=
    np_mean (map snd (filter (fun p => fst p ∉ no_parts) (enumerate objpart_rec))) in
  Ok (BatchResult objpart_mPrec objpart_mRec semantic_mIoU overall_part overall_semantic).

(** Lines 341-358 for one task and one batch, given the batch's flat
    (ground truth, prediction) arrays: the batch matrix is computed and
    accumulated into the running matrix; an exception of an earlier batch
    has ended the pass. *)
Definition accumulate_batch (labels : list Z) (overall : result (option matrix))
    (batch : list Z * list Z) : result (option matrix) :=
  overall ← overall;
  current ← confusion_matrix batch.1 batch.2 labels;
  overall ← accumulate overall current;
  Ok (Some overall).

(** One evaluation pass over a fixed label set: the running matrix after
    the batches' (ground truth, prediction) arrays have been accumulated
    in the given order, starting from no matrix. *)
Definition accumulate_pass (labels : list Z) (batches : list (list Z * list Z))
  : result (option matrix) :=
  foldl (accumulate_batch labels) (Ok None) batches.

(** ** Notions used in the statements *)

Definition square (n : nat) (m : matrix) : Prop :=
  length m = n ∧ Forall (fun row => length row = n) m.

Definition nonneg (m : matrix) : Prop :=
  Forall (Forall (fun c => 0 <= c)) m.

(** Number of ground-truth pixels of class [i]. *)
Definition row_sum (m : matrix) (i : nat) : Z :=
  foldr Z.add 0 (default [] (m !! i)).

(** Number of pixels predicted as class [j]. *)
Definition col_sum (m : matrix) (j : nat) : Z :=
  foldr Z.add 0 (map (fun row => default 0 (row !! j)) m).

(** Arithmetic mean of the entries whose index is not excluded. *)
Definition macro_average (per_class : list Q) (exclude : list nat) : option Q :=
  let kept := filter (fun i => i ∉ exclude) (seq 0 (length per_class)) in
  match kept with
  | [] => None
  | _ => Some (foldr Qplus 0%Q (map (fun i => default 0%Q (per_class !! i)) kept)
               / inject_Z (Z.of_nat (length kept)))%Q
  end.

(** Flat position of pixel (b, i, j) in a (B, H, W) array. *)
Definition pixel (H W b i j : nat) : nat := ((b * H + i) * W + j)%nat.

(** The other member of a label's object/part channel pair. *)
Definition counterpart (a : Z) : Z := if a <=? 20 then a + 20 else a - 20.

(** A label the object-part network can score: background or padding
    (not positive), the ignore value, or a label below it whose two
    paired channels exist among the [C] channels of the logits. *)
Definition label_ok (C : nat) (a : Z) : bool :=
  (a <=? 0) || (a =? 255)
  || ((a <? 255) && forallb (fun c => c <? Z.of_nat C)
                            (OutputsTonpGt.to_pair a num_to_aggregate)).

(** The positions the index selector keeps: those whose label differs
    from the ignore value, in increasing order. *)
Definition valid_positions (labels : list Z) (mask_out_value : Z) : list nat :=
  filter (fun k => labels !! k ≠ Some mask_out_value) (seq 0 (length labels)).

(** The value of a computation that does not raise. *)
Definition ok_or {A} (d : A) (r : result A) : A :=
  match r with
  | Ok a => a
  | Raise _ => d
  end.

(** The batch with its background pixels removed. *)
Definition without_background (y_true y_pred : list Z) : list (Z * Z) :=
  filter (fun s => s.1 ≠ 0) (zip y_true y_pred).

(** ** Compression of object-part logits (lines 230-259) *)

(** [torch.LongTensor(rows)] for a Python list of equally long rows; the
    empty list gives an empty one-dimensional tensor. *)
Definition tensor2 {A} (rows : list (list A)) : tensor A :=
  match rows with
  | [] => Tensor [] [0%nat] [1%nat]
  | row :: _ =>
      Tensor (concat rows) [length rows; length row]
             (contiguous_strides [length rows; length row])
  end.

(** [torch.gather(input, dim, index)]: the result has the shape of
    [index] and holds [input] read at the position whose [dim]-th
    coordinate is replaced by the index entry.  [index] must have the
    rank of [input] and its extents outside [dim]; its entries must lie
    inside dimension [dim]. *)
Definition torch_gather {A} (input : tensor A) (dim : nat) (index : tensor Z)
  : result (tensor A) :=
  match sizes input !! dim with
  | None => Raise IndexError
  | Some extent =>
      if bool_decide (delete dim (sizes index) = delete dim (sizes input))
         && (length (sizes index) =? length (sizes input))%nat
      then
        data ← mapM (fun idx =>
                  k ← tget index idx;
                  if (0 <=? k) && (k <? Z.of_nat extent)
                  then tget input (<[dim := Z.to_nat k]> idx)
                  else Raise IndexError)
                (all_indices (sizes index));
        Ok (Tensor data (sizes index) (contiguous_strides (sizes index)))
      else Raise RuntimeError
  end.

(** [anno] is the one-dimensional tensor of the docstring; iterating it
    yields its labels. *)
Definition compress_objpart_logits (logits : tensor Q) (anno : tensor Z)
  : result (tensor Q * tensor Z) :=
  labels ← match sizes anno with
            | [_] => row_major anno
            | _ => Raise TypeError
            end;
  let pairs := map (fun label => CompressObjpartLogits.to_pair label 20) labels in
  let indices := map snd pairs in
  let new_anno := map fst pairs in
  compressed_logits ← torch_gather logits 1 (tensor2 indices);
  Ok (compressed_logits, tensor1 new_anno).

(** ** Prediction masks of [validate_and_output_images] (lines 629-647) *)

(** The branch on [which]: the prediction and annotation arrays that are
    rendered.  In the ['objpart'] mode the aided predictions are collapsed
    to 1 (object) and 2 (part) by two masked assignments in sequence. *)
Definition rendered_prediction (which : string)
    (objpart_logits semantic_logits : tensor Q)
    (objpart_anno semantic_anno : tensor Z) : result (tensor Z * tensor Z) :=
  if String.eqb which "semantic" then
    numpyify_logits_and_annotations semantic_logits semantic_anno false
  else if String.eqb which "separated" then
    numpyify_logits_and_annotations objpart_logits objpart_anno false
  else if String.eqb which "objpart" then
    '(prediction, anno) ← outputs_tonp_gt objpart_logits semantic_anno false;
    let prediction :=
      tmap (fun v => if (v >? 0) && (v <? 21) then 1 else v) prediction in
    let prediction := tmap (fun v => if v >? 20 then 2 else v) prediction in
    Ok (prediction, anno)
  else Raise ValueError.

(** ** Further notions used in the statements *)

(** The samples (true label, predicted label) of a list of batches. *)
Definition all_samples (batches : list (list Z * list Z)) : list (Z * Z) :=
  concat (map (fun b => zip b.1 b.2) batches).

(** The state of a pass over [n] labels: ended by a [ValueError], not
    begun, or holding an n x n running matrix. *)
Definition pass_state (n : nat) (overall : result (option matrix)) : Prop :=
  match overall with
  | Raise e => e = ValueError
  | Ok None => True
  | Ok (Some m) => square n m
  end.

(** A batch the confusion matrix accepts whatever the labels' order: its
    two arrays have one length and a declared label occurs in its ground
    truth. *)
Definition countable (labels : list Z) (batch : list Z * list Z) : Prop :=
  length batch.1 = length batch.2 /\ exists l, l ∈ labels /\ l ∈ batch.1.

(** A running matrix that is absent or an n x n matrix of counts. *)
Definition running_ok (n : nat) (overall : option matrix) : Prop :=
  match overall with
  | None => True
  | Some m => square n m /\ nonneg m
  end.

(** The matrix with ground truth and prediction exchanged. *)
Definition transpose (n : nat) (m : matrix) : matrix :=
  map (fun i => map (fun j => entry m j i) (seq 0 n)) (seq 0 n).

(** [c] is a channel of maximal score at pixel (b, i, j). *)
Definition best_channel (logits : tensor Q) (C b i j c : nat) : Prop :=
  (c < C)%nat
  /\ exists s, tget logits [b; c; i; j] = Ok s
              /\ forall c', (c' < C)%nat ->
                   exists s', tget logits [b; c'; i; j] = Ok s' /\ (s' <= s)%Q.

(** * Properties *)

(** ** The result monad *)

Lemma bind_ok {A B} (r : result A) (k : A -> result B) (b : B) :
  r ≫= k = Ok b -> exists a, r = Ok a /\ k a = Ok b.
Proof. destruct r as [a|e]; simpl; [eauto | discriminate]. Qed.

Section ResultMonad.
Context {A B : Type}.

Lemma mapM_ok (f : A -> result B) (l : list A) (k : list B) :
  mapM f l = Ok k <-> Forall2 (fun x y => f x = Ok y) l k.
Proof.
  revert k. induction l as [|x l IH]; intros k; simpl.
  - split; [intros [= <-]; constructor | inversion 1; reflexivity].
  - split.
    + intros H. apply bind_ok in H as (y & Hy & H).
      fold (mapM f l) in H. destruct (mapM f l) as [k'|] eqn:Hk; [|discriminate].
      simpl in H. injection H as <-. constructor; [exact Hy | now apply IH].
    + inversion 1 as [|? y ? k' Hy Hk]; subst.
      apply IH in Hk. fold (mapM f l). rewrite Hy, Hk. reflexivity.
Qed.

Lemma mapM_ok_fmap (f : A -> result B) (g : A -> B) (l : list A) :
  (forall x, x ∈ l -> f x = Ok (g x)) -> mapM f l = Ok (g <$> l).
Proof.
  intros H. apply mapM_ok. apply Forall2_fmap_r, Forall_Forall2_diag.
  apply Forall_forall. exact H.
Qed.
End ResultMonad.

(** ** The object/part pairing *)

(** C4.  For a label [L] of the combined range [1, 2N], [to_pair] returns
    [[L - N, L]] with task bit 1 when [L > N] and [[L, L + N]] with task
    bit 0 otherwise; the part index [L + N] produced for an object label is
    mapped back to the pair with [L] as its object index; and
    [to_pair 25 20] is [(1, [5, 25])]. *)
Theorem to_pair_structure (L N : Z) :
  1 <= L <= 2 * N ->
  (N < L ->
     CompressObjpartLogits.to_pair L N = (1, [L - N; L])
     /\ OutputsTonpGt.to_pair L N = [L - N; L])
  /\ (L <= N ->
        CompressObjpartLogits.to_pair L N = (0, [L; L + N])
        /\ OutputsTonpGt.to_pair L N = [L; L + N]
        /\ CompressObjpartLogits.to_pair (L + N) N = (1, [L; L + N])
        /\ OutputsTonpGt.to_pair (L + N) N = [L; L + N])
  /\ CompressObjpartLogits.to_pair 25 20 = (1, [5; 25]).
Proof.
  intros HL.
  unfold CompressObjpartLogits.to_pair, OutputsTonpGt.to_pair.
  repeat split; intros; try reflexivity.
  - destruct (Z.gtb_spec L N); [reflexivity | lia].
  - destruct (Z.gtb_spec L N); [reflexivity | lia].
  - destruct (Z.gtb_spec L N); [lia | reflexivity].
  - destruct (Z.gtb_spec L N); [lia | reflexivity].
  - destruct (Z.gtb_spec (L + N) N); [|lia]. do 3 f_equal; lia.
  - destruct (Z.gtb_spec (L + N) N); [|lia]. do 2 f_equal; lia.
Qed.

Lemma to_pair_structure_witness :
  CompressObjpartLogits.to_pair 3 20 = (0, [3; 23])
  /\ CompressObjpartLogits.to_pair 23 20 = (1, [3; 23]).
Proof.
  destruct (to_pair_structure 3 20 ltac:(lia)) as (_ & H & _).
  destruct (H ltac:(lia)) as (H1 & _ & H2 & _).
  split; [exact H1 | exact H2].
Defined.

(** ** Accumulation of confusion matrices *)

Section Accumulate.

Lemma zip_with_add_comm (a b : list Z) :
  zip_with Z.add a b = zip_with Z.add b a.
Proof.
  revert b; induction a as [|x a IH]; intros [|y b]; simpl; try reflexivity.
  rewrite IH. f_equal. lia.
Qed.

Lemma zip_with_add_assoc (a b c : list Z) :
  zip_with Z.add (zip_with Z.add a b) c = zip_with Z.add a (zip_with Z.add b c).
Proof.
  revert b c; induction a as [|x a IH]; intros [|y b] [|z c]; simpl;
    try reflexivity.
  rewrite IH. f_equal. lia.
Qed.

Lemma matrix_add_comm (a b : matrix) : matrix_add a b = matrix_add b a.
Proof.
  unfold matrix_add.
  revert b; induction a as [|x a IH]; intros [|y b]; simpl; try reflexivity.
  rewrite IH, zip_with_add_comm. reflexivity.
Qed.

Lemma matrix_add_assoc (a b c : matrix) :
  matrix_add (matrix_add a b) c = matrix_add a (matrix_add b c).
Proof.
  unfold matrix_add.
  revert b c; induction a as [|x a IH]; intros [|y b] [|z c]; simpl;
    try reflexivity.
  rewrite IH, zip_with_add_assoc. reflexivity.
Qed.

Lemma entry_matrix_add (n : nat) (a b : matrix) (i j : nat) :
  square n a -> square n b ->
  entry (matrix_add a b) i j = entry a i j + entry b i j.
Proof.
  intros [La Ha] [Lb Hb]. unfold entry, matrix_add.
  rewrite lookup_zip_with.
  destruct (a !! i) as [ra|] eqn:Ea; simpl.
  - destruct (b !! i) as [rb|] eqn:Eb; simpl.
    + rewrite lookup_zip_with.
      pose proof (proj1 (Forall_lookup _ _) Ha _ _ Ea) as Lra.
      pose proof (proj1 (Forall_lookup _ _) Hb _ _ Eb) as Lrb.
      cbv beta in Lra, Lrb.
      destruct (ra !! j) as [x|] eqn:Ex; simpl.
      * destruct (rb !! j) as [y|] eqn:Ey; simpl; [reflexivity|].
        apply lookup_lt_Some in Ex. apply lookup_ge_None in Ey. lia.
      * destruct (rb !! j) as [y|] eqn:Ey; simpl; [|reflexivity].
        apply lookup_lt_Some in Ey. apply lookup_ge_None in Ex. lia.
    + apply lookup_lt_Some in Ea. apply lookup_ge_None in Eb. lia.
  - destruct (b !! i) as [rb|] eqn:Eb; simpl; [|reflexivity].
    apply lookup_lt_Some in Eb. apply lookup_ge_None in Ea. lia.
Qed.

Lemma square_matrix_add (n : nat) (a b : matrix) :
  square n a -> square n b -> square n (matrix_add a b).
Proof.
  intros [La Ha] [Lb Hb]. unfold matrix_add. split.
  - rewrite length_zip_with. lia.
  - apply Forall_lookup. intros i r Hr.
    apply lookup_zip_with_Some in Hr as (ra & rb & -> & Ea & Eb).
    rewrite length_zip_with.
    pose proof (proj1 (Forall_lookup _ _) Ha _ _ Ea) as Lra.
    pose proof (proj1 (Forall_lookup _ _) Hb _ _ Eb) as Lrb.
    cbv beta in Lra, Lrb. lia.
Qed.

Lemma square_count_samples (samples : list (Z * Z)) (labels : list Z) :
  square (length labels) (count_samples samples labels)
  /\ nonneg (count_samples samples labels).
Proof.
  unfold square, nonneg, count_samples. rewrite length_map.
  repeat split.
  - apply Forall_forall. intros row (lt & -> & _)%list_elem_of_fmap.
    apply length_map.
  - apply Forall_forall. intros row (lt & -> & _)%list_elem_of_fmap.
    apply Forall_forall. intros c (lp & -> & _)%list_elem_of_fmap. lia.
Qed.

Lemma forallb_false_exists {X} (f : X -> bool) (l : list X) :
  forallb f l = false -> exists x, x ∈ l /\ f x = false.
Proof.
  induction l as [|x l IH]; cbn [forallb]; [discriminate|].
  destruct (f x) eqn:Hx; cbn [andb].
  - intros (y & Hy & Hf)%IH. exists y. split; [now apply list_elem_of_further | exact Hf].
  - intros _. exists x. split; [apply list_elem_of_here | exact Hx].
Qed.

(** What scikit-learn's validation lets through. *)
Lemma confusion_matrix_ok_inv (y_true y_pred labels : list Z) (m : matrix) :
  confusion_matrix y_true y_pred labels = Ok m ->
  m = count_samples (zip y_true y_pred) labels
  /\ length y_true = length y_pred /\ labels <> []
  /\ (y_true = [] \/ exists l, l ∈ labels /\ l ∈ y_true).
Proof.
  unfold confusion_matrix.
  destruct (length y_true =? length y_pred)%nat eqn:Hlen; [|discriminate].
  apply Nat.eqb_eq in Hlen. cbn [negb].
  case_bool_decide as Hlabels; [discriminate|].
  case_bool_decide as Htrue.
  - intros [= <-]. subst y_true. cbn [zip zip_with]. auto.
  - destruct (forallb _ labels) eqn:Hall; [discriminate|]. intros [= <-].
    repeat split; try assumption. right.
    apply forallb_false_exists in Hall as (l & Hl & Hin).
    exists l. split; [exact Hl|].
    apply bool_decide_eq_false in Hin. now apply dec_stable.
Qed.

Lemma confusion_matrix_raise (y_true y_pred labels : list Z) (e : exn) :
  confusion_matrix y_true y_pred labels = Raise e -> e = ValueError.
Proof.
  unfold confusion_matrix.
  repeat (match goal with
          | |- context [if ?c then _ else _] => destruct c
          end; try congruence).
Qed.

Lemma confusion_matrix_ok (y_true y_pred labels : list Z) :
  length y_true = length y_pred -> (exists l, l ∈ labels /\ l ∈ y_true) ->
  confusion_matrix y_true y_pred labels
  = Ok (count_samples (zip y_true y_pred) labels).
Proof.
  intros Hlen (l & Hl & Hin). unfold confusion_matrix.
  rewrite (proj2 (Nat.eqb_eq _ _) Hlen). cbn [negb].
  rewrite bool_decide_eq_false_2 by (intros ->; now apply not_elem_of_nil in Hl).
  rewrite bool_decide_eq_false_2 by (intros ->; now apply not_elem_of_nil in Hin).
  destruct (forallb _ labels) eqn:Hall; [|reflexivity].
  rewrite forallb_forall in Hall.
  apply list_elem_of_In, Hall, bool_decide_eq_true in Hl. contradiction.
Qed.

Lemma confusion_matrix_no_label (y_true y_pred labels : list Z) :
  y_true <> [] -> (forall l, l ∈ labels -> l ∉ y_true) ->
  confusion_matrix y_true y_pred labels = Raise ValueError.
Proof.
  intros Hne Hno. unfold confusion_matrix.
  destruct (negb _); [reflexivity|].
  case_bool_decide; [reflexivity|].
  rewrite bool_decide_eq_false_2 by exact Hne.
  destruct (forallb _ labels) eqn:Hall; [reflexivity|].
  apply not_true_iff_false in Hall. exfalso. apply Hall.
  apply forallb_forall. intros l Hl%list_elem_of_In.
  apply bool_decide_eq_true. now apply Hno.
Qed.

Lemma confusion_matrix_square (y_true y_pred labels : list Z) (m : matrix) :
  confusion_matrix y_true y_pred labels = Ok m ->
  square (length labels) m /\ nonneg m.
Proof.
  intros (-> & _)%confusion_matrix_ok_inv. apply square_count_samples.
Qed.

(** [+=] on arrays of one shape. *)
Lemma np_shape_square (n : nat) (m : matrix) :
  square n m -> np_shape m = Some (n, n).
Proof.
  intros [Hlen Hrows]. destruct m as [|row rows]; cbn [np_shape].
  - now subst n.
  - inversion Hrows as [|? ? Hrow Hrest]; subst.
    rewrite (proj2 (forallb_forall _ _)).
    + cbn [length] in *. now rewrite Hrow.
    + intros r Hr%list_elem_of_In. apply Nat.eqb_eq.
      rewrite Hrow. exact (proj1 (Forall_forall _ _) Hrest r Hr).
Qed.

Lemma np_iadd_square (n : nat) (a b : matrix) :
  square n a -> square n b -> np_iadd a b = Ok (matrix_add a b).
Proof.
  intros Ha Hb. unfold np_iadd.
  rewrite (np_shape_square n a Ha), (np_shape_square n b Hb).
  now rewrite bool_decide_eq_true_2.
Qed.

Lemma np_iadd_raise (a b : matrix) (e : exn) :
  np_iadd a b = Raise e -> e = ValueError.
Proof.
  unfold np_iadd.
  destruct (np_shape a) as [[r c]|]; [|congruence].
  destruct (np_shape b) as [[r' c']|]; [|congruence].
  repeat (match goal with
          | |- context [if ?c then _ else _] => destruct c
          end; try congruence).
Qed.

Lemma accumulate_square (n : nat) (overall : option matrix) (current : matrix) :
  (forall m, overall = Some m -> square n m) -> square n current ->
  exists sum, accumulate overall current = Ok sum /\ square n sum
              /\ sum = match overall with
                       | None => current
                       | Some m => matrix_add m current
                       end.
Proof.
  intros Ho Hc. destruct overall as [m|]; cbn [accumulate].
  - rewrite (np_iadd_square n) by auto.
    eexists. split; [reflexivity|]. split; [|reflexivity].
    apply square_matrix_add; auto.
  - eauto.
Qed.

(** One batch of a pass. *)
Lemma accumulate_batch_state (labels : list Z) (overall : result (option matrix))
    (batch : list Z * list Z) :
  pass_state (length labels) overall ->
  pass_state (length labels) (accumulate_batch labels overall batch).
Proof.
  unfold accumulate_batch. destruct overall as [o|e]; cbn; [|auto].
  intros Ho. destruct (confusion_matrix batch.1 batch.2 labels) as [m|e] eqn:Hm; cbn.
  - apply confusion_matrix_square in Hm as [Hm _].
    destruct (accumulate_square (length labels) o m) as (sum & -> & Hs & _);
      [intros ? ->; exact Ho | exact Hm | exact Hs].
  - now apply confusion_matrix_raise in Hm.
Qed.

Lemma accumulate_batch_swap (labels : list Z) (overall : result (option matrix))
    (x y : list Z * list Z) :
  pass_state (length labels) overall ->
  accumulate_batch labels (accumulate_batch labels overall x) y
  = accumulate_batch labels (accumulate_batch labels overall y) x.
Proof.
  intros Ho. unfold accumulate_batch. destruct overall as [o|e]; [|reflexivity].
  cbn [mbind result_bind].
  destruct (confusion_matrix x.1 x.2 labels) as [mx|ex] eqn:Hx;
    destruct (confusion_matrix y.1 y.2 labels) as [my|ey] eqn:Hy;
    cbn [mbind result_bind];
    try (apply confusion_matrix_raise in Hx as ->);
    try (apply confusion_matrix_raise in Hy as ->).
  - pose proof (confusion_matrix_square _ _ _ _ Hx) as [Hsx _].
    pose proof (confusion_matrix_square _ _ _ _ Hy) as [Hsy _].
    destruct (accumulate_square (length labels) o mx) as (sx & -> & Hssx & ->);
      [intros ? ->; exact Ho | exact Hsx |].
    destruct (accumulate_square (length labels) o my) as (sy & -> & Hssy & ->);
      [intros ? ->; exact Ho | exact Hsy |].
    cbn [mbind result_bind accumulate].
    rewrite !(np_iadd_square (length labels)) by assumption.
    cbn [mbind result_bind]. do 2 f_equal.
    destruct o as [m|].
    + rewrite !matrix_add_assoc. f_equal. apply matrix_add_comm.
    + apply matrix_add_comm.
  - apply confusion_matrix_square in Hx as [Hx _].
    destruct (accumulate_square (length labels) o mx) as (sx & -> & _ & _);
      [intros ? ->; exact Ho | exact Hx |].
    reflexivity.
  - apply confusion_matrix_square in Hy as [Hy _].
    destruct (accumulate_square (length labels) o my) as (sy & -> & _ & _);
      [intros ? ->; exact Ho | exact Hy |].
    reflexivity.
  - reflexivity.
Qed.

Lemma accumulate_fold_perm (labels : list Z)
    (batches batches' : list (list Z * list Z)) :
  Permutation batches batches' ->
  forall overall,
    pass_state (length labels) overall ->
    foldl (accumulate_batch labels) overall batches
    = foldl (accumulate_batch labels) overall batches'.
Proof.
  induction 1 as [|b l l' _ IH|a b l|l l' l'' _ IH1 _ IH2]; intros overall Ho;
    cbn [foldl].
  - reflexivity.
  - apply IH. now apply accumulate_batch_state.
  - f_equal. now apply accumulate_batch_swap.
  - rewrite IH1 by assumption. now apply IH2.
Qed.

End Accumulate.

(** C5.  With no running matrix, accumulation returns the batch's matrix;
    with a running matrix of the same shape it returns the elementwise
    sum; and the outcome of a pass - the accumulated matrix, or the error
    of a batch the confusion matrix rejects - does not depend on the
    order of the batches. *)
Theorem accumulate_order_independent (n : nat) (overall current : matrix)
    (labels : list Z) (batches batches' : list (list Z * list Z)) :
  square n overall -> square n current -> Permutation batches batches' ->
  accumulate None current = Ok current
  /\ (exists sum,
        accumulate (Some overall) current = Ok sum
        /\ square n sum
        /\ forall i j, entry sum i j = entry overall i j + entry current i j)
  /\ accumulate_pass labels batches = accumulate_pass labels batches'.
Proof.
  intros Ho Hc Hp. split; [reflexivity|]. split.
  - destruct (accumulate_square n (Some overall) current) as (sum & Hsum & Hs & ->);
      [intros ? [= <-]; exact Ho | exact Hc |].
    exists (matrix_add overall current). split; [exact Hsum|]. split; [exact Hs|].
    intros i j. apply (entry_matrix_add n); assumption.
  - unfold accumulate_pass. apply accumulate_fold_perm; [exact Hp | exact I].
Qed.

Lemma accumulate_order_independent_witness :
  accumulate (Some [[1; 0]; [2; 3]]) [[4; 1]; [0; 1]] = Ok [[5; 1]; [2; 4]]
  /\ accumulate_pass [0; 1] [([0; 1], [0; 0]); ([1; 1], [1; 0])]
     = Ok (Some [[1; 0]; [2; 1]])
  /\ accumulate_pass [0; 1] [([1; 1], [1; 0]); ([0; 1], [0; 0])]
     = Ok (Some [[1; 0]; [2; 1]]).
Proof.
  assert (Hsq1 : square 2 [[1; 0]; [2; 3]]) by (split; [reflexivity | repeat constructor]).
  assert (Hsq2 : square 2 [[4; 1]; [0; 1]]) by (split; [reflexivity | repeat constructor]).
  destruct (accumulate_order_independent 2 [[1; 0]; [2; 3]] [[4; 1]; [0; 1]] [0; 1]
              [([0; 1], [0; 0]); ([1; 1], [1; 0])]
              [([1; 1], [1; 0]); ([0; 1], [0; 0])]
              Hsq1 Hsq2 (perm_swap _ _ _)) as (_ & _ & H).
  split; [reflexivity|]. split; [reflexivity|]. rewrite <- H. reflexivity.
Defined.

(** ** IoU, precision and recall *)

Section Metrics.

Lemma omap_id_Some {A} (l : list A) : omap id (Some <$> l) = l.
Proof. induction l as [|x l IH]; [reflexivity|]. cbn. f_equal. exact IH. Qed.

Lemma square_lookup (n : nat) (M : matrix) (i : nat) :
  square n M -> (i < n)%nat ->
  exists row, M !! i = Some row /\ length row = n.
Proof.
  intros [L H] Hi.
  destruct (lookup_lt_is_Some_2 M i ltac:(lia)) as [row Hrow].
  exists row. split; [exact Hrow|].
  exact (proj1 (Forall_lookup _ _) H _ _ Hrow).
Qed.

Lemma square_entry (n : nat) (M : matrix) (i j : nat) :
  square n M -> (i < n)%nat -> (j < n)%nat ->
  exists row, M !! i = Some row /\ row !! j = Some (entry M i j).
Proof.
  intros HM Hi Hj. destruct (square_lookup n M i HM Hi) as (row & Hrow & Lrow).
  exists row. split; [exact Hrow|]. unfold entry. rewrite Hrow. simpl.
  destruct (lookup_lt_is_Some_2 row j ltac:(lia)) as [x Hx].
  rewrite Hx. reflexivity.
Qed.

Lemma np_diag_square (n : nat) (M : matrix) :
  square n M -> np_diag M = map (fun i => entry M i i) (seq 0 n).
Proof.
  intros HM. unfold np_diag.
  replace (imap (fun i row => row !! i) M)
    with (Some <$> map (fun i => entry M i i) (seq 0 n)).
  { apply omap_id_Some. }
  apply list_eq. intros k.
  rewrite list_lookup_imap, !list_lookup_fmap.
  destruct (Nat.lt_ge_cases k n) as [Hk|Hk].
  - destruct (square_entry n M k k HM Hk Hk) as (row & Hrow & Hx).
    rewrite Hrow, lookup_seq_lt by exact Hk. simpl. now rewrite Hx.
  - destruct HM as [L _].
    rewrite lookup_seq_ge by exact Hk.
    rewrite (proj2 (lookup_ge_None M k)) by lia. reflexivity.
Qed.

Lemma sum_axis1_rows (n : nat) (M : matrix) :
  length M = n -> sum_axis1 M = map (row_sum M) (seq 0 n).
Proof.
  intros L. unfold sum_axis1. apply list_eq. intros k.
  rewrite !list_lookup_fmap.
  destruct (Nat.lt_ge_cases k n) as [Hk|Hk].
  - destruct (lookup_lt_is_Some_2 M k ltac:(lia)) as [row Hrow].
    rewrite Hrow, lookup_seq_lt by exact Hk. simpl.
    unfold row_sum. now rewrite Hrow.
  - rewrite lookup_seq_ge by exact Hk.
    rewrite (proj2 (lookup_ge_None M k)) by lia. reflexivity.
Qed.

Lemma foldl_add_columns (n : nat) (rows : matrix) :
  Forall (fun row => length row = n) rows ->
  forall acc, length acc = n ->
    foldl (zip_with Z.add) acc rows
    = map (fun j => default 0 (acc !! j) + col_sum rows j) (seq 0 n).
Proof.
  induction 1 as [|row rows Hrow _ IH]; intros acc Hacc; simpl.
  - apply list_eq. intros k. rewrite list_lookup_fmap.
    destruct (Nat.lt_ge_cases k n) as [Hk|Hk].
    + rewrite lookup_seq_lt by exact Hk. simpl.
      destruct (lookup_lt_is_Some_2 acc k ltac:(lia)) as [x Hx].
      rewrite Hx. simpl. unfold col_sum. simpl. f_equal. lia.
    + rewrite lookup_seq_ge by exact Hk.
      rewrite (proj2 (lookup_ge_None acc k)) by lia. reflexivity.
  - rewrite IH by (rewrite length_zip_with; lia).
    apply list_fmap_ext. intros k j Hj%lookup_seq. destruct Hj as [-> Hj].
    simpl in Hj |- *. rewrite lookup_zip_with.
    destruct (lookup_lt_is_Some_2 acc k ltac:(lia)) as [x Hx].
    destruct (lookup_lt_is_Some_2 row k ltac:(lia)) as [y Hy].
    rewrite Hx, Hy. simpl. unfold col_sum. simpl. rewrite Hy. simpl. lia.
Qed.

Lemma sum_axis0_columns (n : nat) (M : matrix) :
  square n M -> sum_axis0 M = map (col_sum M) (seq 0 n).
Proof.
  intros [L H]. destruct M as [|row rows]; simpl in *.
  - subst n. reflexivity.
  - inversion H as [|? ? Hrow Hrows]; subst.
    rewrite (foldl_add_columns (S (length rows)) rows Hrows row Hrow).
    apply list_fmap_ext. intros k j Hj%lookup_seq. destruct Hj as [-> Hj].
    simpl in Hj |- *. unfold col_sum. simpl. reflexivity.
Qed.

Lemma foldr_add_nonneg (l : list Z) :
  Forall (fun c => 0 <= c) l -> 0 <= foldr Z.add 0 l.
Proof. induction 1; simpl; lia. Qed.

Lemma lookup_le_sum (l : list Z) (i : nat) (x : Z) :
  Forall (fun c => 0 <= c) l -> l !! i = Some x -> 0 <= x <= foldr Z.add 0 l.
Proof.
  intros H; revert i. induction H as [|y l Hy Hl IH]; intros [|i] Hx;
    simpl in *; try discriminate.
  - injection Hx as ->. pose proof (foldr_add_nonneg l Hl). lia.
  - specialize (IH i Hx). lia.
Qed.

Lemma entry_bounds (n : nat) (M : matrix) (i j : nat) :
  square n M -> nonneg M -> (i < n)%nat -> (j < n)%nat ->
  0 <= entry M i j <= row_sum M i /\ entry M i j <= col_sum M j.
Proof.
  intros HM HN Hi Hj.
  destruct (square_entry n M i j HM Hi Hj) as (row & Hrow & Hx).
  pose proof (proj1 (Forall_lookup _ _) HN _ _ Hrow) as Hnn. cbv beta in Hnn.
  split.
  - unfold row_sum. rewrite Hrow. simpl. now apply (lookup_le_sum row j).
  - unfold col_sum.
    apply (lookup_le_sum (map (fun row => default 0 (row !! j)) M) i).
    + apply Forall_fmap. apply Forall_lookup. intros k r Hr. simpl.
      pose proof (proj1 (Forall_lookup _ _) HN _ _ Hr) as Hr'. cbv beta in Hr'.
      destruct (r !! j) as [y|] eqn:Ey; simpl; [|lia].
      exact (proj1 (Forall_lookup _ _) Hr' _ _ Ey).
    + change (map ?f M) with (f <$> M).
      rewrite list_lookup_fmap, Hrow. simpl. now rewrite Hx.
Qed.

Lemma ratio_bounds (a b : Z) :
  0 <= a <= b -> 0 < b -> (0 <= inject_Z a / inject_Z b <= 1)%Q.
Proof.
  intros Hab Hb.
  assert (0 < inject_Z b)%Q as Hb' by (change 0%Q with (inject_Z 0); now rewrite <- Zlt_Qlt).
  split.
  - apply Qle_shift_div_l; [exact Hb'|]. rewrite Qmult_0_l.
    change 0%Q with (inject_Z 0). rewrite <- Zle_Qle. lia.
  - apply Qle_shift_div_r; [exact Hb'|]. rewrite Qmult_1_l.
    rewrite <- Zle_Qle. lia.
Qed.

Lemma round_to_bits_exact (p z : Z) :
  0 < p -> 0 <= z < 2 ^ p -> round_to_bits p z = z.
Proof.
  intros Hp Hz. unfold round_to_bits.
  destruct (Z.leb_spec (Z.log2 (Z.abs z) + 1 - p) 0) as [_|Hs]; [reflexivity|].
  exfalso. rewrite Z.abs_eq in Hs by lia.
  destruct (Z.eq_dec z 0) as [->|Hnz].
  - simpl in Hs. lia.
  - assert (Z.log2 z < p) by (apply Z.log2_lt_pow2; lia). lia.
Qed.

Lemma float32_exact (z : Z) : 0 <= z <= 16777216 -> float32 z = z.
Proof.
  intros Hz. destruct (Z.eq_dec z 16777216) as [->|Hne]; [reflexivity|].
  apply round_to_bits_exact; [lia|]. change (2 ^ 24) with 16777216. lia.
Qed.

Lemma float64_exact (z : Z) : 0 <= z <= 16777216 -> float64 z = z.
Proof.
  intros Hz. apply round_to_bits_exact; [lia|].
  change (2 ^ 53) with 9007199254740992. lia.
Qed.

Lemma lookup_map_seq {A} (f : nat -> A) (n i : nat) :
  (i < n)%nat -> map f (seq 0 n) !! i = Some (f i).
Proof.
  intros Hi. change (map f (seq 0 n)) with (f <$> seq 0 n).
  rewrite list_lookup_fmap, lookup_seq_lt by exact Hi. reflexivity.
Qed.

Lemma get_iou_lookup (n : nat) (M : matrix) (i : nat) :
  square n M -> (i < n)%nat ->
  get_iou M !! i
  = Some (inject_Z (float64 (entry M i i))
          / inject_Z (float32
               (let union := (row_sum M i + col_sum M i - entry M i i)%Z in
                if (union =? 0)%Z then 1%Z else union)))%Q.
Proof.
  intros HM Hi. unfold get_iou.
  rewrite (np_diag_square n M HM), (sum_axis1_rows n M (proj1 HM)),
    (sum_axis0_columns n M HM).
  rewrite lookup_zip_with, lookup_map_seq by exact Hi. simpl.
  change (map ?f ?l) with (f <$> l).
  rewrite !list_lookup_fmap, !lookup_zip_with.
  change (?f <$> seq 0 n) with (map f (seq 0 n)).
  rewrite !lookup_map_seq by exact Hi.
  reflexivity.
Qed.

Lemma get_iou_length (n : nat) (M : matrix) :
  square n M -> length (get_iou M) = n.
Proof.
  intros HM. unfold get_iou.
  rewrite (np_diag_square n M HM), (sum_axis1_rows n M (proj1 HM)),
    (sum_axis0_columns n M HM).
  rewrite !length_zip_with, !length_map, !length_zip_with, !length_map, !length_seq.
  lia.
Qed.

Lemma get_precision_recall_lookup (n : nat) (M : matrix) (i : nat) :
  square n M -> (i < n)%nat ->
  (get_precision_recall M).1 !! i
  = Some (inject_Z (float64 (entry M i i))
          / inject_Z (float32 (Z.max (float64 (col_sum M i)) 1)))%Q
  /\ (get_precision_recall M).2 !! i
     = Some (inject_Z (float64 (entry M i i))
             / inject_Z (float32 (Z.max (float64 (row_sum M i)) 1)))%Q.
Proof.
  intros HM Hi. unfold get_precision_recall. simpl.
  rewrite (np_diag_square n M HM), (sum_axis1_rows n M (proj1 HM)),
    (sum_axis0_columns n M HM).
  rewrite !lookup_zip_with, !lookup_map_seq by exact Hi. simpl.
  change (map ?f ?l) with (f <$> l).
  rewrite !list_lookup_fmap, !lookup_seq_lt by exact Hi. simpl.
  split; reflexivity.
Qed.

Lemma get_precision_recall_length (n : nat) (M : matrix) :
  square n M ->
  length (get_precision_recall M).1 = n /\ length (get_precision_recall M).2 = n.
Proof.
  intros HM. unfold get_precision_recall. simpl.
  rewrite (np_diag_square n M HM), (sum_axis1_rows n M (proj1 HM)),
    (sum_axis0_columns n M HM).
  rewrite !length_zip_with, !length_map, !length_seq. lia.
Qed.

End Metrics.

(** C2, as the code has it.  For a confusion matrix [M] (square, counts
    not negative) and a class [i] whose union does not exceed 2^24 - the
    range in which the float32 cast of the divisor is exact -
    [get_iou M] has one value per class; the value of class [i] is
    diagonal / (row sum + column sum - diagonal) with a zero union
    replaced by 1, so the divisor is never zero; the value lies in
    [0, 1]; it is 0 for a class with no ground truth and no prediction;
    and [get_iou [[5,1],[2,3]]] is [0.625, 0.5]. *)
Theorem get_iou_spec (n : nat) (M : matrix) (i : nat) :
  square n M -> nonneg M -> (i < n)%nat ->
  row_sum M i + col_sum M i - entry M i i <= 16777216 ->
  let intersection := entry M i i in
  let union := row_sum M i + col_sum M i - intersection in
  let divisor := if union =? 0 then 1 else union in
  length (get_iou M) = n
  /\ divisor <> 0
  /\ get_iou M !! i = Some (inject_Z intersection / inject_Z divisor)%Q
  /\ (0 <= inject_Z intersection / inject_Z divisor <= 1)%Q
  /\ (row_sum M i = 0 -> col_sum M i = 0 ->
      (inject_Z intersection / inject_Z divisor == 0)%Q)
  /\ Forall2 Qeq (get_iou [[5; 1]; [2; 3]]) [0.625; 0.5]%Q.
Proof.
  intros HM HN Hi Hsmall intersection union divisor.
  destruct (entry_bounds n M i i HM HN Hi Hi) as [Hrow Hcol].
  fold intersection in Hrow, Hcol, Hsmall. fold union in Hsmall.
  assert (0 < divisor <= 16777216 /\ intersection <= divisor) as [Hpos Hle].
  { unfold divisor. destruct (Z.eqb_spec union 0); unfold union in *; lia. }
  split; [now apply get_iou_length|].
  split; [lia|].
  split.
  { rewrite (get_iou_lookup n M i HM Hi). cbv zeta.
    fold intersection union divisor.
    rewrite float64_exact, float32_exact by lia. reflexivity. }
  split; [apply ratio_bounds; lia|].
  split.
  - intros Hr Hc. assert (intersection = 0) as -> by lia. reflexivity.
  - repeat constructor.
Qed.

Lemma get_iou_spec_witness :
  get_iou [[5; 1]; [2; 3]] !! 1%nat = Some (inject_Z 3 / inject_Z 6)%Q
  /\ (0 <= inject_Z 3 / inject_Z 6 <= 1)%Q.
Proof.
  assert (Hsq : square 2 [[5; 1]; [2; 3]]) by (split; [reflexivity | repeat constructor]).
  assert (Hnn : nonneg [[5; 1]; [2; 3]]) by (repeat constructor; lia).
  destruct (get_iou_spec 2 [[5; 1]; [2; 3]] 1 Hsq Hnn ltac:(lia) ltac:(vm_compute; discriminate))
    as (_ & _ & H1 & H2 & _).
  split; [exact H1 | exact H2].
Defined.

(** A one-class matrix with 2^24 + 1 correctly predicted pixels: the
    float32 cast rounds the union down to 2^24 and the returned value
    exceeds 1. *)
Lemma get_iou_above_one :
  square 1 [[16777217]] /\ nonneg [[16777217]]
  /\ get_iou [[16777217]] = [inject_Z 16777217 / inject_Z 16777216]%Q
  /\ ~ (inject_Z 16777217 / inject_Z 16777216 <= 1)%Q.
Proof.
  split; [split; [reflexivity | repeat constructor]|].
  split; [repeat constructor; lia|].
  split; [reflexivity|].
  unfold Qle. simpl. lia.
Qed.

(** C3, as the code has it.  For a confusion matrix [M] and a class [i]
    whose row and column sums do not exceed 2^24 (where the float32 cast
    of the divisors is exact), [get_precision_recall M] gives precision =
    diagonal / max(column sum, 1) and recall = diagonal / max(row sum, 1);
    both lie in [0, 1]; a class with no predicted and no ground-truth
    pixel has precision and recall 0; and on [[5,1],[2,3]] precision is
    [5/7, 3/4] and recall is [5/6, 3/5]. *)
Theorem get_precision_recall_spec (n : nat) (M : matrix) (i : nat) :
  square n M -> nonneg M -> (i < n)%nat ->
  row_sum M i <= 16777216 -> col_sum M i <= 16777216 ->
  let intersection := entry M i i in
  let precision := (inject_Z intersection / inject_Z (Z.max (col_sum M i) 1))%Q in
  let recall := (inject_Z intersection / inject_Z (Z.max (row_sum M i) 1))%Q in
  length (get_precision_recall M).1 = n
  /\ length (get_precision_recall M).2 = n
  /\ (get_precision_recall M).1 !! i = Some precision
  /\ (get_precision_recall M).2 !! i = Some recall
  /\ (0 <= precision <= 1)%Q
  /\ (0 <= recall <= 1)%Q
  /\ (row_sum M i = 0 -> col_sum M i = 0 -> (precision == 0)%Q /\ (recall == 0)%Q)
  /\ get_precision_recall [[5; 1]; [2; 3]] = ([5 # 7; 3 # 4], [5 # 6; 3 # 5])%Q.
Proof.
  intros HM HN Hi Hr Hc intersection precision recall.
  destruct (entry_bounds n M i i HM HN Hi Hi) as [Hrow Hcol].
  fold intersection in Hrow, Hcol.
  destruct (get_precision_recall_length n M HM) as [L1 L2].
  destruct (get_precision_recall_lookup n M i HM Hi) as [P1 P2].
  fold intersection in P1, P2.
  rewrite (float64_exact intersection), (float64_exact (col_sum M i)),
    float32_exact in P1 by lia.
  rewrite (float64_exact intersection), (float64_exact (row_sum M i)),
    float32_exact in P2 by lia.
  repeat split; try assumption.
  - apply ratio_bounds; lia.
  - apply ratio_bounds; lia.
  - apply ratio_bounds; lia.
  - apply ratio_bounds; lia.
  - unfold precision. assert (intersection = 0) as -> by lia. reflexivity.
  - unfold recall. assert (intersection = 0) as -> by lia. reflexivity.
Qed.

Lemma get_precision_recall_spec_witness :
  (get_precision_recall [[5; 1]; [2; 3]]).1 !! 0%nat
  = Some (inject_Z 5 / inject_Z (Z.max 7 1))%Q.
Proof.
  assert (Hsq : square 2 [[5; 1]; [2; 3]]) by (split; [reflexivity | repeat constructor]).
  assert (Hnn : nonneg [[5; 1]; [2; 3]]) by (repeat constructor; lia).
  destruct (get_precision_recall_spec 2 [[5; 1]; [2; 3]] 0 Hsq Hnn ltac:(lia)
              ltac:(vm_compute; discriminate) ltac:(vm_compute; discriminate))
    as (_ & _ & H1 & _).
  exact H1.
Defined.

(** One class, 2^24 + 1 correctly predicted pixels: both divisors are
    rounded down to 2^24 and precision and recall exceed 1. *)
Lemma get_precision_recall_above_one :
  square 1 [[16777217]] /\ nonneg [[16777217]]
  /\ get_precision_recall [[16777217]]
     = ([inject_Z 16777217 / inject_Z 16777216], [inject_Z 16777217 / inject_Z 16777216])%Q
  /\ ~ (inject_Z 16777217 / inject_Z 16777216 <= 1)%Q.
Proof.
  split; [split; [reflexivity | repeat constructor]|].
  split; [repeat constructor; lia|].
  split; [reflexivity|].
  unfold Qle. simpl. lia.
Qed.

(** ** Macro averages *)

Section MacroAverage.

Lemma filter_enumerate_from (P : nat -> Prop) `{!forall i, Decision (P i)}
    (l : list Q) (s : nat) :
  map snd (filter (fun p => P p.1) (zip (seq s (length l)) l))
  = map (fun i => default 0%Q (l !! (i - s)%nat)) (filter P (seq s (length l))).
Proof.
  revert s. induction l as [|x l IH]; intros s; [reflexivity|].
  cbn [length seq zip zip_with]. rewrite !filter_cons. cbn [fst].
  assert (map (fun i => default 0%Q ((x :: l) !! (i - s)%nat)) (filter P (seq (S s) (length l)))
          = map (fun i => default 0%Q (l !! (i - S s)%nat)) (filter P (seq (S s) (length l))))
    as Htail.
  { apply list_fmap_ext. intros k i Hi.
    assert (i ∈ filter P (seq (S s) (length l))) as Hin
      by (apply list_elem_of_lookup; eauto).
    apply list_elem_of_filter in Hin as [_ Hin]. apply elem_of_seq in Hin.
    replace (i - s)%nat with (S (i - S s)) by lia. reflexivity. }
  destruct (decide (P s)); cbn [map snd].
  - rewrite Nat.sub_diag. cbn. f_equal. rewrite Htail. apply IH.
  - rewrite Htail. apply IH.
Qed.

Lemma np_mean_filtered (l : list Q) (exclude : list nat) :
  np_mean (map snd (filter (fun p => p.1 ∉ exclude) (enumerate l)))
  = macro_average l exclude.
Proof.
  unfold enumerate, macro_average.
  pose proof (filter_enumerate_from (fun i => i ∉ exclude) l 0) as Hfilter.
  cbv beta in Hfilter. rewrite Hfilter. clear Hfilter.
  destruct (filter (fun i => i ∉ exclude) (seq 0 (length l))) as [|k kept];
    [reflexivity|].
  unfold np_mean. cbn [map]. rewrite !length_cons, !length_map.
  rewrite !Nat.sub_0_r.
  replace (map (fun i => default 0%Q (l !! (i - 0)%nat)) kept)
    with (map (fun i => default 0%Q (l !! i)) kept); [reflexivity|].
  apply list_fmap_ext. intros ? i _. now rewrite Nat.sub_0_r.
Qed.

Lemma np_mean_all (l : list Q) : np_mean l = macro_average l [].
Proof.
  unfold macro_average.
  assert (filter (fun i => i ∉ []) (seq 0 (length l)) = seq 0 (length l)) as ->.
  { induction (seq 0 (length l)) as [|i rest IH]; [reflexivity|].
    rewrite filter_cons_True by apply not_elem_of_nil. now rewrite IH. }
  assert (map (fun i => default 0%Q (l !! i)) (seq 0 (length l)) = l) as Hl.
  { apply list_eq. intros k. change (map ?f ?x) with (f <$> x).
    rewrite list_lookup_fmap.
    destruct (l !! k) as [x|] eqn:E.
    - rewrite lookup_seq_lt by (eapply lookup_lt_Some; eauto). simpl. now rewrite E.
    - rewrite lookup_seq_ge by (now apply lookup_ge_None). reflexivity. }
  destruct l as [|x l]; [reflexivity|].
  rewrite Hl, length_seq. reflexivity.
Qed.

End MacroAverage.

Lemma current_confusion_matrices_inv
    (objpart_logits semantic_logits : tensor Q) (objpart_anno semantic_anno : tensor Z)
    (objpart_labels semantic_labels : list Z) (semantic objpart : matrix) :
  current_confusion_matrices (objpart_logits, objpart_anno)
    (semantic_logits, semantic_anno) (objpart_labels, semantic_labels)
  = Ok (semantic, objpart) ->
  exists sp sg op og,
    numpyify_logits_and_annotations semantic_logits semantic_anno true = Ok (sp, sg)
    /\ outputs_tonp_gt objpart_logits objpart_anno true = Ok (op, og)
    /\ confusion_matrix (storage sg) (storage sp) semantic_labels = Ok semantic
    /\ confusion_matrix (objpart_ground_truth og) (storage op) objpart_labels
       = Ok objpart.
Proof.
  unfold current_confusion_matrices. intros H.
  apply bind_ok in H as ([sp sg] & Hsem & H).
  apply bind_ok in H as ([op og] & Hobj & H).
  apply bind_ok in H as (sem & Hcs & H).
  apply bind_ok in H as (obj & Hco & H).
  injection H as <- <-. exists sp, sg, op, og. auto.
Qed.

Lemma current_confusion_matrices_square
    (objpart_dat semantic_dat : tensor Q * tensor Z) (labels : list Z * list Z)
    (semantic objpart : matrix) :
  current_confusion_matrices objpart_dat semantic_dat labels = Ok (semantic, objpart) ->
  (square (length labels.2) semantic /\ nonneg semantic)
  /\ (square (length labels.1) objpart /\ nonneg objpart).
Proof.
  destruct objpart_dat as [ol oa], semantic_dat as [sl sa], labels as [olabels slabels].
  intros (sp & sg & op & og & _ & _ & Hs & Ho)%current_confusion_matrices_inv.
  split; eapply confusion_matrix_square; eassumption.
Qed.

(** C9.  With running matrices that are absent or have one row and one
    column per label, [validate_batch] succeeds whenever the batch's
    confusion matrices are computed, and returns as object-part macro
    precision and recall the arithmetic means of the per-class values
    over the class indices outside
    [0, 4, 9, 11, 18, 20, 24, 29, 31, 38, 40], and as semantic mIoU the
    mean over all classes; when the batch's matrices are not computed it
    raises what that computation raised. *)
Theorem validate_batch_macro_averages
    (objpart_dat semantic_dat : tensor Q * tensor Z)
    (overall_part overall_semantic : option matrix) (labels : list Z * list Z) :
  (forall m, overall_part = Some m -> square (length labels.1) m) ->
  (forall m, overall_semantic = Some m -> square (length labels.2) m) ->
  match current_confusion_matrices objpart_dat semantic_dat labels with
  | Ok (semantic, objpart) =>
      exists r,
        validate_batch objpart_dat semantic_dat overall_part overall_semantic labels
        = Ok r
        /\ objpart_mPrec r
           = macro_average (get_precision_recall objpart).1
               [0; 4; 9; 11; 18; 20; 24; 29; 31; 38; 40]%nat
        /\ objpart_mRec r
           = macro_average (get_precision_recall objpart).2
               [0; 4; 9; 11; 18; 20; 24; 29; 31; 38; 40]%nat
        /\ semantic_mIoU r = macro_average (get_iou semantic) []
  | Raise e =>
      validate_batch objpart_dat semantic_dat overall_part overall_semantic labels
      = Raise e
  end.
Proof.
  intros Hpart Hsem. unfold validate_batch.
  destruct (current_confusion_matrices objpart_dat semantic_dat labels)
    as [[semantic objpart]|e] eqn:Hcur; [|reflexivity].
  apply current_confusion_matrices_square in Hcur as [[Hs _] [Ho _]].
  cbn [mbind result_bind].
  destruct (accumulate_square _ overall_semantic semantic Hsem Hs) as (ts & -> & _ & _).
  destruct (accumulate_square _ overall_part objpart Hpart Ho) as (tp & -> & _ & _).
  cbn [mbind result_bind].
  destruct (get_precision_recall objpart) as [prec rec] eqn:Hpr.
  eexists. split; [reflexivity|]. cbn [objpart_mPrec objpart_mRec semantic_mIoU fst snd].
  split; [apply np_mean_filtered|].
  split; [apply np_mean_filtered|].
  apply np_mean_all.
Qed.

Lemma validate_batch_macro_averages_witness :
  exists r,
    validate_batch
      (Tensor (map inject_Z (seqZ 0 82)) [1; 41; 1; 2]%nat [82; 2; 2; 1]%nat,
       Tensor [23; 0] [1; 1; 2]%nat [2; 2; 1]%nat)
      (Tensor (map inject_Z [5; 1; 2; 7]) [1; 2; 1; 2]%nat [4; 2; 2; 1]%nat,
       Tensor [0; 1] [1; 1; 2]%nat [2; 2; 1]%nat)
      (Some [[1; 0; 0]; [0; 2; 0]; [0; 0; 3]]) None ([0; 3; 23], [0; 1])
    = Ok r
    /\ objpart_mPrec r = Some (1 # 2)%Q
    /\ objpart_mRec r = Some (1 # 2)%Q
    /\ semantic_mIoU r = Some (2 # 2)%Q
    /\ overall_part_confusion_matrix r = [[1; 0; 0]; [0; 2; 0]; [0; 0; 4]].
Proof.
  assert (Hpart : forall m, Some [[1; 0; 0]; [0; 2; 0]; [0; 0; 3]] = Some m ->
                            square (length ([0; 3; 23], [0; 1]).1) m).
  { intros m [= <-]. split; [reflexivity | repeat constructor]. }
  assert (Hsem : forall m : matrix, None = Some m ->
                                    square (length ([0; 3; 23], [0; 1]).2) m)
    by (intros m [=]).
  pose proof (validate_batch_macro_averages
                (Tensor (map inject_Z (seqZ 0 82)) [1; 41; 1; 2]%nat [82; 2; 2; 1]%nat,
                 Tensor [23; 0] [1; 1; 2]%nat [2; 2; 1]%nat)
                (Tensor (map inject_Z [5; 1; 2; 7]) [1; 2; 1; 2]%nat [4; 2; 2; 1]%nat,
                 Tensor [0; 1] [1; 1; 2]%nat [2; 2; 1]%nat)
                (Some [[1; 0; 0]; [0; 2; 0]; [0; 0; 3]]) None ([0; 3; 23], [0; 1])
                Hpart Hsem) as H.
  destruct (current_confusion_matrices _ _ _) as [[semantic objpart]|e] eqn:Hcur
    in H; [|discriminate Hcur].
  destruct H as (r & Hr & _). exists r. split; [exact Hr|].
  vm_compute in Hr. injection Hr as <-. repeat split.
Defined.

(** ** Row-major enumeration of an index space *)

Section Indexing.
Local Open Scope nat_scope.

Lemma flat_map_seq_blocks (P s n : nat) :
  flat_map (fun i => seq (i * P) P) (seq s n) = seq (s * P) (n * P).
Proof.
  revert s. induction n as [|n IH]; intros s; [reflexivity|].
  cbn [seq flat_map]. rewrite IH.
  replace (S n * P) with (P + n * P) by lia.
  rewrite seq_app. do 2 f_equal. lia.
Qed.

Lemma flat_map_map {X Y Z'} (g : Y -> Z') (f : X -> list Y) (l : list X) :
  map g (flat_map f l) = flat_map (fun x => map g (f x)) l.
Proof.
  induction l as [|x l IH]; [reflexivity|].
  cbn [flat_map]. rewrite map_app, IH. reflexivity.
Qed.

Lemma flat_map_ext_in {X Y} (f g : X -> list Y) (l : list X) :
  (forall x, x ∈ l -> f x = g x) -> flat_map f l = flat_map g l.
Proof.
  induction l as [|x l IH]; intros H; [reflexivity|].
  cbn [flat_map]. rewrite (H x) by apply list_elem_of_here.
  rewrite IH; [reflexivity|]. intros y Hy. apply H. now apply list_elem_of_further.
Qed.

(** Row-major offsets enumerate [0, numel). *)
Lemma all_indices_offsets (sz : list nat) :
  map (fun idx => flat_offset idx (contiguous_strides sz)) (all_indices sz)
  = seq 0 (prod_list sz).
Proof.
  induction sz as [|n rest IH]; [reflexivity|].
  cbn [all_indices contiguous_strides]. rewrite flat_map_map.
  rewrite (flat_map_ext_in _ (fun i => seq (i * prod_list rest) (prod_list rest))).
  - rewrite flat_map_seq_blocks. reflexivity.
  - intros i _. rewrite map_map. unfold flat_offset in *. cbn [zip_with sum_list sum_list_with].
    rewrite <- (map_map (fun idx => sum_list (zip_with Nat.mul idx (contiguous_strides rest)))
                        (fun k => i * prod_list rest + k)).
    rewrite IH.
    change (map ?f ?l) with (f <$> l).
    rewrite (fmap_add_seq (i * prod_list rest) 0). f_equal. lia.
Qed.

Lemma length_all_indices (sz : list nat) :
  length (all_indices sz) = prod_list sz.
Proof.
  rewrite <- (length_map (fun idx => flat_offset idx (contiguous_strides sz))).
  rewrite all_indices_offsets. apply length_seq.
Qed.

Lemma elem_of_all_indices (sz idx : list nat) :
  idx ∈ all_indices sz <-> in_bounds idx sz = true.
Proof.
  revert idx. induction sz as [|n rest IH]; intros idx.
  - cbn [all_indices]. rewrite list_elem_of_singleton.
    destruct idx; simpl; split; congruence.
  - cbn [all_indices]. rewrite list_elem_of_In, in_flat_map. split.
    + intros (i & Hi & Hidx). apply in_seq in Hi.
      apply in_map_iff in Hidx as (idx' & <- & Hidx').
      apply list_elem_of_In, IH in Hidx'. simpl. rewrite Hidx'.
      rewrite andb_true_r. apply Nat.ltb_lt. lia.
    + destruct idx as [|i idx']; simpl; [discriminate|].
      intros [Hi Hidx']%andb_true_iff. apply Nat.ltb_lt in Hi.
      exists i. split; [apply in_seq; lia|].
      apply in_map, list_elem_of_In, IH, Hidx'.
Qed.

Lemma all_indices_lookup_offset (sz idx : list nat) (k : nat) :
  all_indices sz !! k = Some idx ->
  flat_offset idx (contiguous_strides sz) = k /\ in_bounds idx sz = true.
Proof.
  intros Hk. split.
  - pose proof (all_indices_offsets sz) as H.
    apply (f_equal (fun l => l !! k)) in H.
    change (map ?f ?l) with (f <$> l) in H.
    rewrite list_lookup_fmap, Hk in H. simpl in H. symmetry in H.
    apply lookup_seq in H as [-> _]. reflexivity.
  - apply elem_of_all_indices, list_elem_of_lookup. eauto.
Qed.

Lemma all_indices_lookup (sz idx : list nat) :
  in_bounds idx sz = true ->
  all_indices sz !! flat_offset idx (contiguous_strides sz) = Some idx.
Proof.
  intros H. apply elem_of_all_indices, list_elem_of_lookup in H as [k Hk].
  destruct (all_indices_lookup_offset sz idx k Hk) as [-> _]. exact Hk.
Qed.

Lemma flat_offset_lt (sz idx : list nat) :
  in_bounds idx sz = true ->
  flat_offset idx (contiguous_strides sz) < prod_list sz.
Proof.
  intros H. rewrite <- length_all_indices.
  eapply lookup_lt_Some, all_indices_lookup, H.
Qed.

Lemma flat_offset_inj (sz idx idx' : list nat) :
  in_bounds idx sz = true -> in_bounds idx' sz = true ->
  flat_offset idx (contiguous_strides sz) = flat_offset idx' (contiguous_strides sz) ->
  idx = idx'.
Proof.
  intros H H' E. apply all_indices_lookup in H, H'. rewrite E in H. congruence.
Qed.

Lemma pixel_offset (B H W b i j : nat) :
  flat_offset [b; i; j] (contiguous_strides [B; H; W]) = pixel H W b i j.
Proof. unfold flat_offset, pixel. simpl. lia. Qed.

Lemma in_bounds3 (B H W b i j : nat) :
  b < B -> i < H -> j < W -> in_bounds [b; i; j] [B; H; W] = true.
Proof.
  intros Hb Hi Hj. simpl.
  rewrite !(proj2 (Nat.ltb_lt _ _)) by assumption. reflexivity.
Qed.

Lemma pixel_lt (B H W b i j : nat) :
  b < B -> i < H -> j < W -> pixel H W b i j < B * H * W.
Proof.
  intros Hb Hi Hj. rewrite <- pixel_offset with (B := B).
  pose proof (flat_offset_lt [B; H; W] [b; i; j] (in_bounds3 B H W b i j Hb Hi Hj)) as Hlt.
  simpl in Hlt |- *. lia.
Qed.

End Indexing.

(** ** Well-formed tensors *)

Section Tensors.
Context {A : Type}.
Local Open Scope nat_scope.

Lemma wf_tensor_get (t : tensor A) (idx : list nat) :
  wf_tensor t = true -> in_bounds idx (sizes t) = true ->
  exists x, tget t idx = Ok x
            /\ storage t !! flat_offset idx (strides t) = Some x.
Proof.
  intros [_ Hwf]%andb_true_iff Hin. unfold tget. rewrite Hin.
  rewrite forallb_forall in Hwf.
  specialize (Hwf idx (proj1 (list_elem_of_In _ _) (proj2 (elem_of_all_indices _ _) Hin))).
  apply Nat.ltb_lt in Hwf.
  destruct (lookup_lt_is_Some_2 _ _ Hwf) as [x Hx]. rewrite Hx. eauto.
Qed.

Lemma tget_ok_inv (t : tensor A) (idx : list nat) (x : A) :
  tget t idx = Ok x ->
  in_bounds idx (sizes t) = true
  /\ storage t !! flat_offset idx (strides t) = Some x.
Proof.
  unfold tget. destruct (in_bounds idx (sizes t)); [|discriminate].
  destruct (storage t !! flat_offset idx (strides t)); [|discriminate].
  intros [= ->]. split; reflexivity.
Qed.

Lemma mapM_total {X Y} (f : X -> result Y) (l : list X) :
  (forall x, x ∈ l -> exists y, f x = Ok y) -> exists k, mapM f l = Ok k.
Proof.
  induction l as [|x l IH]; intros H.
  - exists []. reflexivity.
  - destruct (H x (list_elem_of_here _ _)) as [y Hy].
    destruct IH as [k Hk]; [intros z Hz; apply H; now apply list_elem_of_further|].
    exists (y :: k). apply mapM_ok. constructor; [exact Hy | now apply mapM_ok].
Qed.

(** Row-major read-out of a well-formed tensor: position
    [flat_offset idx] of the result holds [t[idx]]. *)
Lemma row_major_wf (t : tensor A) :
  wf_tensor t = true ->
  exists data,
    row_major t = Ok data
    /\ length data = numel t
    /\ forall idx, in_bounds idx (sizes t) = true ->
         exists x, tget t idx = Ok x
                   /\ data !! flat_offset idx (contiguous_strides (sizes t)) = Some x.
Proof.
  intros Hwf. unfold row_major.
  destruct (mapM_total (tget t) (all_indices (sizes t))) as [data Hdata].
  { intros idx Hidx%elem_of_all_indices.
    destruct (wf_tensor_get t idx Hwf Hidx) as (x & Hx & _). eauto. }
  exists data. split; [exact Hdata|].
  apply mapM_ok in Hdata.
  pose proof (Forall2_length _ _ _ Hdata) as Hlen.
  rewrite length_all_indices in Hlen. split; [now symmetry|].
  intros idx Hidx.
  pose proof (all_indices_lookup _ _ Hidx) as Hk.
  destruct (Forall2_lookup_l _ _ _ _ _ Hdata Hk) as (x & Hx & Hget). eauto.
Qed.

(** Reading out a contiguous tensor returns its storage. *)
Lemma row_major_contiguous (t : tensor A) :
  is_contiguous t = true -> row_major t = Ok (storage t).
Proof.
  intros [Hstr Hlen]%andb_true_iff.
  apply bool_decide_eq_true in Hstr. apply Nat.eqb_eq in Hlen.
  apply mapM_ok, Forall2_same_length_lookup. split.
  - rewrite length_all_indices. now symmetry.
  - intros k idx x Hk Hx.
    destruct (all_indices_lookup_offset _ _ _ Hk) as [Hoff Hin].
    unfold tget. rewrite Hin, Hstr, Hoff, Hx. reflexivity.
Qed.

Lemma is_contiguous_wf (t : tensor A) :
  is_contiguous t = true -> wf_tensor t = true.
Proof.
  intros [Hstr Hlen]%andb_true_iff.
  apply bool_decide_eq_true in Hstr. apply Nat.eqb_eq in Hlen.
  unfold wf_tensor. apply andb_true_iff. split.
  - rewrite Hstr. apply Nat.eqb_eq. clear. induction (sizes t); simpl; congruence.
  - apply forallb_forall. intros idx Hidx%list_elem_of_In%elem_of_all_indices.
    apply Nat.ltb_lt. rewrite Hstr, Hlen. now apply flat_offset_lt.
Qed.

End Tensors.

(** ** Alignment of flattened logits and annotations *)

Section Flatten.
Context {A : Type}.
Local Open Scope nat_scope.

Lemma length4_inv {X} (l : list X) :
  length l = 4 -> exists a b c d, l = [a; b; c; d].
Proof.
  destruct l as [|a [|b [|c [|d [|e l]]]]]; simpl; intros H; try discriminate.
  eauto.
Qed.

Lemma permute_0231 (st : list A) (B C H W s0 s1 s2 s3 : nat) :
  permute (Tensor st [B; C; H; W] [s0; s1; s2; s3]) [0; 2; 3; 1]
  = Ok (Tensor st [B; H; W; C] [s0; s2; s3; s1]).
Proof. reflexivity. Qed.

Lemma tget_permuted (st : list A) (B C H W s0 s1 s2 s3 b c i j : nat) :
  tget (Tensor st [B; H; W; C] [s0; s2; s3; s1]) [b; i; j; c]
  = tget (Tensor st [B; C; H; W] [s0; s1; s2; s3]) [b; c; i; j].
Proof.
  unfold tget, flat_offset. cbn [sizes strides storage in_bounds zip_with sum_list sum_list_with].
  unfold id.
  replace (b * s0 + (i * s2 + (j * s3 + (c * s1 + 0))))
    with (b * s0 + (c * s1 + (i * s2 + (j * s3 + 0)))) by lia.
  destruct (b <? B), (i <? H), (j <? W), (c <? C); reflexivity.
Qed.

Lemma in_bounds4_inv (idx : list nat) (n0 n1 n2 n3 : nat) :
  in_bounds idx [n0; n1; n2; n3] = true ->
  exists a b c d, idx = [a; b; c; d] /\ a < n0 /\ b < n1 /\ c < n2 /\ d < n3.
Proof.
  destruct idx as [|a [|b [|c [|d [|e l]]]]]; simpl; intros Hb;
    repeat (apply andb_true_iff in Hb as [?%Nat.ltb_lt Hb]); try discriminate.
  exists a, b, c, d. auto.
Qed.

Lemma in_bounds4 (n0 n1 n2 n3 a b c d : nat) :
  a < n0 -> b < n1 -> c < n2 -> d < n3 ->
  in_bounds [a; b; c; d] [n0; n1; n2; n3] = true.
Proof.
  intros. simpl. rewrite !(proj2 (Nat.ltb_lt _ _)) by assumption. reflexivity.
Qed.

Lemma wf_permuted (st : list A) (B C H W s0 s1 s2 s3 : nat) :
  wf_tensor (Tensor st [B; C; H; W] [s0; s1; s2; s3]) = true ->
  wf_tensor (Tensor st [B; H; W; C] [s0; s2; s3; s1]) = true.
Proof.
  intros Hwf. unfold wf_tensor. cbn [sizes strides storage length].
  rewrite Nat.eqb_refl. cbn [andb]. apply forallb_forall.
  intros idx Hidx%list_elem_of_In%elem_of_all_indices.
  apply in_bounds4_inv in Hidx as (b & i & j & c & -> & Hb & Hi & Hj & Hc).
  destruct (wf_tensor_get _ [b; c; i; j] Hwf (in_bounds4 B C H W b c i j Hb Hc Hi Hj))
    as (x & _ & Hx).
  apply lookup_lt_Some in Hx. apply Nat.ltb_lt.
  unfold flat_offset in *. cbn [strides storage zip_with sum_list sum_list_with] in *.
  unfold id in *. lia.
Qed.

Lemma infer_rows (n C : nat) :
  0 < C -> infer_shape (n * C) [-1; Z.of_nat C]%Z = Ok [n; C].
Proof.
  intros HC. unfold infer_shape.
  assert (filter (fun d : Z => d ≠ (-1)%Z) [(-1)%Z; Z.of_nat C] = [Z.of_nat C]) as ->.
  { rewrite filter_cons_False by (intros Hne; now apply Hne).
    rewrite filter_cons_True by lia. reflexivity. }
  cbn [forallb length Nat.sub map prod_list foldr].
  rewrite (proj2 (Z.leb_le 0 (Z.of_nat C))) by lia. cbn [andb].
  rewrite Nat2Z.id, Nat.mul_1_r.
  rewrite (proj2 (Nat.eqb_neq C 0)) by lia.
  rewrite Nat.Div0.mod_mul, Nat.eqb_refl.
  cbn [Z.eqb]. rewrite Nat.div_mul by lia.
  destruct (Z.eqb_spec (Z.of_nat C) (-1)); [lia|]. reflexivity.
Qed.

Lemma infer_flat (n : nat) : infer_shape n [-1]%Z = Ok [n].
Proof.
  unfold infer_shape.
  assert (filter (fun d : Z => d ≠ (-1)%Z) [(-1)%Z] = []) as ->.
  { rewrite filter_cons_False by (intros Hne; now apply Hne). reflexivity. }
  cbn [forallb length Nat.sub map prod_list foldr Nat.eqb].
  rewrite Nat.mod_1_r, Nat.div_1_r. reflexivity.
Qed.

End Flatten.

(** C7.  [flatten_logits] turns a (B, C, H, W) tensor into a
    (B*H*W, C) array and [flatten_annotations] turns the (B, H, W)
    annotations into a vector of B*H*W labels; row [(b*H + i)*W + j] of
    the former holds the scores of pixel (b, i, j), whose label is element
    [(b*H + i)*W + j] of the latter. *)
Theorem flatten_alignment {A} (logits : tensor A) (annotations : tensor Z)
    (B C H W : nat) :
  sizes logits = [B; C; H; W] -> wf_tensor logits = true -> (0 < C)%nat ->
  sizes annotations = [B; H; W] -> is_contiguous annotations = true ->
  exists fl fa,
    flatten_logits logits (Z.of_nat C) = Ok fl
    /\ flatten_annotations annotations = Ok fa
    /\ sizes fl = [(B * H * W)%nat; C]
    /\ sizes fa = [(B * H * W)%nat]
    /\ forall b i j, (b < B)%nat -> (i < H)%nat -> (j < W)%nat ->
         (exists a, tget annotations [b; i; j] = Ok a
                    /\ tget fa [pixel H W b i j] = Ok a)
         /\ forall c, (c < C)%nat ->
              exists x, tget logits [b; c; i; j] = Ok x
                        /\ tget fl [pixel H W b i j; c] = Ok x.
Proof.
  intros Hsz Hwf HC Hasz Hcont.
  destruct logits as [st sz str]. cbn [sizes] in Hsz. subst sz.
  assert (length str = 4%nat) as Hstr.
  { apply andb_true_iff in Hwf as [Hl _]. now apply Nat.eqb_eq in Hl. }
  apply length4_inv in Hstr as (s0 & s1 & s2 & s3 & ->).
  pose proof (wf_permuted st B C H W s0 s1 s2 s3 Hwf) as Hwfp.
  destruct (row_major_wf _ Hwfp) as (data & Hdata & Hlen & Hget).
  cbn [sizes] in Hget. unfold numel in Hlen. cbn [sizes] in Hlen.
  assert (prod_list [B; H; W; C] = (B * H * W * C)%nat) as Hnum by (simpl; lia).
  assert (flatten_logits (Tensor st [B; C; H; W] [s0; s1; s2; s3]) (Z.of_nat C)
          = Ok (Tensor data [(B * H * W)%nat; C] (contiguous_strides [(B * H * W)%nat; C])))
    as Hfl.
  { unfold flatten_logits. rewrite permute_0231. cbn [mbind result_bind].
    unfold contiguous. rewrite Hdata. cbn [mbind result_bind sizes].
    unfold view, is_contiguous, numel. cbn [sizes strides storage].
    rewrite bool_decide_eq_true_2 by reflexivity.
    rewrite Hlen, Nat.eqb_refl. cbn [andb]. rewrite Hnum.
    rewrite (infer_rows (B * H * W) C HC). reflexivity. }
  destruct annotations as [ast asz astr]. cbn [sizes] in Hasz. subst asz.
  pose proof Hcont as Hcont'.
  apply andb_true_iff in Hcont' as [Hastr Halen].
  apply bool_decide_eq_true in Hastr. apply Nat.eqb_eq in Halen.
  cbn [sizes strides storage] in Hastr, Halen. unfold numel in Halen.
  cbn [sizes] in Halen. subst astr.
  assert (prod_list [B; H; W] = (B * H * W)%nat) as Hanum by (simpl; lia).
  assert (flatten_annotations (Tensor ast [B; H; W] (contiguous_strides [B; H; W]))
          = Ok (Tensor ast [(B * H * W)%nat] (contiguous_strides [(B * H * W)%nat])))
    as Hfa.
  { unfold flatten_annotations, view. rewrite Hcont. unfold numel. cbn [sizes storage].
    rewrite Hanum, infer_flat. reflexivity. }
  eexists _, _. split; [exact Hfl|]. split; [exact Hfa|].
  split; [reflexivity|]. split; [reflexivity|].
  intros b i j Hb Hi Hj.
  pose proof (pixel_lt B H W b i j Hb Hi Hj) as Hpx.
  split.
  - destruct (wf_tensor_get _ [b; i; j] (is_contiguous_wf _ Hcont)
                (in_bounds3 B H W b i j Hb Hi Hj)) as (a & Ha & Hst).
    exists a. split; [exact Ha|].
    cbn [strides storage] in Hst. rewrite pixel_offset in Hst.
    unfold tget. cbn [sizes strides storage in_bounds].
    rewrite (proj2 (Nat.ltb_lt _ _) Hpx). cbn [andb].
    replace (flat_offset [pixel H W b i j] (contiguous_strides [(B * H * W)%nat]))
      with (pixel H W b i j) by (unfold flat_offset; simpl; unfold id; lia).
    rewrite Hst. reflexivity.
  - intros c Hc.
    destruct (Hget [b; i; j; c] (in_bounds4 B H W C b i j c Hb Hi Hj Hc))
      as (x & Hx & Hd).
    rewrite tget_permuted in Hx. exists x. split; [exact Hx|].
    unfold tget. cbn [sizes strides storage in_bounds].
    rewrite (proj2 (Nat.ltb_lt _ _) Hpx), (proj2 (Nat.ltb_lt _ _) Hc). cbn [andb].
    replace (flat_offset [pixel H W b i j; c] (contiguous_strides [(B * H * W)%nat; C]))
      with (flat_offset [b; i; j; c] (contiguous_strides [B; H; W; C]))
      by (unfold flat_offset, pixel; simpl; unfold id; lia).
    rewrite Hd. reflexivity.
Qed.

Lemma flatten_alignment_witness :
  exists fl fa,
    flatten_logits (Tensor [1; 2; 3; 4; 5; 6; 7; 8; 9; 10; 11; 12]
                           [1; 3; 2; 2]%nat [12; 4; 2; 1]%nat) 3 = Ok fl
    /\ flatten_annotations (Tensor [0; 255; 3; 255] [1; 2; 2]%nat [4; 2; 1]%nat) = Ok fa
    /\ tget fa [pixel 2 2 0 1 0] = Ok 3
    /\ tget fl [pixel 2 2 0 1 0; 2%nat] = Ok 11.
Proof.
  destruct (flatten_alignment
              (Tensor [1; 2; 3; 4; 5; 6; 7; 8; 9; 10; 11; 12]
                      [1; 3; 2; 2]%nat [12; 4; 2; 1]%nat)
              (Tensor [0; 255; 3; 255] [1; 2; 2]%nat [4; 2; 1]%nat)
              1 3 2 2 eq_refl eq_refl ltac:(lia) eq_refl eq_refl)
    as (fl & fa & Hfl & Hfa & _ & _ & Hpix).
  exists fl, fa. split; [exact Hfl|]. split; [exact Hfa|].
  destruct (Hpix 0 1 0 ltac:(lia) ltac:(lia) ltac:(lia))%nat as [(a & Ha & Hfa') Hrow].
  destruct (Hrow 2%nat ltac:(lia)) as (x & Hx & Hfl').
  injection Ha as <-. injection Hx as <-.
  split; [exact Hfa' | exact Hfl'].
Defined.

(** ** Index selection *)

Section IndexSelection.
Local Open Scope nat_scope.

Lemma all_indices_vector (n : nat) :
  all_indices [n] = map (fun k => [k]) (seq 0 n).
Proof.
  cbn [all_indices]. generalize 0.
  induction n as [|n IH]; intros s; [reflexivity|].
  cbn [seq flat_map map app]. now rewrite IH.
Qed.

Lemma filter_ext_in {X} (P Q : X -> Prop) `{!forall x, Decision (P x)}
    `{!forall x, Decision (Q x)} (l : list X) :
  (forall x, x ∈ l -> P x <-> Q x) -> filter P l = filter Q l.
Proof.
  induction l as [|x l IH]; intros Hext; [reflexivity|].
  rewrite !filter_cons.
  pose proof (Hext x (list_elem_of_here _ _)) as Hx.
  rewrite IH by (intros y Hy; apply Hext; now apply list_elem_of_further).
  destruct (decide (P x)), (decide (Q x)); tauto.
Qed.

Lemma filter_flagged_from (flags : list bool) (s : nat) :
  map fst (filter (fun p : list nat * bool => p.2 = true)
                  (zip (map (fun k => [k]) (seq s (length flags))) flags))
  = map (fun k => [k])
        (filter (fun k => flags !! (k - s) = Some true) (seq s (length flags))).
Proof.
  revert s. induction flags as [|f flags IH]; intros s; [reflexivity|].
  cbn [length seq map zip zip_with]. rewrite !filter_cons. cbn [snd].
  rewrite Nat.sub_diag. cbn [lookup list_lookup].
  assert (filter (fun k => (f :: flags) !! (k - s) = Some true) (seq (S s) (length flags))
          = filter (fun k => flags !! (k - S s) = Some true) (seq (S s) (length flags)))
    as Htail.
  { apply filter_ext_in. intros k Hk%elem_of_seq.
    replace (k - s) with (S (k - S s)) by lia. reflexivity. }
  rewrite Htail.
  destruct f.
  - rewrite !decide_True by reflexivity. cbn [map fst]. now rewrite IH.
  - rewrite !decide_False by (intros [=]; discriminate). apply IH.
Qed.

Lemma true_indices_vector (flags : list bool) (n : nat) :
  length flags = n ->
  true_indices (Tensor flags [n] [1])
  = Ok (map (fun k => [k]) (filter (fun k => flags !! k = Some true) (seq 0 n))).
Proof.
  intros <-. unfold true_indices.
  rewrite row_major_contiguous.
  2:{ unfold is_contiguous, numel. cbn [sizes strides storage contiguous_strides prod_list foldr].
      rewrite bool_decide_eq_true_2 by reflexivity.
      rewrite Nat.mul_1_r, Nat.eqb_refl. reflexivity. }
  cbn [mbind result_bind sizes storage]. rewrite all_indices_vector.
  rewrite (filter_flagged_from flags 0). do 2 f_equal.
  apply list_filter_iff. intros k. now rewrite Nat.sub_0_r.
Qed.

Lemma tensor1_contiguous {X} (l : list X) : is_contiguous (tensor1 l) = true.
Proof.
  unfold is_contiguous, tensor1, numel.
  cbn [sizes strides storage contiguous_strides prod_list foldr].
  rewrite bool_decide_eq_true_2 by reflexivity.
  rewrite Nat.mul_1_r, Nat.eqb_refl. reflexivity.
Qed.

Lemma concat_singletons (pos : list nat) :
  concat (map (map Z.of_nat) (map (fun k => [k]) pos)) = map Z.of_nat pos.
Proof. induction pos as [|k pos IH]; [reflexivity|]. cbn. now rewrite IH. Qed.

(** The selector on a vector of labels: the kept positions as a
    LongTensor, or the empty float tensor when nothing is kept. *)
Lemma get_valid_annotations_index_vector (labels : list Z) (mask_out_value : Z) :
  get_valid_annotations_index (tensor1 labels) mask_out_value
  = Ok match valid_positions labels mask_out_value with
       | [] => empty_float_tensor
       | pos => LongTensor (Tensor (map Z.of_nat pos) [length pos] [1])
       end.
Proof.
  unfold get_valid_annotations_index, nonzero, tmap, tensor1.
  cbn [sizes strides storage].
  rewrite true_indices_vector by apply length_map.
  cbn [mbind result_bind length].
  assert (filter (fun k => map (fun a => negb (a =? mask_out_value)%Z) labels !! k = Some true)
                 (seq 0 (length labels))
          = valid_positions labels mask_out_value) as ->.
  { unfold valid_positions. apply filter_ext_in. intros k Hk%elem_of_seq.
    change (map ?f ?l) with (f <$> l). rewrite list_lookup_fmap.
    destruct (lookup_lt_is_Some_2 labels k ltac:(lia)) as [a Ha]. rewrite Ha. simpl.
    destruct (Z.eqb_spec a mask_out_value) as [->|Hne]; simpl; split; congruence. }
  rewrite concat_singletons, length_map. unfold len. cbn [sizes hd].
  destruct (valid_positions labels mask_out_value) as [|k pos]; reflexivity.
Qed.

(** When every label is the ignore value, the index handed to
    [index_select] is a float tensor and the gather raises. *)
Lemma get_valid_annos_all_masked (labels : list Z) (mask_out_value : Z) :
  valid_positions labels mask_out_value = [] ->
  get_valid_annos (tensor1 labels) mask_out_value = Raise TypeError.
Proof.
  intros Hpos. unfold get_valid_annos, flatten_annotations, view.
  rewrite tensor1_contiguous. unfold numel. cbn [sizes tensor1 prod_list foldr storage].
  rewrite Nat.mul_1_r, infer_flat. cbn [mbind result_bind contiguous_strides prod_list foldr].
  change (Tensor labels [length labels] [1]) with (tensor1 labels).
  rewrite get_valid_annotations_index_vector, Hpos. reflexivity.
Qed.

End IndexSelection.

(** C6 (fails in the code).  On the annotations [0, 255, 3, 255] the
    selector returns the positions [0, 2] and the gather returns the
    labels [0, 3]; on annotations that are all 255 the selector returns an
    empty tensor without raising, but that tensor is a float tensor and
    the gathers of [get_valid_annos] and [get_valid_logits] raise a type
    error instead of producing empty results. *)
Theorem index_selector_empty_gather_raises :
  get_valid_annos (tensor1 [0; 255; 3; 255]) 255
  = Ok (tensor1 [0; 3], LongTensor (tensor1 [0; 2]))
  /\ get_valid_annotations_index (tensor1 [255; 255; 255; 255]) 255
     = Ok empty_float_tensor
  /\ get_valid_annos (Tensor [255; 255; 255; 255] [1; 2; 2]%nat [4; 2; 1]%nat) 255
     = Raise TypeError
  /\ get_valid_logits
       (Tensor (map inject_Z [1; 2; 3; 4; 5; 6; 7; 8]) [1; 2; 2; 2]%nat [8; 4; 2; 1]%nat)
       empty_float_tensor 2
     = Raise TypeError.
Proof. repeat split; reflexivity. Qed.

(** ** The prediction loop of [outputs_tonp_gt] *)

Section PredictionLoop.
Local Open Scope nat_scope.

Variable body : list nat -> result Z.
Variable value : list nat -> Z.
Variable sz : list nat.

Let off (idx : list nat) : nat := flat_offset idx (contiguous_strides sz).
Let write (st : list Z) (idx : list nat) : list Z := <[off idx := value idx]> st.

Lemma foldl_write_length (l : list (list nat)) (st : list Z) :
  length (foldl write st l) = length st.
Proof.
  revert st. induction l as [|x l IH]; intros st; [reflexivity|].
  cbn [foldl]. rewrite IH. apply length_insert.
Qed.

Lemma foldl_write_keep (l : list (list nat)) (st : list Z) (k : nat) (v : Z) :
  st !! k = Some v ->
  (forall idx, idx ∈ l -> off idx = k -> value idx = v) ->
  foldl write st l !! k = Some v.
Proof.
  revert st. induction l as [|x l IH]; intros st Hst Hl; [exact Hst|].
  cbn [foldl]. apply IH.
  - unfold write. destruct (decide (off x = k)) as [E|E].
    + rewrite E, list_lookup_insert_eq by (eapply lookup_lt_Some; eauto).
      f_equal. apply Hl; [apply list_elem_of_here | exact E].
    + rewrite list_lookup_insert_ne by exact E. exact Hst.
  - intros idx Hidx. apply Hl. now apply list_elem_of_further.
Qed.

Lemma foldl_write_untouched (l : list (list nat)) (st : list Z) (k : nat) :
  (forall idx, idx ∈ l -> off idx <> k) ->
  foldl write st l !! k = st !! k.
Proof.
  revert st. induction l as [|x l IH]; intros st Hl; [reflexivity|].
  cbn [foldl]. rewrite IH by (intros idx Hidx; apply Hl; now apply list_elem_of_further).
  unfold write. apply list_lookup_insert_ne, Hl, list_elem_of_here.
Qed.

Lemma foldl_write_written (l : list (list nat)) (st : list Z) (idx : list nat) :
  idx ∈ l -> off idx < length st ->
  (forall idx', idx' ∈ l -> off idx' = off idx -> value idx' = value idx) ->
  foldl write st l !! off idx = Some (value idx).
Proof.
  revert st. induction l as [|x l IH]; intros st Hin Hlt Hl.
  - inversion Hin.
  - cbn [foldl]. apply elem_of_cons in Hin as [->|Hin].
    + apply foldl_write_keep.
      * unfold write. now apply list_lookup_insert_eq.
      * intros idx' Hidx'. apply Hl. now apply list_elem_of_further.
    + apply IH; [exact Hin | |].
      * unfold write. now rewrite length_insert.
      * intros idx' Hidx'. apply Hl. now apply list_elem_of_further.
Qed.

(** The loop writes [value idx] at every visited index. *)
Lemma for_each_tset (l : list (list nat)) (predictions : tensor Z) :
  sizes predictions = sz ->
  strides predictions = contiguous_strides sz ->
  (forall idx, idx ∈ l -> in_bounds idx sz = true /\ body idx = Ok (value idx)) ->
  for_each (fun predictions index => v ← body index; tset predictions index v)
           predictions l
  = Ok (Tensor (foldl write (storage predictions) l) sz (contiguous_strides sz)).
Proof.
  revert predictions. induction l as [|x l IH]; intros [st psz pstr] Hsz Hstr Hl;
    cbn [sizes strides storage] in *; subst psz pstr.
  - reflexivity.
  - cbn [for_each foldl].
    destruct (Hl x (list_elem_of_here _ _)) as [Hin Hbody].
    rewrite Hbody. cbn [mbind result_bind].
    assert (tset (Tensor st sz (contiguous_strides sz)) x (value x)
            = Ok (Tensor (write st x) sz (contiguous_strides sz))) as ->.
    { unfold tset. cbn [sizes strides storage]. now rewrite Hin. }
    cbn [mbind result_bind].
    rewrite IH; [reflexivity | reflexivity | reflexivity |].
    intros idx Hidx. apply Hl. now apply list_elem_of_further.
Qed.

End PredictionLoop.

(** ** Aided predictions *)

Section AidedPrediction.

Lemma tget_tmap {X Y} (f : X -> Y) (t : tensor X) (idx : list nat) :
  tget (tmap f t) idx = f <$> tget t idx.
Proof.
  unfold tget, tmap. cbn [sizes strides storage].
  destruct (in_bounds idx (sizes t)); [|reflexivity].
  change (map f (storage t)) with (f <$> storage t). rewrite list_lookup_fmap.
  destruct (storage t !! flat_offset idx (strides t)); reflexivity.
Qed.

Lemma wf_tmap {X Y} (f : X -> Y) (t : tensor X) :
  wf_tensor t = true -> wf_tensor (tmap f t) = true.
Proof.
  unfold wf_tensor, tmap. cbn [sizes strides storage]. now rewrite length_map.
Qed.

Lemma filter_zip_flags {X} (h : X -> bool) (l : list X) (flags : list bool) :
  Forall2 (fun x y => h x = y) l flags ->
  map fst (filter (fun p : X * bool => p.2 = true) (zip l flags))
  = filter (fun x => h x = true) l.
Proof.
  induction 1 as [|x y l flags Hxy _ IH]; [reflexivity|].
  cbn [zip zip_with]. rewrite !filter_cons. cbn [snd]. subst y.
  destruct (decide (h x = true)); cbn [map fst]; now rewrite IH.
Qed.

(** The indices visited by the loop: those whose mask entry is true,
    in row-major order. *)
Lemma true_indices_wf (mask : tensor bool) :
  wf_tensor mask = true ->
  true_indices mask
  = Ok (filter (fun idx => ok_or false (tget mask idx) = true)
               (all_indices (sizes mask))).
Proof.
  intros Hwf. unfold true_indices.
  destruct (row_major_wf mask Hwf) as (flags & Hflags & _ & _).
  rewrite Hflags. cbn [mbind result_bind]. f_equal.
  apply filter_zip_flags. apply mapM_ok in Hflags.
  eapply Forall2_impl; [exact Hflags|]. intros idx y Hy. cbv beta in Hy.
  now rewrite Hy.
Qed.

Lemma py_index_nat (n k : nat) : (k < n)%nat -> py_index n (Z.of_nat k) = Ok k.
Proof.
  intros Hk. unfold py_index.
  rewrite (proj2 (Z.leb_le 0 (Z.of_nat k))) by lia.
  rewrite (proj2 (Z.ltb_lt (Z.of_nat k) (Z.of_nat n))) by lia.
  cbn [andb]. now rewrite Nat2Z.id.
Qed.

Lemma py_index_channel (n : nat) (c : Z) :
  0 <= c < Z.of_nat n -> py_index n c = Ok (Z.to_nat c).
Proof.
  intros Hc. unfold py_index.
  rewrite (proj2 (Z.leb_le 0 c)), (proj2 (Z.ltb_lt c (Z.of_nat n))) by lia.
  reflexivity.
Qed.

(** The score of channel [c] at pixel (b, i, j). *)
Lemma channel_score (logits : tensor Q) (B C H W b i j : nat) (c : Z) :
  sizes logits = [B; C; H; W] -> wf_tensor logits = true ->
  (b < B)%nat -> (i < H)%nat -> (j < W)%nat -> 0 <= c < Z.of_nat C ->
  exists s, tget_py logits [Z.of_nat b; c; Z.of_nat i; Z.of_nat j] = Ok s.
Proof.
  intros Hsz Hwf Hb Hi Hj Hc. unfold tget_py. rewrite Hsz.
  cbn [py_indices].
  rewrite !py_index_nat by assumption. rewrite py_index_channel by assumption.
  cbn [mbind result_bind].
  destruct (wf_tensor_get logits [b; Z.to_nat c; i; j] Hwf) as (s & Hs & _).
  { rewrite Hsz. apply in_bounds4; lia. }
  eauto.
Qed.

Lemma np_argmax_pair (so sp : Q) :
  np_argmax [so; sp] = Ok (if Qle_bool sp so then 0%nat else 1%nat).
Proof. reflexivity. Qed.

End AidedPrediction.

Section OutputsTonpGtLoop.

Variables (logits : tensor Q) (anno : tensor Z) (B C H W : nat).
Hypothesis logits_shape : sizes logits = [B; C; H; W].
Hypothesis logits_wf : wf_tensor logits = true.
Hypothesis anno_shape : sizes anno = [B; H; W].
Hypothesis anno_wf : wf_tensor anno = true.
Hypothesis labels_ok : forallb (label_ok C) (storage anno) = true.

Lemma label_ok_foreground (a : Z) :
  label_ok C a = true -> 0 < a -> a <> 255 ->
  a < 255
  /\ ((a <= 20 /\ OutputsTonpGt.to_pair a num_to_aggregate = [a; a + 20]
       /\ a + 20 < Z.of_nat C)
      \/ (20 < a /\ OutputsTonpGt.to_pair a num_to_aggregate = [a - 20; a]
          /\ a < Z.of_nat C)).
Proof.
  intros Hok Hpos Hne. unfold label_ok in Hok.
  rewrite (proj2 (Z.leb_gt a 0)) in Hok by lia.
  rewrite (proj2 (Z.eqb_neq a 255)) in Hok by lia.
  cbn [orb] in Hok. apply andb_true_iff in Hok as [Hlt Hch]. apply Z.ltb_lt in Hlt.
  split; [exact Hlt|].
  unfold OutputsTonpGt.to_pair, num_to_aggregate in *.
  destruct (Z.gtb_spec a 20) as [Hgt|Hle]; cbn [forallb] in Hch;
    repeat (apply andb_true_iff in Hch as [?%Z.ltb_lt Hch]).
  - right. repeat split; [lia | assumption].
  - left. repeat split; [lia | assumption].
Qed.

Lemma anno_label_ok (idx : list nat) (a : Z) :
  tget anno idx = Ok a -> label_ok C a = true.
Proof.
  intros [_ Hst]%tget_ok_inv.
  rewrite forallb_forall in labels_ok. apply labels_ok.
  apply list_elem_of_In, list_elem_of_lookup. eauto.
Qed.

(** Lines 215-221 at a foreground pixel: the scores of the two paired
    channels are read and the first channel wins unless the second
    scores strictly higher. *)
Lemma aided_prediction_spec (b i j : nat) (a : Z) :
  (b < B)%nat -> (i < H)%nat -> (j < W)%nat ->
  tget anno [b; i; j] = Ok a -> 0 < a -> a <> 255 ->
  exists obj part so sp,
    OutputsTonpGt.to_pair a num_to_aggregate = [obj; part]
    /\ 0 < obj /\ 0 < part
    /\ tget_py logits [Z.of_nat b; obj; Z.of_nat i; Z.of_nat j] = Ok so
    /\ tget_py logits [Z.of_nat b; part; Z.of_nat i; Z.of_nat j] = Ok sp
    /\ aided_prediction logits anno [b; i; j]
       = Ok (if Qle_bool sp so then obj else part).
Proof.
  intros Hb Hi Hj Ha Hpos Hne.
  destruct (label_ok_foreground a (anno_label_ok _ _ Ha) Hpos Hne) as [_ Hpair].
  assert (exists obj part,
             OutputsTonpGt.to_pair a num_to_aggregate = [obj; part]
             /\ 0 < obj < Z.of_nat C /\ 0 < part < Z.of_nat C)
    as (obj & part & Hp & Hobj & Hpart).
  { destruct Hpair as [(? & -> & ?)|(? & -> & ?)]; eexists _, _;
      (split; [reflexivity | lia]). }
  destruct (channel_score logits B C H W b i j obj logits_shape logits_wf Hb Hi Hj)
    as [so Hso]; [lia|].
  destruct (channel_score logits B C H W b i j part logits_shape logits_wf Hb Hi Hj)
    as [sp Hsp]; [lia|].
  exists obj, part, so, sp.
  repeat (split; [first [assumption | lia]|]).
  unfold aided_prediction. rewrite Ha. cbn [mbind result_bind]. rewrite Hp.
  cbn [mapM]. rewrite Hso, Hsp. cbn [mbind result_bind mret result_ret].
  rewrite np_argmax_pair. cbn [mbind result_bind].
  destruct (Qle_bool sp so); reflexivity.
Qed.

Lemma in_bounds3_inv (idx : list nat) :
  in_bounds idx [B; H; W] = true ->
  exists b i j, idx = [b; i; j] /\ (b < B)%nat /\ (i < H)%nat /\ (j < W)%nat.
Proof.
  destruct idx as [|b [|i [|j [|k l]]]]; simpl; intros Hb;
    repeat (apply andb_true_iff in Hb as [?%Nat.ltb_lt Hb]); try discriminate.
  exists b, i, j. auto.
Qed.

Lemma foreground_mask (idx : list nat) (a : Z) :
  tget anno idx = Ok a ->
  ok_or false (tget (tmap (fun a => (a >? 0) && negb (a =? 255)) anno) idx) = true
  <-> 0 < a /\ a <> 255.
Proof.
  intros Ha. rewrite tget_tmap, Ha. cbn.
  rewrite andb_true_iff, negb_true_iff, Z.eqb_neq, Z.gtb_gt. lia.
Qed.

(** The arrays [outputs_tonp_gt] returns, pixel by pixel. *)
Lemma outputs_tonp_gt_pixelwise :
  exists preds gts,
    outputs_tonp_gt logits anno true = Ok (tensor1 preds, tensor1 gts)
    /\ length preds = (B * H * W)%nat
    /\ length gts = (B * H * W)%nat
    /\ forall b i j, (b < B)%nat -> (i < H)%nat -> (j < W)%nat ->
         exists a,
           tget anno [b; i; j] = Ok a
           /\ gts !! pixel H W b i j = Some a
           /\ ((0 < a < 255
                /\ exists obj part so sp,
                     OutputsTonpGt.to_pair a num_to_aggregate = [obj; part]
                     /\ 0 < obj /\ 0 < part
                     /\ tget_py logits [Z.of_nat b; obj; Z.of_nat i; Z.of_nat j] = Ok so
                     /\ tget_py logits [Z.of_nat b; part; Z.of_nat i; Z.of_nat j] = Ok sp
                     /\ preds !! pixel H W b i j
                        = Some (if Qle_bool sp so then obj else part))
               \/ ((a <= 0 \/ a = 255) /\ preds !! pixel H W b i j = Some 0)).
Proof.
  set (mask := tmap (fun a => (a >? 0) && negb (a =? 255)) anno).
  set (where_ := filter (fun idx => ok_or false (tget mask idx) = true)
                        (all_indices [B; H; W])).
  set (value := fun idx => ok_or 0 (aided_prediction logits anno idx)).
  assert (Hnum : prod_list [B; H; W] = (B * H * W)%nat) by (simpl; lia).
  (* every visited index is a foreground pixel whose prediction is defined *)
  assert (Hvisit : forall idx, idx ∈ where_ ->
            in_bounds idx [B; H; W] = true
            /\ aided_prediction logits anno idx = Ok (value idx)).
  { intros idx [Hm Hin%elem_of_all_indices]%list_elem_of_filter.
    split; [exact Hin|].
    destruct (in_bounds3_inv idx Hin) as (b & i & j & -> & Hb & Hi & Hj).
    destruct (wf_tensor_get anno [b; i; j] anno_wf) as (a & Ha & _);
      [now rewrite anno_shape|].
    apply (foreground_mask _ a Ha) in Hm as [Hpos Hne].
    destruct (aided_prediction_spec b i j a Hb Hi Hj Ha Hpos Hne)
      as (obj & part & so & sp & _ & _ & _ & _ & _ & Haid).
    unfold value. now rewrite Haid. }
  destruct (row_major_wf anno anno_wf) as (gts & Hgts & Hglen & Hgget).
  rewrite anno_shape in Hgget. unfold numel in Hglen. rewrite anno_shape, Hnum in Hglen.
  set (preds := foldl (fun st idx =>
                         <[flat_offset idx (contiguous_strides [B; H; W]) := value idx]> st)
                      (replicate (B * H * W) 0) where_).
  assert (Hplen : length preds = (B * H * W)%nat).
  { unfold preds. rewrite foldl_write_length. apply length_replicate. }
  exists preds, gts.
  split.
  { unfold outputs_tonp_gt. fold mask.
    rewrite (true_indices_wf mask (wf_tmap _ anno anno_wf)).
    cbn [mbind result_bind]. change (sizes mask) with (sizes anno).
    rewrite anno_shape. fold where_.
    pose proof (for_each_tset (aided_prediction logits anno) value [B; H; W]
                  where_ (zeros_like anno)) as Hloop.
    unfold zeros_like, numel in Hloop |- *. cbn [sizes strides storage] in Hloop.
    rewrite anno_shape, Hnum in Hloop |- *. fold preds in Hloop.
    rewrite (Hloop eq_refl eq_refl Hvisit). clear Hloop.
    cbn [mbind result_bind].
    unfold np_flatten.
    rewrite (row_major_contiguous (Tensor preds [B; H; W] (contiguous_strides [B; H; W]))).
    2:{ unfold is_contiguous, numel. cbn [sizes strides storage].
        rewrite bool_decide_eq_true_2 by reflexivity.
        rewrite Hnum, Hplen, Nat.eqb_refl. reflexivity. }
    cbn [fmap result_fmap mbind result_bind storage]. rewrite Hgts. reflexivity. }
  split; [exact Hplen|]. split; [exact Hglen|].
  intros b i j Hb Hi Hj.
  pose proof (in_bounds3 B H W b i j Hb Hi Hj) as Hin.
  pose proof (pixel_lt B H W b i j Hb Hi Hj) as Hpx.
  destruct (Hgget [b; i; j] Hin) as (a & Ha & Hga).
  rewrite pixel_offset in Hga.
  exists a. split; [exact Ha|]. split; [exact Hga|].
  destruct (decide (0 < a /\ a <> 255)) as [[Hpos Hne]|Hbg].
  - left.
    destruct (label_ok_foreground a (anno_label_ok _ _ Ha) Hpos Hne) as [Hlt _].
    split; [lia|].
    destruct (aided_prediction_spec b i j a Hb Hi Hj Ha Hpos Hne)
      as (obj & part & so & sp & Hp & Hobj & Hpart & Hso & Hsp & Haid).
    exists obj, part, so, sp. repeat (split; [assumption|]).
    assert (Hmem : [b; i; j] ∈ where_).
    { apply list_elem_of_filter. split.
      - apply (foreground_mask _ a Ha). auto.
      - now apply elem_of_all_indices. }
    rewrite <- (pixel_offset B). unfold preds.
    rewrite (foldl_write_written value [B; H; W]).
    + unfold value. now rewrite Haid.
    + exact Hmem.
    + rewrite length_replicate, pixel_offset. exact Hpx.
    + intros idx' Hidx' Hoff. f_equal.
      apply (flat_offset_inj [B; H; W]); [apply Hvisit, Hidx' | exact Hin | exact Hoff].
  - right. split; [lia|].
    unfold preds. rewrite (foldl_write_untouched value [B; H; W]).
    + now apply lookup_replicate_2.
    + intros idx' Hidx' Hoff. rewrite <- (pixel_offset B) in Hoff.
      assert (idx' = [b; i; j]) as ->
        by (apply (flat_offset_inj [B; H; W]); [apply Hvisit, Hidx' | exact Hin | exact Hoff]).
      apply list_elem_of_filter in Hidx' as [Hm _].
      apply (foreground_mask _ a Ha) in Hm. contradiction.
Qed.

End OutputsTonpGtLoop.

Lemma tget_tensor1 {X} (l : list X) (k : nat) (x : X) :
  l !! k = Some x -> tget (tensor1 l) [k] = Ok x.
Proof.
  intros Hk. unfold tget, tensor1, flat_offset.
  cbn [sizes strides storage in_bounds zip_with sum_list sum_list_with].
  rewrite (proj2 (Nat.ltb_lt _ _) (lookup_lt_Some _ _ _ Hk)). cbn [andb].
  unfold id. rewrite Nat.mul_1_r, Nat.add_0_r, Hk. reflexivity.
Qed.

(** C1.  For logits of shape (B, C, H, W) and annotations of shape
    (B, H, W) whose labels are background or padding, the ignore value
    255, or labels below 255 with both paired channels among the C
    channels, [outputs_tonp_gt] returns the flattened predictions and
    annotations; at a pixel whose annotation [a] is strictly between 0
    and 255 the prediction is the member of the channel pair
    [to_pair a 20] with the higher score (the object channel on a tie),
    and at every other pixel the prediction is 0. *)
Theorem outputs_tonp_gt_aided_argmax (logits : tensor Q) (anno : tensor Z)
    (B C H W : nat) :
  sizes logits = [B; C; H; W] -> wf_tensor logits = true ->
  sizes anno = [B; H; W] -> wf_tensor anno = true ->
  forallb (label_ok C) (storage anno) = true ->
  exists predictions gts,
    outputs_tonp_gt logits anno true = Ok (predictions, gts)
    /\ sizes predictions = [(B * H * W)%nat]
    /\ sizes gts = [(B * H * W)%nat]
    /\ forall b i j, (b < B)%nat -> (i < H)%nat -> (j < W)%nat ->
         exists a p,
           tget anno [b; i; j] = Ok a
           /\ tget gts [pixel H W b i j] = Ok a
           /\ tget predictions [pixel H W b i j] = Ok p
           /\ (0 < a < 255 ->
               exists obj part so sp,
                 OutputsTonpGt.to_pair a 20 = [obj; part]
                 /\ tget_py logits [Z.of_nat b; obj; Z.of_nat i; Z.of_nat j] = Ok so
                 /\ tget_py logits [Z.of_nat b; part; Z.of_nat i; Z.of_nat j] = Ok sp
                 /\ (p = obj \/ p = part)
                 /\ ((sp < so)%Q -> p = obj)
                 /\ ((so < sp)%Q -> p = part)
                 /\ ((so == sp)%Q -> p = obj))
           /\ (~ 0 < a < 255 -> p = 0).
Proof.
  intros Hls Hlwf Has Hawf Hok.
  destruct (outputs_tonp_gt_pixelwise logits anno B C H W Hls Hlwf Has Hawf Hok)
    as (preds & gts & Hrun & Hplen & Hglen & Hpix).
  exists (tensor1 preds), (tensor1 gts).
  split; [exact Hrun|].
  split; [unfold tensor1; cbn [sizes]; now rewrite Hplen|].
  split; [unfold tensor1; cbn [sizes]; now rewrite Hglen|].
  intros b i j Hb Hi Hj.
  destruct (Hpix b i j Hb Hi Hj) as (a & Ha & Hga & Hcase).
  destruct Hcase as [[Hfg (obj & part & so & sp & Hp & _ & _ & Hso & Hsp & Hpred)]
                    |[Hbg Hpred]].
  - exists a, (if Qle_bool sp so then obj else part).
    split; [exact Ha|]. split; [now apply tget_tensor1|].
    split; [now apply tget_tensor1|]. split; [|lia].
    intros _. exists obj, part, so, sp.
    split; [exact Hp|]. split; [exact Hso|]. split; [exact Hsp|].
    destruct (Qle_bool sp so) eqn:Hcmp.
    + apply Qle_bool_iff in Hcmp. repeat split; auto.
      intros Hlt. exfalso. exact (Qlt_not_le _ _ Hlt Hcmp).
    + assert (~ (sp <= so)%Q) as Hn
        by (intros Hle; apply Qle_bool_iff in Hle; congruence).
      repeat split; auto.
      * intros Hlt. exfalso. apply Hn. now apply Qlt_le_weak.
      * intros Heq. exfalso. apply Hn. rewrite Heq. apply Qle_refl.
  - exists a, 0.
    split; [exact Ha|]. split; [now apply tget_tensor1|].
    split; [now apply tget_tensor1|]. split; [lia | reflexivity].
Qed.

Lemma outputs_tonp_gt_aided_argmax_witness :
  exists predictions gts,
    outputs_tonp_gt (Tensor (map inject_Z (seqZ 0 82)) [1; 41; 1; 2]%nat [82; 2; 2; 1]%nat)
                    (Tensor [3; 0] [1; 1; 2]%nat [2; 2; 1]%nat) true
    = Ok (predictions, gts)
    /\ exists a p,
         tget (Tensor [3; 0] [1; 1; 2]%nat [2; 2; 1]%nat) [0; 0; 0]%nat = Ok a
         /\ tget predictions [pixel 1 2 0 0 0] = Ok p.
Proof.
  destruct (outputs_tonp_gt_aided_argmax
              (Tensor (map inject_Z (seqZ 0 82)) [1; 41; 1; 2]%nat [82; 2; 2; 1]%nat)
              (Tensor [3; 0] [1; 1; 2]%nat [2; 2; 1]%nat)
              1 41 1 2 eq_refl eq_refl eq_refl eq_refl eq_refl)
    as (predictions & gts & Hrun & _ & _ & Hpix).
  exists predictions, gts. split; [exact Hrun|].
  destruct (Hpix 0 0 0 ltac:(lia) ltac:(lia) ltac:(lia))%nat
    as (a & p & Ha & _ & Hp & _).
  exists a, p. split; [exact Ha | exact Hp].
Defined.

(** C10.  Under the same conditions every entry of the prediction array
    is tied to the ground-truth label [a] at its position: when
    0 < a < 255 it is [a] itself or its counterpart ([a + 20] when
    a <= 20, [a - 20] when a > 20), and otherwise it is 0. *)
Theorem outputs_tonp_gt_pair_invariant (logits : tensor Q) (anno : tensor Z)
    (B C H W : nat) :
  sizes logits = [B; C; H; W] -> wf_tensor logits = true ->
  sizes anno = [B; H; W] -> wf_tensor anno = true ->
  forallb (label_ok C) (storage anno) = true ->
  exists predictions gts,
    outputs_tonp_gt logits anno true = Ok (predictions, gts)
    /\ Forall2 (fun a p =>
                  (0 < a < 255 -> p = a \/ p = counterpart a)
                  /\ (~ 0 < a < 255 -> p = 0))
               (storage gts) (storage predictions).
Proof.
  intros Hls Hlwf Has Hawf Hok.
  destruct (outputs_tonp_gt_pixelwise logits anno B C H W Hls Hlwf Has Hawf Hok)
    as (preds & gts & Hrun & Hplen & Hglen & Hpix).
  exists (tensor1 preds), (tensor1 gts). split; [exact Hrun|].
  cbn [tensor1 storage]. apply Forall2_same_length_lookup.
  split; [congruence|]. intros k a p Hga Hpk.
  assert (k < length (all_indices [B; H; W]))%nat as Hk.
  { rewrite length_all_indices. apply lookup_lt_Some in Hga. simpl. lia. }
  destruct (lookup_lt_is_Some_2 _ _ Hk) as [idx Hidx].
  destruct (all_indices_lookup_offset _ _ _ Hidx) as [Hoff Hin].
  destruct (in_bounds3_inv B H W idx Hin) as (b & i & j & -> & Hb & Hi & Hj).
  rewrite pixel_offset in Hoff. subst k.
  destruct (Hpix b i j Hb Hi Hj) as (a' & _ & Hga' & Hcase).
  assert (a' = a) as -> by congruence.
  destruct Hcase as [[Hfg (obj & part & so & sp & Hp & _ & _ & _ & _ & Hpred)]
                    |[Hbg Hpred]].
  - split; [|lia]. intros _.
    assert (p = if Qle_bool sp so then obj else part) as -> by congruence.
    unfold OutputsTonpGt.to_pair, num_to_aggregate in Hp. unfold counterpart.
    destruct (Z.gtb_spec a 20), (Z.leb_spec a 20); try lia;
      injection Hp as <- <-; destruct (Qle_bool sp so); auto.
  - split; [lia|]. intros _. congruence.
Qed.

Lemma outputs_tonp_gt_pair_invariant_witness :
  exists predictions gts,
    outputs_tonp_gt (Tensor (map inject_Z (seqZ 0 82)) [1; 41; 1; 2]%nat [82; 2; 2; 1]%nat)
                    (Tensor [3; 255] [1; 1; 2]%nat [2; 2; 1]%nat) true
    = Ok (predictions, gts)
    /\ length (storage gts) = length (storage predictions).
Proof.
  destruct (outputs_tonp_gt_pair_invariant
              (Tensor (map inject_Z (seqZ 0 82)) [1; 41; 1; 2]%nat [82; 2; 2; 1]%nat)
              (Tensor [3; 255] [1; 1; 2]%nat [2; 2; 1]%nat)
              1 41 1 2 eq_refl eq_refl eq_refl eq_refl eq_refl)
    as (predictions & gts & Hrun & Hall).
  exists predictions, gts. split; [exact Hrun|].
  exact (Forall2_length _ _ _ Hall).
Defined.

(** ** The flat arrays of a batch *)

Section FlatArrays.

Lemma for_each_tset_shape (body : list nat -> result Z) (l : list (list nat))
    (p0 p : tensor Z) :
  for_each (fun predictions index => v ← body index; tset predictions index v) p0 l
  = Ok p ->
  sizes p = sizes p0 /\ strides p = strides p0.
Proof.
  revert p0. induction l as [|idx l IH]; intros p0 Hrun; cbn [for_each] in Hrun.
  - injection Hrun as <-. auto.
  - apply bind_ok in Hrun as (p1 & Hstep & Hrun).
    apply bind_ok in Hstep as (v & _ & Hstep).
    unfold tset in Hstep. destruct (in_bounds idx (sizes p0)); [|discriminate].
    injection Hstep as <-. apply IH in Hrun. exact Hrun.
Qed.

(** The unflattened result of [outputs_tonp_gt]: the same predictions,
    in the shape of the annotations, beside the annotations themselves. *)
Lemma outputs_tonp_gt_unflattened (logits : tensor Q) (anno fp fa : tensor Z) :
  outputs_tonp_gt logits anno true = Ok (fp, fa) ->
  exists predictions,
    outputs_tonp_gt logits anno false = Ok (predictions, anno)
    /\ sizes predictions = sizes anno
    /\ np_flatten predictions = Ok fp.
Proof.
  unfold outputs_tonp_gt. intros Hrun.
  apply bind_ok in Hrun as (where_ & Hw & Hrun). rewrite Hw. cbn [mbind result_bind].
  apply bind_ok in Hrun as (p & Hloop & Hrun). rewrite Hloop. cbn [mbind result_bind].
  apply bind_ok in Hrun as (fp' & Hfp & Hrun).
  apply bind_ok in Hrun as (fa' & _ & Hrun). injection Hrun as -> _.
  exists p. split; [reflexivity|]. split; [|exact Hfp].
  apply for_each_tset_shape in Hloop as [Hs _]. exact Hs.
Qed.

Lemma row_major_elements {X} (t : tensor X) (data : list X) (x : X) :
  row_major t = Ok data -> x ∈ data -> x ∈ storage t.
Proof.
  intros Hrm Hx. apply mapM_ok in Hrm.
  apply list_elem_of_lookup in Hx as [k Hk].
  destruct (Forall2_lookup_r _ _ _ _ _ Hrm Hk) as (idx & _ & Hget).
  apply tget_ok_inv in Hget as [_ Hst]. apply list_elem_of_lookup. eauto.
Qed.

Lemma outputs_tonp_gt_ground_truth (logits : tensor Q) (anno fp fa : tensor Z) :
  outputs_tonp_gt logits anno true = Ok (fp, fa) -> np_flatten anno = Ok fa.
Proof.
  unfold outputs_tonp_gt. intros Hrun.
  apply bind_ok in Hrun as (where_ & _ & Hrun).
  apply bind_ok in Hrun as (p & _ & Hrun).
  apply bind_ok in Hrun as (fp' & _ & Hrun).
  apply bind_ok in Hrun as (fa' & Hfa & Hrun). injection Hrun as _ <-. exact Hfa.
Qed.

Lemma np_flatten_length {X} (t u : tensor X) :
  np_flatten t = Ok u -> length (storage u) = prod_list (sizes t).
Proof.
  unfold np_flatten, row_major.
  destruct (mapM (tget t) (all_indices (sizes t))) as [data|] eqn:Hm; [|discriminate].
  intros [= <-]. cbn [tensor1 storage].
  apply mapM_ok, Forall2_length in Hm. now rewrite <- Hm, length_all_indices.
Qed.

(** Predictions and ground truth of [outputs_tonp_gt] have one length. *)
Lemma outputs_tonp_gt_lengths (logits : tensor Q) (anno fp fa : tensor Z) :
  outputs_tonp_gt logits anno true = Ok (fp, fa) ->
  length (storage fp) = length (storage fa)
  /\ length (storage fa) = prod_list (sizes anno).
Proof.
  intros Hrun.
  pose proof (outputs_tonp_gt_ground_truth _ _ _ _ Hrun) as Hfa.
  apply outputs_tonp_gt_unflattened in Hrun as (p & _ & Hs & Hfp).
  apply np_flatten_length in Hfa, Hfp. split; congruence.
Qed.

End FlatArrays.

(** ** Background in the object-part confusion matrix *)

Section Background.

Lemma count_without_background (lt lp : Z) (y_true y_pred : list Z) :
  lt <> -1 ->
  length (filter (fun s => s = (lt, lp))
                 (zip (map (fun a => if a =? 0 then -1 else a) y_true) y_pred))
  = length (filter (fun s => s = (lt, lp)) (without_background y_true y_pred)).
Proof.
  intros Hlt. unfold without_background. revert y_pred.
  induction y_true as [|a y_true IH]; intros [|p y_pred]; try reflexivity.
  cbn [map zip zip_with]. rewrite !filter_cons. cbn [fst].
  destruct (Z.eqb_spec a 0) as [->|Ha].
  - rewrite decide_False by congruence.
    rewrite (decide_False (P := 0 <> 0)) by congruence. apply IH.
  - rewrite (decide_True (P := a <> 0)) by exact Ha. rewrite filter_cons.
    destruct (decide ((a, p) = (lt, lp))); cbn [length]; now rewrite IH.
Qed.

Lemma count_samples_without_background (labels y_true y_pred : list Z) :
  -1 ∉ labels ->
  count_samples (zip (map (fun a => if a =? 0 then -1 else a) y_true) y_pred) labels
  = count_samples (without_background y_true y_pred) labels.
Proof.
  intros Hl. unfold count_samples.
  apply list_fmap_ext. intros i lt Hlt.
  apply list_fmap_ext. intros j lp _. apply (f_equal Z.of_nat).
  apply count_without_background. intros ->. apply Hl.
  apply list_elem_of_lookup. eauto.
Qed.

Lemma count_absent_label (samples : list (Z * Z)) (lt lp : Z) :
  lt ∉ map fst samples -> filter (fun s => s = (lt, lp)) samples = [].
Proof.
  induction samples as [|[a p] samples IH]; intros Hn; [reflexivity|].
  cbn [map fst] in Hn. apply not_elem_of_cons in Hn as [Hne Hn].
  rewrite filter_cons_False by congruence. now apply IH.
Qed.

Lemma fst_zip_subseteq (l k : list Z) (x : Z) :
  x ∈ map fst (zip l k) -> x ∈ l.
Proof.
  revert k. induction l as [|a l IH]; intros [|b k]; cbn; try (intros H; now inversion H).
  intros [->|H]%elem_of_cons; [apply list_elem_of_here|].
  apply list_elem_of_further. eapply IH, H.
Qed.

Lemma entry_count_samples (samples : list (Z * Z)) (labels : list Z)
    (i j : nat) (lt lp : Z) :
  labels !! i = Some lt -> labels !! j = Some lp ->
  entry (count_samples samples labels) i j
  = Z.of_nat (length (filter (fun s => s = (lt, lp)) samples)).
Proof.
  intros Hi Hj. unfold entry, count_samples.
  change (map ?f ?l) with (f <$> l). rewrite list_lookup_fmap, Hi. cbn.
  change (map ?f ?l) with (f <$> l). rewrite list_lookup_fmap, Hj. reflexivity.
Qed.

Lemma entry_count_samples_absent (samples : list (Z * Z)) (labels : list Z)
    (i j : nat) (lt : Z) :
  labels !! i = Some lt -> lt ∉ map fst samples ->
  entry (count_samples samples labels) i j = 0.
Proof.
  intros Hi Hn. unfold entry, count_samples.
  change (map ?f ?l) with (f <$> l). rewrite list_lookup_fmap, Hi. cbn.
  change (map ?f ?l) with (f <$> l). rewrite list_lookup_fmap.
  destruct (labels !! j) as [lp|]; [|reflexivity]. cbn.
  now rewrite count_absent_label.
Qed.

Lemma objpart_ground_truth_spec (anno_np : tensor Z) :
(0 ∉ objpart_ground_truth anno_np)
  /\ length (objpart_ground_truth anno_np) = length (storage anno_np)
  /\ forall k a, storage anno_np !! k = Some a ->
       objpart_ground_truth anno_np !! k = Some (if a =? 0 then -1 else a).
Proof.
  unfold objpart_ground_truth. repeat split.
  - intros (a & Ha & _)%list_elem_of_fmap.
    destruct (Z.eqb_spec a 0); lia.
  - apply length_map.
  - intros k a Hk. change (map ?f ?l) with (f <$> l).
    now rewrite list_lookup_fmap, Hk.
Qed.

End Background.

(** C8.  When both tasks' arrays can be computed, the object-part ground
    truth handed to the confusion matrix has every 0 replaced by -1 (and
    nothing else changed).  With -1 not among the object-part labels, the
    matrix that is computed is the one of the batch with its background
    pixels removed, and the row of class 0 is empty; the semantic matrix
    is built from the unchanged flattened annotation, whose background
    pixels are counted in the row of class 0.  The matrices are computed
    when the semantic arrays have one length and hold a semantic label and
    some object-part label other than 0 occurs in the annotation; without
    such a label, a batch with at least one pixel makes the confusion
    matrix raise. *)
Theorem objpart_background_excluded
    (objpart_logits semantic_logits : tensor Q) (objpart_anno semantic_anno : tensor Z)
    (objpart_labels semantic_labels : list Z) :
  -1 ∉ objpart_labels ->
  match numpyify_logits_and_annotations semantic_logits semantic_anno true,
        outputs_tonp_gt objpart_logits objpart_anno true with
  | Ok (semantic_prediction_np, semantic_anno_np),
    Ok (objpart_prediction_np, objpart_anno_np) =>
      let y_true := objpart_ground_truth objpart_anno_np in
      let batch :=
        current_confusion_matrices (objpart_logits, objpart_anno)
          (semantic_logits, semantic_anno) (objpart_labels, semantic_labels) in
      (0 ∉ y_true)
      /\ (forall k a, storage objpart_anno_np !! k = Some a ->
            y_true !! k = Some (if a =? 0 then -1 else a))
      /\ np_flatten semantic_anno = Ok semantic_anno_np
      /\ match confusion_matrix (storage semantic_anno_np)
                 (storage semantic_prediction_np) semantic_labels,
               confusion_matrix y_true (storage objpart_prediction_np)
                 objpart_labels with
         | Ok semantic, Ok objpart =>
             batch = Ok (semantic, objpart)
             /\ objpart
                = count_samples (without_background (storage objpart_anno_np)
                                                    (storage objpart_prediction_np))
                                objpart_labels
             /\ (forall i j, objpart_labels !! i = Some 0 -> entry objpart i j = 0)
             /\ (forall i j lp,
                   semantic_labels !! i = Some 0 -> semantic_labels !! j = Some lp ->
                   entry semantic i j
                   = Z.of_nat (length (filter (fun s => s = (0, lp))
                                              (zip (storage semantic_anno_np)
                                                   (storage semantic_prediction_np)))))
         | _, _ => batch = Raise ValueError
         end
      /\ (length (storage semantic_anno_np) = length (storage semantic_prediction_np) ->
          (exists l, l ∈ semantic_labels /\ l ∈ storage semantic_anno_np) ->
          (exists l, l ∈ objpart_labels /\ l <> 0 /\ l ∈ storage objpart_anno_np) ->
          is_ok batch = true)
      /\ (storage objpart_anno_np <> [] ->
          (forall l, l ∈ objpart_labels -> l <> 0 -> l ∉ storage objpart_anno_np) ->
          batch = Raise ValueError)
  | _, _ =>
      is_ok (current_confusion_matrices (objpart_logits, objpart_anno)
               (semantic_logits, semantic_anno) (objpart_labels, semantic_labels))
      = false
  end.
Proof.
  intros Hlabels. unfold current_confusion_matrices.
  destruct (numpyify_logits_and_annotations semantic_logits semantic_anno true)
    as [[sp sg]|e] eqn:Hsem; [|reflexivity].
  destruct (outputs_tonp_gt objpart_logits objpart_anno true)
    as [[op og]|e] eqn:Hobj; [|reflexivity].
  cbn [mbind result_bind]. cbv zeta.
  destruct (objpart_ground_truth_spec og) as (Hzero & Hlen & Hmap).
  split; [exact Hzero|]. split; [exact Hmap|].
  split.
  { unfold numpyify_logits_and_annotations in Hsem.
    apply bind_ok in Hsem as (pred & _ & Hsem).
    apply bind_ok in Hsem as (pred_np & _ & Hsem).
    apply bind_ok in Hsem as (p & _ & Hsem).
    apply bind_ok in Hsem as (a & Ha & Hsem).
    injection Hsem as _ <-. exact Ha. }
  assert (Hyt : forall l, l ∈ objpart_labels -> l ∈ objpart_ground_truth og ->
                          l <> 0 /\ l ∈ storage og).
  { intros l Hl Hin. unfold objpart_ground_truth in Hin.
    apply list_elem_of_fmap in Hin as (x & Hx & Hin).
    revert Hx. destruct (Z.eqb_spec x 0) as [Hx0|Hne]; intros ->;
      [contradiction | auto]. }
  split; [|split].
  - destruct (confusion_matrix (storage sg) (storage sp) semantic_labels)
      as [semantic|es] eqn:Hcs; cbn [mbind result_bind].
    + destruct (confusion_matrix (objpart_ground_truth og) (storage op) objpart_labels)
        as [objpart|eo] eqn:Hco; cbn [mbind result_bind].
      * apply confusion_matrix_ok_inv in Hcs as (-> & _).
        apply confusion_matrix_ok_inv in Hco as (-> & _).
        split; [reflexivity|].
        split; [now apply count_samples_without_background|].
        split.
        { intros i j Hi. apply (entry_count_samples_absent _ _ _ _ 0 Hi).
          intros Hin%fst_zip_subseteq. contradiction. }
        intros i j lp Hi Hj. now apply entry_count_samples.
      * now apply confusion_matrix_raise in Hco as ->.
    + now apply confusion_matrix_raise in Hcs as ->.
  - intros Hls Hsl (l & Hl & Hne & Hin).
    rewrite (confusion_matrix_ok _ _ _ Hls Hsl). cbn [mbind result_bind].
    rewrite confusion_matrix_ok; [reflexivity | |].
    + rewrite Hlen. symmetry. eapply outputs_tonp_gt_lengths, Hobj.
    + exists l. split; [exact Hl|]. unfold objpart_ground_truth.
      apply list_elem_of_fmap. exists l. split; [|exact Hin].
      destruct (Z.eqb_spec l 0); congruence.
  - intros Hne Hno.
    rewrite (confusion_matrix_no_label (objpart_ground_truth og)).
    + destruct (confusion_matrix (storage sg) (storage sp) semantic_labels)
        as [semantic|es] eqn:Hcs; cbn [mbind result_bind]; [reflexivity|].
      now apply confusion_matrix_raise in Hcs as ->.
    + intros Hnil. apply Hne. apply (f_equal length) in Hnil.
      rewrite Hlen in Hnil. now destruct (storage og).
    + intros l Hl Hin. destruct (Hyt l Hl Hin) as [Hl0 Hlog].
      exact (Hno l Hl Hl0 Hlog).
Qed.

Lemma objpart_background_excluded_witness :
  current_confusion_matrices
    (Tensor (map inject_Z (seqZ 0 82)) [1; 41; 1; 2]%nat [82; 2; 2; 1]%nat,
     Tensor [3; 0] [1; 1; 2]%nat [2; 2; 1]%nat)
    (Tensor (map inject_Z [5; 1; 2; 7]) [1; 2; 1; 2]%nat [4; 2; 2; 1]%nat,
     Tensor [0; 1] [1; 1; 2]%nat [2; 2; 1]%nat)
    ([0; 3; 23], [0; 1])
  = Ok ([[1; 0]; [0; 1]], [[0; 0; 0]; [0; 0; 1]; [0; 0; 0]]).
Proof.
  assert (Hl : -1 ∉ [0; 3; 23])
    by (apply (bool_decide_eq_false_1 (-1 ∈ [0; 3; 23])); reflexivity).
  pose proof (objpart_background_excluded
                (Tensor (map inject_Z (seqZ 0 82)) [1; 41; 1; 2]%nat [82; 2; 2; 1]%nat)
                (Tensor (map inject_Z [5; 1; 2; 7]) [1; 2; 1; 2]%nat [4; 2; 2; 1]%nat)
                (Tensor [3; 0] [1; 1; 2]%nat [2; 2; 1]%nat)
                (Tensor [0; 1] [1; 1; 2]%nat [2; 2; 1]%nat)
                [0; 3; 23] [0; 1] Hl) as H.
  cbv beta iota zeta delta
    [numpyify_logits_and_annotations outputs_tonp_gt] in H.
  vm_compute in H. destruct H as (_ & _ & _ & [H _] & _). vm_compute. exact H.
Defined.

(** ** Worked examples *)

Example float32_rounds_to_even :
  float32 16777217 = 16777216 /\ float32 16777219 = 16777220
  /\ float32 16777216 = 16777216.
Proof. repeat split; reflexivity. Qed.

Example outputs_tonp_gt_example :
  outputs_tonp_gt
    (Tensor (map inject_Z (seqZ 0 82)) [1; 41; 1; 2]%nat [82; 2; 2; 1]%nat)
    (Tensor [3; 255] [1; 1; 2]%nat [2; 2; 1]%nat) true
  = Ok (tensor1 [23; 0], tensor1 [3; 255]).
Proof. reflexivity. Qed.

Example outputs_tonp_gt_missing_channel :
  outputs_tonp_gt
    (Tensor (map inject_Z (seqZ 0 82)) [1; 41; 1; 2]%nat [82; 2; 2; 1]%nat)
    (Tensor [100; 0] [1; 1; 2]%nat [2; 2; 1]%nat) true
  = Raise IndexError.
Proof. reflexivity. Qed.

Example validate_batch_example :
  validate_batch
    (Tensor (map inject_Z (seqZ 0 82)) [1; 41; 1; 2]%nat [82; 2; 2; 1]%nat,
     Tensor [23; 0] [1; 1; 2]%nat [2; 2; 1]%nat)
    (Tensor (map inject_Z [5; 1; 2; 7]) [1; 2; 1; 2]%nat [4; 2; 2; 1]%nat,
     Tensor [0; 1] [1; 1; 2]%nat [2; 2; 1]%nat)
    None None ([0; 3; 23], [0; 1])
  = Ok {| objpart_mPrec := Some (1 # 2)%Q;
          objpart_mRec := Some (1 # 2)%Q;
          semantic_mIoU := Some (2 # 2)%Q;
          overall_part_confusion_matrix := [[0; 0; 0]; [0; 0; 0]; [0; 0; 1]];
          overall_semantic_confusion_matrix := [[1; 0]; [0; 1]] |}.
Proof. reflexivity. Qed.

(** * Further properties of the code *)

(** ** Running totals *)

Section RunningTotals.

Lemma zip_with_map_same {X Y1 Y2 Y} (g : Y1 -> Y2 -> Y) (f1 : X -> Y1)
    (f2 : X -> Y2) (l : list X) :
  zip_with g (map f1 l) (map f2 l) = map (fun x => g (f1 x) (f2 x)) l.
Proof. induction l as [|x l IH]; [reflexivity|]. cbn. now rewrite IH. Qed.

Lemma count_samples_app (s1 s2 : list (Z * Z)) (labels : list Z) :
  count_samples (s1 ++ s2) labels
  = matrix_add (count_samples s1 labels) (count_samples s2 labels).
Proof.
  unfold count_samples, matrix_add. rewrite zip_with_map_same.
  apply list_fmap_ext. intros _ lt _. rewrite zip_with_map_same.
  apply list_fmap_ext. intros _ lp _.
  rewrite filter_app, length_app. lia.
Qed.

Lemma nonneg_matrix_add (a b : matrix) :
  nonneg a -> nonneg b -> nonneg (matrix_add a b).
Proof.
  unfold nonneg, matrix_add. intros Ha Hb.
  apply Forall_lookup. intros i row Hrow.
  apply lookup_zip_with_Some in Hrow as (ra & rb & -> & Hra & Hrb).
  pose proof (proj1 (Forall_lookup _ _) Ha _ _ Hra) as Hna.
  pose proof (proj1 (Forall_lookup _ _) Hb _ _ Hrb) as Hnb.
  cbv beta in Hna, Hnb.
  apply Forall_lookup. intros j c Hc.
  apply lookup_zip_with_Some in Hc as (x & y & -> & Hx & Hy).
  pose proof (proj1 (Forall_lookup _ _) Hna _ _ Hx) as H1.
  pose proof (proj1 (Forall_lookup _ _) Hnb _ _ Hy) as H2.
  cbv beta in H1, H2. lia.
Qed.

Lemma accumulate_running_ok (n : nat) (overall : option matrix) (current sum : matrix) :
  running_ok n overall -> square n current -> nonneg current ->
  accumulate overall current = Ok sum ->
  square n sum /\ nonneg sum.
Proof.
  destruct overall as [m|]; cbn [running_ok accumulate].
  - intros [Hs Hn] Hcs Hcn. rewrite (np_iadd_square n) by assumption.
    intros [= <-]. split.
    + now apply square_matrix_add.
    + now apply nonneg_matrix_add.
  - intros _ Hcs Hcn [= <-]. auto.
Qed.

Lemma accumulate_pass_from (labels : list Z) (batches : list (list Z * list Z))
    (seen : list (Z * Z)) :
  Forall (countable labels) batches ->
  foldl (accumulate_batch labels) (Ok (Some (count_samples seen labels))) batches
  = Ok (Some (count_samples (seen ++ all_samples batches) labels)).
Proof.
  intros Hall. revert seen.
  induction Hall as [|b batches [Hlen Hlabel] _ IH]; intros seen.
  - unfold all_samples. cbn. now rewrite app_nil_r.
  - cbn [foldl]. unfold accumulate_batch at 2. cbn [mbind result_bind].
    rewrite (confusion_matrix_ok _ _ _ Hlen Hlabel). cbn [mbind result_bind accumulate].
    rewrite (np_iadd_square (length labels)) by apply square_count_samples.
    cbn [mbind result_bind].
    rewrite <- count_samples_app, IH. unfold all_samples. cbn [map concat].
    now rewrite app_assoc.
Qed.

End RunningTotals.

(** X1.  When every batch of a pass is accepted by the confusion matrix
    (its two arrays have one length and a declared label occurs in its
    ground truth), accumulating the batches' matrices one by one succeeds
    and gives the confusion matrix of all samples of the pass taken
    together (and no matrix when there was no batch). *)
Theorem accumulate_pass_whole_dataset (labels : list Z)
    (batches : list (list Z * list Z)) :
  Forall (countable labels) batches ->
  accumulate_pass labels batches
  = Ok (match batches with
        | [] => None
        | _ => Some (count_samples (all_samples batches) labels)
        end).
Proof.
  intros Hall. unfold accumulate_pass.
  destruct Hall as [|b batches [Hlen Hlabel] Hall]; [reflexivity|].
  cbn [foldl]. unfold accumulate_batch at 2. cbn [mbind result_bind].
  rewrite (confusion_matrix_ok _ _ _ Hlen Hlabel). cbn [mbind result_bind accumulate].
  rewrite (accumulate_pass_from labels batches (zip b.1 b.2) Hall). reflexivity.
Qed.

Lemma accumulate_pass_whole_dataset_witness :
  accumulate_pass [0; 1] [([0; 1], [0; 0]); ([1; 1], [1; 0])]
  = Ok (Some [[1; 0]; [2; 1]]).
Proof.
  rewrite (accumulate_pass_whole_dataset [0; 1] [([0; 1], [0; 0]); ([1; 1], [1; 0])]).
  - reflexivity.
  - repeat constructor.
    + exists 0. split; apply list_elem_of_here.
    + exists 1. split; [apply list_elem_of_further|]; apply list_elem_of_here.
Defined.

(** X2.  A successful [validate_batch] keeps the running matrices well
    shaped: when each incoming running matrix is absent or a square
    matrix of non-negative counts with one row per label, so is each
    returned one. *)
Theorem validate_batch_keeps_shape
    (objpart_dat semantic_dat : tensor Q * tensor Z)
    (overall_part overall_semantic : option matrix)
    (objpart_labels semantic_labels : list Z) (r : batch_result) :
  validate_batch objpart_dat semantic_dat overall_part overall_semantic
                 (objpart_labels, semantic_labels) = Ok r ->
  running_ok (length objpart_labels) overall_part ->
  running_ok (length semantic_labels) overall_semantic ->
  running_ok (length objpart_labels) (Some (overall_part_confusion_matrix r))
  /\ running_ok (length semantic_labels) (Some (overall_semantic_confusion_matrix r)).
Proof.
  intros Hrun Hp Hs. unfold validate_batch in Hrun.
  apply bind_ok in Hrun as ([sem obj] & Hcur & Hrun).
  apply bind_ok in Hrun as (ts & Hts & Hrun).
  apply bind_ok in Hrun as (tp & Htp & Hrun).
  destruct (get_precision_recall obj) as [prec rec]. injection Hrun as <-.
  cbn [overall_part_confusion_matrix overall_semantic_confusion_matrix running_ok].
  apply current_confusion_matrices_square in Hcur as [[Hss Hsn] [Hos Hon]].
  cbn [fst snd] in Hss, Hos.
  split; eapply accumulate_running_ok; eassumption.
Qed.

Lemma validate_batch_keeps_shape_witness :
  running_ok 3 (Some [[1; 0; 0]; [0; 2; 0]; [0; 0; 4]]).
Proof.
  assert (Hp : running_ok 3 (Some [[1; 0; 0]; [0; 2; 0]; [0; 0; 3]])).
  { split; [split; [reflexivity | repeat constructor] | repeat constructor; lia]. }
  destruct (validate_batch_keeps_shape
              (Tensor (map inject_Z (seqZ 0 82)) [1; 41; 1; 2]%nat [82; 2; 2; 1]%nat,
               Tensor [23; 0] [1; 1; 2]%nat [2; 2; 1]%nat)
              (Tensor (map inject_Z [5; 1; 2; 7]) [1; 2; 1; 2]%nat [4; 2; 2; 1]%nat,
               Tensor [0; 1] [1; 1; 2]%nat [2; 2; 1]%nat)
              (Some [[1; 0; 0]; [0; 2; 0]; [0; 0; 3]]) None [0; 3; 23] [0; 1]
              _ eq_refl Hp I) as [H _].
  exact H.
Defined.

(** ** Relations between the metrics *)

Section MetricRelations.

Lemma ratio_antitone (a d u : Z) :
  0 <= a -> 0 < d <= u -> (inject_Z a / inject_Z u <= inject_Z a / inject_Z d)%Q.
Proof.
  intros Ha Hd.
  assert (0 < inject_Z d)%Q as Hd' by (change 0%Q with (inject_Z 0); rewrite <- Zlt_Qlt; lia).
  assert (0 < inject_Z u)%Q as Hu' by (change 0%Q with (inject_Z 0); rewrite <- Zlt_Qlt; lia).
  apply Qle_shift_div_l; [exact Hd'|].
  assert (inject_Z a / inject_Z u * inject_Z d == inject_Z a * inject_Z d / inject_Z u)%Q
    as -> by (field; intros E; rewrite E in Hu'; now apply Qlt_irrefl in Hu').
  apply Qle_shift_div_r; [exact Hu'|].
  rewrite <- !inject_Z_mult, <- Zle_Qle. nia.
Qed.

Lemma ratio_one (a u : Z) :
  0 < u -> (inject_Z a / inject_Z u == 1)%Q <-> a = u.
Proof.
  intros Hu. unfold Qeq, Qdiv, Qmult, Qinv, inject_Z. cbn [Qnum Qden].
  destruct u as [|u|u]; try lia. cbn. lia.
Qed.

Lemma entry_transpose (n : nat) (M : matrix) (i j : nat) :
  (i < n)%nat -> (j < n)%nat -> entry (transpose n M) i j = entry M j i.
Proof.
  intros Hi Hj. unfold transpose. unfold entry at 1.
  rewrite lookup_map_seq by exact Hi. cbn.
  rewrite lookup_map_seq by exact Hj. reflexivity.
Qed.

Lemma square_transpose (n : nat) (M : matrix) : square n (transpose n M).
Proof.
  unfold square, transpose. rewrite length_map, length_seq. split; [reflexivity|].
  apply Forall_forall. intros row (i & -> & _)%list_elem_of_fmap.
  now rewrite length_map, length_seq.
Qed.

Lemma row_sum_transpose (n : nat) (M : matrix) (i : nat) :
  square n M -> (i < n)%nat -> row_sum (transpose n M) i = col_sum M i.
Proof.
  intros [L _] Hi. unfold row_sum, col_sum, transpose.
  rewrite lookup_map_seq by exact Hi. cbn. f_equal.
  apply list_eq. intros k. change (map ?f ?l) with (f <$> l).
  rewrite !list_lookup_fmap. unfold entry.
  destruct (M !! k) as [row|] eqn:E.
  - rewrite lookup_seq_lt by (apply lookup_lt_Some in E; lia). cbn. now rewrite E.
  - rewrite lookup_seq_ge by (apply lookup_ge_None in E; lia). reflexivity.
Qed.

Lemma col_sum_transpose (n : nat) (M : matrix) (i : nat) :
  square n M -> (i < n)%nat -> col_sum (transpose n M) i = row_sum M i.
Proof.
  intros HM Hi. destruct (square_lookup n M i HM Hi) as (row & Hrow & Lrow).
  unfold row_sum, col_sum, transpose. rewrite Hrow. cbn. f_equal.
  rewrite map_map. apply list_eq. intros k.
  change (map ?f ?l) with (f <$> l). rewrite list_lookup_fmap.
  destruct (Nat.lt_ge_cases k n) as [Hk|Hk].
  - rewrite lookup_seq_lt by exact Hk. cbn.
    rewrite lookup_map_seq by exact Hi. cbn. unfold entry. rewrite Hrow. cbn.
    destruct (lookup_lt_is_Some_2 row k ltac:(lia)) as [x Hx]. now rewrite Hx.
  - rewrite lookup_seq_ge by exact Hk. cbn. symmetry. apply lookup_ge_None. lia.
Qed.

End MetricRelations.

(** X3.  Exchanging ground truth and prediction (transposing the
    confusion matrix) leaves every IoU unchanged and exchanges precision
    with recall. *)
Theorem metrics_of_transpose (n : nat) (M : matrix) :
  square n M ->
  get_iou (transpose n M) = get_iou M
  /\ get_precision_recall (transpose n M)
     = ((get_precision_recall M).2, (get_precision_recall M).1).
Proof.
  intros HM. pose proof (square_transpose n M) as HT.
  assert (Hiou : get_iou (transpose n M) = get_iou M).
  { apply (list_eq_same_length _ _ n); [now apply get_iou_length.. |].
    intros i x y Hi Hx Hy.
    rewrite (get_iou_lookup n _ i HT Hi) in Hx.
    rewrite (get_iou_lookup n _ i HM Hi) in Hy.
    rewrite entry_transpose, row_sum_transpose, col_sum_transpose in Hx by assumption.
    rewrite (Z.add_comm (col_sum M i)) in Hx. congruence. }
  split; [exact Hiou|].
  destruct (get_precision_recall_length n _ HT) as [L1 L2].
  destruct (get_precision_recall_length n _ HM) as [L1' L2'].
  rewrite (surjective_pairing (get_precision_recall (transpose n M))).
  f_equal.
  - apply (list_eq_same_length _ _ n); [assumption.. |].
    intros i x y Hi Hx Hy.
    rewrite (proj1 (get_precision_recall_lookup n _ i HT Hi)) in Hx.
    rewrite (proj2 (get_precision_recall_lookup n _ i HM Hi)) in Hy.
    rewrite entry_transpose, col_sum_transpose in Hx by assumption. congruence.
  - apply (list_eq_same_length _ _ n); [assumption.. |].
    intros i x y Hi Hx Hy.
    rewrite (proj2 (get_precision_recall_lookup n _ i HT Hi)) in Hx.
    rewrite (proj1 (get_precision_recall_lookup n _ i HM Hi)) in Hy.
    rewrite entry_transpose, row_sum_transpose in Hx by assumption. congruence.
Qed.

Lemma metrics_of_transpose_witness :
  get_precision_recall (transpose 2 [[5; 1]; [2; 3]])
  = ((get_precision_recall [[5; 1]; [2; 3]]).2, (get_precision_recall [[5; 1]; [2; 3]]).1).
Proof.
  assert (Hsq : square 2 [[5; 1]; [2; 3]]) by (split; [reflexivity | repeat constructor]).
  exact (proj2 (metrics_of_transpose 2 [[5; 1]; [2; 3]] Hsq)).
Defined.

(** X4.  Where the float32 casts are exact (union at most 2^24), the IoU
    of a class never exceeds its precision or its recall. *)
Theorem iou_below_precision_and_recall (n : nat) (M : matrix) (i : nat) :
  square n M -> nonneg M -> (i < n)%nat ->
  row_sum M i + col_sum M i - entry M i i <= 16777216 ->
  exists iou precision recall,
    get_iou M !! i = Some iou
    /\ (get_precision_recall M).1 !! i = Some precision
    /\ (get_precision_recall M).2 !! i = Some recall
    /\ (iou <= precision)%Q /\ (iou <= recall)%Q.
Proof.
  intros HM HN Hi Hsmall.
  destruct (entry_bounds n M i i HM HN Hi Hi) as [Hrow Hcol].
  destruct (get_precision_recall_lookup n M i HM Hi) as [P1 P2].
  pose proof (get_iou_lookup n M i HM Hi) as PI. cbv zeta in PI.
  set (a := entry M i i) in *. set (r := row_sum M i) in *. set (c := col_sum M i) in *.
  set (u := if r + c - a =? 0 then 1 else r + c - a) in *.
  assert (0 < u <= 16777216 /\ c `max` 1 <= u /\ r `max` 1 <= u) as (Hu & Hcu & Hru).
  { unfold u. destruct (Z.eqb_spec (r + c - a) 0); lia. }
  rewrite (float64_exact a), (float64_exact c), float32_exact in P1 by lia.
  rewrite (float64_exact a), (float64_exact r), float32_exact in P2 by lia.
  rewrite (float64_exact a), float32_exact in PI by lia.
  eexists _, _, _. split; [exact PI|]. split; [exact P1|]. split; [exact P2|].
  split; apply ratio_antitone; lia.
Qed.

Lemma iou_below_precision_and_recall_witness :
  exists iou precision recall,
    get_iou [[5; 1]; [2; 3]] !! 0%nat = Some iou
    /\ (get_precision_recall [[5; 1]; [2; 3]]).1 !! 0%nat = Some precision
    /\ (get_precision_recall [[5; 1]; [2; 3]]).2 !! 0%nat = Some recall
    /\ (iou <= precision)%Q /\ (iou <= recall)%Q.
Proof.
  assert (Hsq : square 2 [[5; 1]; [2; 3]]) by (split; [reflexivity | repeat constructor]).
  assert (Hnn : nonneg [[5; 1]; [2; 3]]) by (repeat constructor; lia).
  exact (iou_below_precision_and_recall 2 [[5; 1]; [2; 3]] 0 Hsq Hnn
           ltac:(lia) ltac:(vm_compute; discriminate)).
Defined.

(** X5.  Where the float32 cast is exact, the IoU of a class is 1
    exactly when the class occurs and is never confused: its row sum and
    its column sum both equal its positive diagonal entry. *)
Theorem iou_one_iff_unconfused (n : nat) (M : matrix) (i : nat) :
  square n M -> nonneg M -> (i < n)%nat ->
  row_sum M i + col_sum M i - entry M i i <= 16777216 ->
  exists iou,
    get_iou M !! i = Some iou
    /\ ((iou == 1)%Q
        <-> 0 < entry M i i /\ row_sum M i = entry M i i /\ col_sum M i = entry M i i).
Proof.
  intros HM HN Hi Hsmall.
  destruct (entry_bounds n M i i HM HN Hi Hi) as [Hrow Hcol].
  pose proof (get_iou_lookup n M i HM Hi) as PI. cbv zeta in PI.
  set (a := entry M i i) in *. set (r := row_sum M i) in *. set (c := col_sum M i) in *.
  set (u := if r + c - a =? 0 then 1 else r + c - a) in *.
  assert (0 < u <= 16777216) as Hu
    by (unfold u; destruct (Z.eqb_spec (r + c - a) 0); lia).
  rewrite (float64_exact a), float32_exact in PI by lia.
  eexists. split; [exact PI|].
  rewrite ratio_one by lia. unfold u.
  destruct (Z.eqb_spec (r + c - a) 0); lia.
Qed.

Lemma iou_one_iff_unconfused_witness :
  exists iou,
    get_iou [[4; 0]; [0; 0]] !! 0%nat = Some iou
    /\ ((iou == 1)%Q
        <-> 0 < entry [[4; 0]; [0; 0]] 0 0
            /\ row_sum [[4; 0]; [0; 0]] 0 = entry [[4; 0]; [0; 0]] 0 0
            /\ col_sum [[4; 0]; [0; 0]] 0 = entry [[4; 0]; [0; 0]] 0 0).
Proof.
  assert (Hsq : square 2 [[4; 0]; [0; 0]]) by (split; [reflexivity | repeat constructor]).
  assert (Hnn : nonneg [[4; 0]; [0; 0]]) by (repeat constructor; lia).
  exact (iou_one_iff_unconfused 2 [[4; 0]; [0; 0]] 0 Hsq Hnn
           ltac:(lia) ltac:(vm_compute; discriminate)).
Defined.

(** ** Semantic predictions *)

Section SemanticPredictions.
Local Open Scope nat_scope.

Lemma argmax_from_spec (l pre : list Q) (best : Q) (best_i : nat) :
  pre !! best_i = Some best ->
  Forall (fun y => (y <= best)%Q) pre ->
  exists x,
    (pre ++ l) !! argmax_from best best_i (length pre) l = Some x
    /\ Forall (fun y => (y <= x)%Q) (pre ++ l).
Proof.
  revert pre best best_i. induction l as [|y l IH]; intros pre best best_i Hb Hall.
  - rewrite app_nil_r. cbn. eauto.
  - cbn [argmax_from].
    replace (S (length pre)) with (length (pre ++ [y])) by (rewrite length_app; simpl; lia).
    replace (pre ++ y :: l) with ((pre ++ [y]) ++ l) by (now rewrite <- app_assoc).
    destruct (Qle_bool y best) eqn:Hcmp.
    + apply Qle_bool_iff in Hcmp. apply IH.
      * rewrite lookup_app_l by (eapply lookup_lt_Some; eauto). exact Hb.
      * apply Forall_app. split; [exact Hall | now constructor].
    + assert (best < y)%Q as Hlt.
      { apply Qnot_le_lt. intros Hle. apply Qle_bool_iff in Hle. congruence. }
      rewrite length_app. cbn [length]. rewrite Nat.add_1_r.
      replace (S (length pre)) with (length (pre ++ [y])) by (rewrite length_app; simpl; lia).
      apply IH.
      * apply list_lookup_middle. reflexivity.
      * apply Forall_app. split.
        -- eapply Forall_impl; [exact Hall|]. intros z Hz. cbv beta in Hz.
           eapply Qle_trans; [exact Hz | now apply Qlt_le_weak].
        -- constructor; [apply Qle_refl | constructor].
Qed.

(** [np.argmax] of a non-empty list returns a position holding a
    maximal element. *)
Lemma np_argmax_spec (l : list Q) :
  l <> [] ->
  exists k x, np_argmax l = Ok k /\ l !! k = Some x
              /\ Forall (fun y => (y <= x)%Q) l.
Proof.
  destruct l as [|x0 l]; [congruence|]. intros _.
  destruct (argmax_from_spec l [x0] x0 0 eq_refl) as (x & Hx & Hall).
  { constructor; [apply Qle_refl | constructor]. }
  cbn [app length] in Hx, Hall. exists (argmax_from x0 0 1 l), x. auto.
Qed.

Lemma mapM_pointwise {X Y} (f : X -> result Y) (P : X -> Y -> Prop) (l : list X) :
  (forall x, x ∈ l -> exists y, f x = Ok y /\ P x y) ->
  exists k, mapM f l = Ok k /\ Forall2 P l k.
Proof.
  induction l as [|x l IH]; intros Hl.
  - exists []. split; [reflexivity | constructor].
  - destruct (Hl x (list_elem_of_here _ _)) as (y & Hy & HP).
    destruct IH as (k & Hk & HF); [intros z Hz; apply Hl; now apply list_elem_of_further|].
    exists (y :: k). split; [|now constructor].
    apply mapM_ok. constructor; [exact Hy | now apply mapM_ok].
Qed.

Variables (logits : tensor Q) (B C H W : nat).
Hypothesis logits_shape : sizes logits = [B; C; H; W].
Hypothesis logits_wf : wf_tensor logits = true.
Hypothesis channels : 0 < C.

(** The channel [_logits.max(1)] selects at one pixel. *)
Lemma argmax_channel (b i j : nat) :
  b < B -> i < H -> j < W ->
  exists c,
    (scores ← mapM (fun c => tget logits (take 1 [b; i; j] ++ c :: drop 1 [b; i; j]))
                   (seq 0 C);
     Z.of_nat <$> np_argmax scores) = Ok (Z.of_nat c)
    /\ best_channel logits C b i j c.
Proof.
  intros Hb Hi Hj. cbn [take drop app].
  destruct (mapM_pointwise (fun c => tget logits [b; c; i; j])
              (fun c s => tget logits [b; c; i; j] = Ok s) (seq 0 C))
    as (scores & Hscores & HF).
  { intros c Hc%elem_of_seq.
    destruct (wf_tensor_get logits [b; c; i; j] logits_wf) as (s & Hs & _);
      [rewrite logits_shape; apply in_bounds4; lia | eauto]. }
  rewrite Hscores. cbn [mbind result_bind].
  pose proof (Forall2_length _ _ _ HF) as Hlen. rewrite length_seq in Hlen.
  destruct (np_argmax_spec scores) as (k & s & Hk & Hs & Hmax).
  { intros ->. simpl in Hlen. lia. }
  rewrite Hk. cbn [fmap result_fmap]. exists k. split; [reflexivity|].
  pose proof (lookup_lt_Some _ _ _ Hs) as Hkc.
  split; [lia|]. exists s. split.
  - assert (seq 0 C !! k = Some k) as Hseq by (apply lookup_seq_lt; lia).
    exact (Forall2_lookup_lr _ _ _ _ _ _ HF Hseq Hs).
  - intros c' Hc'.
    assert (seq 0 C !! c' = Some c') as Hseq by (apply lookup_seq_lt; lia).
    destruct (Forall2_lookup_l _ _ _ _ _ HF Hseq) as (s' & Hs' & Hget).
    exists s'. split; [exact Hget|].
    exact (proj1 (Forall_lookup _ _) Hmax _ _ Hs').
Qed.

Lemma argmax_dim_channels :
  exists data,
    argmax_dim logits 1 = Ok (Tensor data [B; H; W] (contiguous_strides [B; H; W]))
    /\ length data = B * H * W
    /\ forall b i j, b < B -> i < H -> j < W ->
         exists c, data !! pixel H W b i j = Some (Z.of_nat c)
                   /\ best_channel logits C b i j c.
Proof.
  unfold argmax_dim. rewrite logits_shape. cbn [lookup list_lookup delete list_delete].
  destruct (mapM_pointwise
              (fun idx =>
                 scores ← mapM (fun c => tget logits (take 1 idx ++ c :: drop 1 idx))
                               (seq 0 C);
                 Z.of_nat <$> np_argmax scores)
              (fun idx v => exists b i j c, idx = [b; i; j] /\ v = Z.of_nat c
                                            /\ best_channel logits C b i j c)
              (all_indices [B; H; W])) as (data & Hdata & HF).
  { intros idx Hidx%elem_of_all_indices.
    destruct (in_bounds3_inv B H W idx Hidx) as (b & i & j & -> & Hb & Hi & Hj).
    destruct (argmax_channel b i j Hb Hi Hj) as (c & Hc & Hbest).
    exists (Z.of_nat c). split; [exact Hc|]. exists b, i, j, c. auto. }
  exists data. rewrite Hdata. cbn [mbind result_bind]. split; [reflexivity|].
  pose proof (Forall2_length _ _ _ HF) as Hlen. rewrite length_all_indices in Hlen.
  split; [simpl in Hlen; lia|].
  intros b i j Hb Hi Hj.
  pose proof (all_indices_lookup [B; H; W] [b; i; j] (in_bounds3 B H W b i j Hb Hi Hj)) as Hk.
  rewrite pixel_offset in Hk.
  destruct (Forall2_lookup_l _ _ _ _ _ HF Hk) as (v & Hv & b' & i' & j' & c & E & -> & Hbest).
  injection E as <- <- <-. eauto.
Qed.

End SemanticPredictions.

(** X6.  For logits of shape (B, C, H, W) with at least one channel and
    annotations of shape (B, H, W), [numpyify_logits_and_annotations]
    returns B*H*W predictions and B*H*W labels; the prediction of a pixel
    is the index of a channel whose score no other channel exceeds, and
    the label is the pixel's annotation, unchanged. *)
Theorem numpyify_predictions (logits : tensor Q) (anno : tensor Z) (B C H W : nat) :
  sizes logits = [B; C; H; W] -> wf_tensor logits = true -> (0 < C)%nat ->
  sizes anno = [B; H; W] -> wf_tensor anno = true ->
  exists preds gts,
    numpyify_logits_and_annotations logits anno true = Ok (tensor1 preds, tensor1 gts)
    /\ length preds = (B * H * W)%nat
    /\ length gts = (B * H * W)%nat
    /\ forall b i j, (b < B)%nat -> (i < H)%nat -> (j < W)%nat ->
         exists c a,
           preds !! pixel H W b i j = Some (Z.of_nat c)
           /\ best_channel logits C b i j c
           /\ tget anno [b; i; j] = Ok a
           /\ gts !! pixel H W b i j = Some a.
Proof.
  intros Hls Hlwf HC Has Hawf.
  destruct (argmax_dim_channels logits B C H W Hls Hlwf HC) as (preds & Hmax & Hplen & Hpix).
  destruct (row_major_wf anno Hawf) as (gts & Hgts & Hglen & Hgget).
  rewrite Has in Hgget. unfold numel in Hglen. rewrite Has in Hglen.
  assert (Hnum : prod_list [B; H; W] = (B * H * W)%nat) by (simpl; lia).
  rewrite Hnum in Hglen.
  exists preds, gts. split.
  { unfold numpyify_logits_and_annotations. rewrite Hmax. cbn [mbind result_bind].
    assert (exists sz str,
               squeeze (Tensor preds [B; H; W] (contiguous_strides [B; H; W])) 1
               = Ok (Tensor preds sz str)
               /\ is_contiguous (Tensor preds sz str) = true) as (sz & str & -> & Hc).
    { unfold squeeze. cbn [sizes strides lookup list_lookup].
      destruct H as [|[|H']].
      - eexists _, _. split; [reflexivity|].
        unfold is_contiguous, numel. cbn [sizes strides storage].
        rewrite bool_decide_eq_true_2 by reflexivity.
        apply Nat.eqb_eq. rewrite Hplen. simpl. lia.
      - eexists _, _. split; [reflexivity|].
        unfold is_contiguous, numel. cbn [sizes strides storage delete list_delete].
        rewrite bool_decide_eq_true_2 by (cbn; do 2 f_equal; lia).
        apply Nat.eqb_eq. rewrite Hplen. simpl. lia.
      - eexists _, _. split; [reflexivity|].
        unfold is_contiguous, numel. cbn [sizes strides storage].
        rewrite bool_decide_eq_true_2 by reflexivity.
        apply Nat.eqb_eq. rewrite Hplen. simpl. lia. }
    cbn [mbind result_bind]. unfold np_flatten.
    rewrite (row_major_contiguous _ Hc), Hgts. reflexivity. }
  split; [exact Hplen|]. split; [exact Hglen|].
  intros b i j Hb Hi Hj.
  destruct (Hpix b i j Hb Hi Hj) as (c & Hc & Hbest).
  destruct (Hgget [b; i; j] (in_bounds3 B H W b i j Hb Hi Hj)) as (a & Ha & Hga).
  rewrite pixel_offset in Hga. exists c, a. auto.
Qed.

Lemma numpyify_predictions_witness :
  exists preds gts,
    numpyify_logits_and_annotations
      (Tensor (map inject_Z [5; 1; 2; 7]) [1; 2; 1; 2]%nat [4; 2; 2; 1]%nat)
      (Tensor [0; 1] [1; 1; 2]%nat [2; 2; 1]%nat) true
    = Ok (tensor1 preds, tensor1 gts)
    /\ length preds = 2%nat.
Proof.
  destruct (numpyify_predictions
              (Tensor (map inject_Z [5; 1; 2; 7]) [1; 2; 1; 2]%nat [4; 2; 2; 1]%nat)
              (Tensor [0; 1] [1; 1; 2]%nat [2; 2; 1]%nat)
              1 2 1 2 eq_refl eq_refl ltac:(lia) eq_refl eq_refl)
    as (preds & gts & Hrun & Hlen & _).
  exists preds, gts. split; [exact Hrun | exact Hlen].
Defined.

(** ** Labels without a channel *)

Section MissingChannel.

Lemma tget_raise {X} (t : tensor X) (idx : list nat) (e : exn) :
  tget t idx = Raise e -> e = IndexError.
Proof.
  unfold tget. destruct (in_bounds idx (sizes t)); [|congruence].
  destruct (storage t !! flat_offset idx (strides t)); congruence.
Qed.

Lemma py_indices_raise (sz : list nat) (idx : list Z) (e : exn) :
  py_indices sz idx = Raise e -> e = IndexError.
Proof.
  revert idx. induction sz as [|n sz IH]; intros [|i idx]; cbn [py_indices];
    try congruence.
  unfold py_index.
  destruct ((0 <=? i) && (i <? Z.of_nat n));
    [|destruct ((- Z.of_nat n <=? i) && (i <? 0)); [|cbn; congruence]];
    cbn [mbind result_bind];
    (destruct (py_indices sz idx) eqn:E; cbn [mbind result_bind];
     [congruence | intros [= <-]; now apply (IH idx)]).
Qed.

Lemma tget_py_raise {X} (t : tensor X) (idx : list Z) (e : exn) :
  tget_py t idx = Raise e -> e = IndexError.
Proof.
  unfold tget_py. destruct (py_indices (sizes t) idx) eqn:E; cbn [mbind result_bind].
  - apply tget_raise.
  - intros [= <-]. eapply py_indices_raise, E.
Qed.

Lemma aided_prediction_raise (logits : tensor Q) (anno : tensor Z)
    (idx : list nat) (e : exn) :
  aided_prediction logits anno idx = Raise e -> e = IndexError.
Proof.
  unfold aided_prediction.
  destruct (tget anno idx) as [a|e0] eqn:Ha; cbn [mbind result_bind];
    [|intros [= <-]; eapply tget_raise, Ha].
  destruct idx as [|b [|i [|j [|k idx]]]]; try congruence.
  unfold OutputsTonpGt.to_pair.
  destruct (a >? num_to_aggregate); cbn [mapM];
    repeat match goal with
    | |- context [tget_py ?t ?ix] =>
        let E := fresh "E" in
        destruct (tget_py t ix) eqn:E; cbn [mbind result_bind mret result_ret];
        [|intros [= <-]; eapply tget_py_raise, E]
    end;
    rewrite np_argmax_pair; cbn [mbind result_bind];
    match goal with |- context [Qle_bool ?x ?y] => destruct (Qle_bool x y) end;
    cbn; congruence.
Qed.

Lemma for_each_raises {S I} (body : S -> I -> result S) (l : list I) (bad : I) :
  (forall s i e, body s i = Raise e -> e = IndexError) ->
  bad ∈ l -> (forall s, is_ok (body s bad) = false) ->
  forall s, for_each body s l = Raise IndexError.
Proof.
  intros Honly Hin Hbad. induction l as [|i l IH]; intros s; [inversion Hin|].
  cbn [for_each]. destruct (body s i) as [s'|e] eqn:E; cbn [mbind result_bind].
  - apply elem_of_cons in Hin as [->|Hin].
    + specialize (Hbad s). rewrite E in Hbad. discriminate.
    + now apply IH.
  - f_equal. eapply Honly, E.
Qed.

Lemma py_index_beyond (n : nat) (c : Z) :
  Z.of_nat n <= c -> py_index n c = Raise IndexError.
Proof.
  intros Hc. unfold py_index.
  rewrite (proj2 (Z.ltb_ge c (Z.of_nat n))) by lia. rewrite andb_false_r.
  rewrite (proj2 (Z.ltb_ge c 0)) by lia. rewrite andb_false_r. reflexivity.
Qed.

Lemma missing_channel_raises (logits : tensor Q) (B C H W b i j : nat) (c : Z) :
  sizes logits = [B; C; H; W] -> Z.of_nat C <= c ->
  is_ok (tget_py logits [Z.of_nat b; c; Z.of_nat i; Z.of_nat j]) = false.
Proof.
  intros Hsz Hc. unfold tget_py. rewrite Hsz. cbn [py_indices].
  destruct (py_index B (Z.of_nat b)); [|reflexivity]. cbn [mbind result_bind].
  rewrite (py_index_beyond C c Hc). reflexivity.
Qed.

End MissingChannel.

(** X7.  When some pixel carries a positive label other than 255 whose
    part channel (the label itself above 20, the label plus 20
    otherwise) lies beyond the channels of the logits, [outputs_tonp_gt]
    raises an index error, whatever the other pixels are. *)
Theorem outputs_tonp_gt_missing_channel_raises (logits : tensor Q) (anno : tensor Z)
    (B C H W b i j : nat) (a : Z) (flatten : bool) :
  sizes logits = [B; C; H; W] -> sizes anno = [B; H; W] -> wf_tensor anno = true ->
  (b < B)%nat -> (i < H)%nat -> (j < W)%nat ->
  tget anno [b; i; j] = Ok a -> 0 < a -> a <> 255 ->
  Z.of_nat C <= (if a >? 20 then a else a + 20) ->
  outputs_tonp_gt logits anno flatten = Raise IndexError.
Proof.
  intros Hls Has Hawf Hb Hi Hj Ha Hpos Hne Hch. unfold outputs_tonp_gt.
  rewrite (true_indices_wf _ (wf_tmap _ anno Hawf)). cbn [mbind result_bind].
  change (sizes (tmap _ anno)) with (sizes anno). rewrite Has.
  rewrite (for_each_raises _ _ [b; i; j]); [reflexivity | | |].
  - intros s idx e.
    destruct (aided_prediction logits anno idx) as [v|e0] eqn:E; cbn [mbind result_bind].
    + unfold tset. destruct (in_bounds idx (sizes s)); congruence.
    + intros [= <-]. eapply aided_prediction_raise, E.
  - apply list_elem_of_filter. split.
    + apply (foreground_mask anno _ a Ha). auto.
    + apply elem_of_all_indices. now apply in_bounds3.
  - intros s. unfold aided_prediction. rewrite Ha. cbn [mbind result_bind].
    unfold OutputsTonpGt.to_pair, num_to_aggregate.
    destruct (a >? 20); cbn [mapM].
    + destruct (tget_py logits [Z.of_nat b; a - 20; Z.of_nat i; Z.of_nat j]);
        [|reflexivity]. cbn [mbind result_bind].
      pose proof (missing_channel_raises logits B C H W b i j a Hls Hch) as Hbad.
      destruct (tget_py logits [Z.of_nat b; a; Z.of_nat i; Z.of_nat j]);
        [discriminate | reflexivity].
    + pose proof (missing_channel_raises logits B C H W b i j (a + 20) Hls Hch) as Hbad.
      destruct (tget_py logits [Z.of_nat b; a; Z.of_nat i; Z.of_nat j]);
        [|reflexivity]. cbn [mbind result_bind].
      destruct (tget_py logits [Z.of_nat b; a + 20; Z.of_nat i; Z.of_nat j]);
        [discriminate | reflexivity].
Qed.

Lemma outputs_tonp_gt_missing_channel_raises_witness :
  outputs_tonp_gt
    (Tensor (map inject_Z (seqZ 0 82)) [1; 41; 1; 2]%nat [82; 2; 2; 1]%nat)
    (Tensor [3; 41] [1; 1; 2]%nat [2; 2; 1]%nat) true
  = Raise IndexError.
Proof.
  exact (outputs_tonp_gt_missing_channel_raises
           (Tensor (map inject_Z (seqZ 0 82)) [1; 41; 1; 2]%nat [82; 2; 2; 1]%nat)
           (Tensor [3; 41] [1; 1; 2]%nat [2; 2; 1]%nat)
           1 41 1 2 0 0 1 41 true eq_refl eq_refl eq_refl
           ltac:(lia) ltac:(lia) ltac:(lia) eq_refl ltac:(lia) ltac:(lia) ltac:(simpl; lia)).
Defined.

(** ** Flattening with an arbitrary class count *)

Section FlattenAnyClassCount.
Context {A : Type}.
Local Open Scope nat_scope.

Lemma infer_rows_any (n : nat) (K : Z) :
  infer_shape n [-1; K]%Z
  = if (0 <? K)%Z && (n mod Z.to_nat K =? 0)
    then Ok [n / Z.to_nat K; Z.to_nat K]
    else Raise RuntimeError.
Proof.
  unfold infer_shape.
  rewrite filter_cons_False by (intros Hne; now apply Hne).
  destruct (decide (K = (-1)%Z)) as [->|Hne].
  { rewrite filter_cons_False by (intros Hne; now apply Hne). reflexivity. }
  rewrite filter_cons_True by exact Hne.
  cbn [filter list_filter forallb length Nat.sub map prod_list foldr].
  rewrite Nat.mul_1_r.
  destruct (Z.ltb_spec 0 K) as [Hpos|Hle]; cbn [andb].
  - rewrite (proj2 (Z.leb_le 0 K)) by lia. cbn [andb].
    rewrite (proj2 (Nat.eqb_neq (Z.to_nat K) 0)) by lia.
    destruct (n mod Z.to_nat K =? 0); [|reflexivity].
    cbn [Z.eqb]. destruct (Z.eqb_spec K (-1)); [lia | reflexivity].
  - destruct (Z.leb_spec 0 K) as [H0|Hneg]; cbn [andb]; [|reflexivity].
    assert (K = 0%Z) as -> by lia. reflexivity.
Qed.

(** What [flatten_logits] computes for any class count: the permuted
    data read out in row-major order, reshaped only if the class count
    divides the number of elements. *)
Lemma flatten_logits_any (logits : tensor A) (B C H W : nat) (K : Z) :
  sizes logits = [B; C; H; W] -> wf_tensor logits = true ->
  exists data,
    length data = B * H * W * C
    /\ (forall b i j c, b < B -> i < H -> j < W -> c < C ->
          exists x, tget logits [b; c; i; j] = Ok x
                    /\ data !! (pixel H W b i j * C + c) = Some x)
    /\ flatten_logits logits K
       = if (0 <? K)%Z && ((B * H * W * C) mod Z.to_nat K =? 0)
         then Ok (Tensor data [B * H * W * C / Z.to_nat K; Z.to_nat K]
                         (contiguous_strides [B * H * W * C / Z.to_nat K; Z.to_nat K]))
         else Raise RuntimeError.
Proof.
  intros Hsz Hwf. destruct logits as [st sz str]. cbn [sizes] in Hsz. subst sz.
  assert (length str = 4) as Hstr.
  { apply andb_true_iff in Hwf as [Hl _]. now apply Nat.eqb_eq in Hl. }
  apply length4_inv in Hstr as (s0 & s1 & s2 & s3 & ->).
  pose proof (wf_permuted st B C H W s0 s1 s2 s3 Hwf) as Hwfp.
  destruct (row_major_wf _ Hwfp) as (data & Hdata & Hlen & Hget).
  cbn [sizes] in Hget. unfold numel in Hlen. cbn [sizes] in Hlen.
  assert (prod_list [B; H; W; C] = B * H * W * C) as Hnum by (simpl; lia).
  rewrite Hnum in Hlen.
  exists data. split; [exact Hlen|]. split.
  - intros b i j c Hb Hi Hj Hc.
    destruct (Hget [b; i; j; c] (in_bounds4 B H W C b i j c Hb Hi Hj Hc))
      as (x & Hx & Hd).
    rewrite tget_permuted in Hx. exists x. split; [exact Hx|].
    replace (pixel H W b i j * C + c)
      with (flat_offset [b; i; j; c] (contiguous_strides [B; H; W; C]))
      by (unfold flat_offset, pixel; simpl; unfold id; lia).
    exact Hd.
  - unfold flatten_logits. rewrite permute_0231. cbn [mbind result_bind].
    unfold contiguous. rewrite Hdata. cbn [mbind result_bind sizes].
    unfold view, is_contiguous, numel. cbn [sizes strides storage].
    rewrite bool_decide_eq_true_2 by reflexivity.
    rewrite Hnum, Hlen, Nat.eqb_refl. cbn [andb].
    rewrite infer_rows_any.
    destruct ((0 <? K)%Z && ((B * H * W * C) mod Z.to_nat K =? 0)); reflexivity.
Qed.

End FlattenAnyClassCount.

(** X8.  [flatten_logits] checks its class count only for
    divisibility: for logits of shape (B, C, H, W) it returns a
    (B*C*H*W / K, K) array for every positive [K] that divides the number
    of elements - also when [K] is not the channel count [C] - and raises
    for every other [K]. *)
Theorem flatten_logits_class_count {A} (logits : tensor A) (B C H W : nat) (K : Z) :
  sizes logits = [B; C; H; W] -> wf_tensor logits = true ->
  (0 < K /\ ((B * C * H * W) mod Z.to_nat K = 0)%nat ->
     exists fl, flatten_logits logits K = Ok fl
                /\ sizes fl = [(B * C * H * W / Z.to_nat K)%nat; Z.to_nat K])
  /\ (~ (0 < K /\ ((B * C * H * W) mod Z.to_nat K = 0)%nat) ->
      flatten_logits logits K = Raise RuntimeError).
Proof.
  intros Hsz Hwf.
  destruct (flatten_logits_any logits B C H W K Hsz Hwf) as (data & _ & _ & Hfl).
  replace (B * H * W * C)%nat with (B * C * H * W)%nat in Hfl by lia.
  split.
  - intros [HK Hdiv]. rewrite Hfl.
    rewrite (proj2 (Z.ltb_lt 0 K) HK), Hdiv. cbn. eauto.
  - intros Hn. rewrite Hfl.
    destruct (Z.ltb_spec 0 K); cbn [andb]; [|reflexivity].
    destruct (Nat.eqb_spec ((B * C * H * W) mod Z.to_nat K) 0); [tauto | reflexivity].
Qed.

Lemma flatten_logits_class_count_witness :
  exists fl,
    flatten_logits (Tensor [1; 2; 3; 4; 5; 6; 7; 8; 9; 10; 11; 12]
                           [1; 3; 2; 2]%nat [12; 4; 2; 1]%nat) 4 = Ok fl
    /\ sizes fl = [(1 * 3 * 2 * 2 / Z.to_nat 4)%nat; Z.to_nat 4].
Proof.
  apply (flatten_logits_class_count
           (Tensor [1; 2; 3; 4; 5; 6; 7; 8; 9; 10; 11; 12]
                   [1; 3; 2; 2]%nat [12; 4; 2; 1]%nat)
           1 3 2 2 4 eq_refl eq_refl).
  split; [lia | reflexivity].
Defined.

(** ** Gathering the valid pixels *)

Section ValidSelection.
Local Open Scope nat_scope.

Lemma in_bounds_cons_inv (idx : list nat) (n : nat) (rest : list nat) :
  in_bounds idx (n :: rest) = true ->
  exists r idx', idx = r :: idx' /\ r < n /\ in_bounds idx' rest = true.
Proof.
  destruct idx as [|r idx']; cbn [in_bounds]; [discriminate|].
  intros [Hr Hrest]%andb_true_iff. apply Nat.ltb_lt in Hr. eauto.
Qed.

(** [index_select] along dimension 0 with a vector of in-range
    positions: slice [r] of the result is slice [pos[r]] of the input. *)
Lemma index_select_rows {A} (input : tensor A) (N : nat) (rest pos : list nat) :
  sizes input = N :: rest -> wf_tensor input = true ->
  Forall (fun p => p < N) pos ->
  exists data,
    index_select input 0
      (LongTensor (Tensor (map Z.of_nat pos) [length pos] [1]))
    = Ok (Tensor data (length pos :: rest) (contiguous_strides (length pos :: rest)))
    /\ length data = length pos * prod_list rest
    /\ forall r p idx', pos !! r = Some p -> in_bounds idx' rest = true ->
         exists x, tget input (p :: idx') = Ok x
                   /\ data !! flat_offset (r :: idx') (contiguous_strides (length pos :: rest))
                      = Some x.
Proof.
  intros Hsz Hwf Hpos. unfold index_select. cbn [sizes]. rewrite Hsz.
  cbn [lookup list_lookup].
  rewrite row_major_contiguous.
  2:{ unfold is_contiguous, numel. cbn [sizes strides storage contiguous_strides prod_list foldr].
      rewrite bool_decide_eq_true_2 by reflexivity.
      rewrite length_map, Nat.mul_1_r, Nat.eqb_refl. reflexivity. }
  cbn [mbind result_bind storage].
  assert (forallb (fun k => (0 <=? k)%Z && (k <? Z.of_nat N)%Z) (map Z.of_nat pos) = true)
    as ->.
  { apply forallb_forall. intros k Hk. apply in_map_iff in Hk as (p & <- & Hp).
    apply list_elem_of_In in Hp. pose proof (proj1 (Forall_forall _ _) Hpos p Hp) as HpN.
    cbv beta in HpN. apply andb_true_iff. split; [apply Z.leb_le | apply Z.ltb_lt]; lia. }
  cbn [insert list_insert].
  destruct (mapM_pointwise
              (fun idx =>
                 match idx !! 0 ≫= (map Z.of_nat pos !!.) with
                 | Some k => tget input (<[0 := Z.to_nat k]> idx)
                 | None => Raise IndexError
                 end)
              (fun idx x => exists r idx' p, idx = r :: idx' /\ pos !! r = Some p
                                             /\ tget input (p :: idx') = Ok x)
              (all_indices (length pos :: rest))) as (data & Hdata & HF).
  { intros idx Hidx%elem_of_all_indices.
    apply in_bounds_cons_inv in Hidx as (r & idx' & -> & Hr & Hrest).
    destruct (lookup_lt_is_Some_2 pos r Hr) as [p Hp].
    pose proof (proj1 (Forall_lookup _ _) Hpos _ _ Hp) as HpN. cbv beta in HpN.
    cbn [lookup list_lookup mbind option_bind].
    change (map Z.of_nat pos) with (Z.of_nat <$> pos).
    rewrite list_lookup_fmap, Hp. cbn [fmap option_fmap option_map insert list_insert].
    rewrite Nat2Z.id.
    destruct (wf_tensor_get input (p :: idx') Hwf) as (x & Hx & _).
    { rewrite Hsz. cbn [in_bounds]. rewrite (proj2 (Nat.ltb_lt _ _) HpN). exact Hrest. }
    exists x. split; [exact Hx|]. exists r, idx', p. auto. }
  exists data. rewrite Hdata. cbn [mbind result_bind]. split; [reflexivity|].
  pose proof (Forall2_length _ _ _ HF) as Hlen. rewrite length_all_indices in Hlen.
  split; [now symmetry|].
  intros r p idx' Hp Hrest.
  assert (in_bounds (r :: idx') (length pos :: rest) = true) as Hin.
  { cbn [in_bounds]. rewrite (proj2 (Nat.ltb_lt _ _) (lookup_lt_Some _ _ _ Hp)). exact Hrest. }
  destruct (Forall2_lookup_l _ _ _ _ _ HF (all_indices_lookup _ _ Hin))
    as (x & Hx & r' & idx'' & p' & E & Hp' & Hget).
  injection E as <- <-. exists x. split; [congruence | exact Hx].
Qed.

Lemma valid_positions_spec (labels : list Z) (m : Z) (r p : nat) :
  valid_positions labels m !! r = Some p ->
  exists a, labels !! p = Some a /\ a <> m.
Proof.
  intros Hr. assert (p ∈ valid_positions labels m) as Hin
    by (apply list_elem_of_lookup; eauto).
  apply list_elem_of_filter in Hin as [Hne Hp%elem_of_seq].
  destruct (lookup_lt_is_Some_2 labels p ltac:(lia)) as [a Ha].
  exists a. split; [exact Ha | congruence].
Qed.

Lemma valid_positions_lt (labels : list Z) (m : Z) :
  Forall (fun p => p < length labels) (valid_positions labels m).
Proof.
  apply Forall_forall. intros p [_ Hp%elem_of_seq]%list_elem_of_filter. lia.
Qed.

End ValidSelection.

(** X9.  When at least one pixel is valid, [get_valid_annos] returns
    the valid positions in increasing order as a LongTensor together with
    the labels at those positions, and [get_valid_logits] with that index
    returns one row of scores per valid position: entry [r] of the labels
    and row [r] of the scores belong to the same pixel, and no returned
    label is the ignore value. *)
Theorem valid_pixels_aligned {A} (logits : tensor A) (anno : tensor Z)
    (B C H W : nat) (mask_out_value : Z) :
  sizes logits = [B; C; H; W] -> wf_tensor logits = true -> (0 < C)%nat ->
  sizes anno = [B; H; W] -> is_contiguous anno = true ->
  valid_positions (storage anno) mask_out_value <> [] ->
  let pos := valid_positions (storage anno) mask_out_value in
  let index := LongTensor (Tensor (map Z.of_nat pos) [length pos] [1%nat]) in
  exists labels rows,
    get_valid_annos anno mask_out_value = Ok (labels, index)
    /\ get_valid_logits logits index (Z.of_nat C) = Ok rows
    /\ sizes labels = [length pos]
    /\ sizes rows = [length pos; C]
    /\ forall r p, pos !! r = Some p ->
         exists b i j a,
           (b < B)%nat /\ (i < H)%nat /\ (j < W)%nat /\ p = pixel H W b i j
           /\ tget anno [b; i; j] = Ok a /\ a <> mask_out_value
           /\ tget labels [r] = Ok a
           /\ forall c, (c < C)%nat ->
                exists x, tget logits [b; c; i; j] = Ok x
                          /\ tget rows [r; c] = Ok x.
Proof.
  intros Hls Hlwf HC Has Hcont Hne pos index.
  destruct anno as [st asz astr]. cbn [sizes storage] in *. subst asz.
  pose proof Hcont as Hcont'.
  apply andb_true_iff in Hcont' as [Hastr Halen].
  apply bool_decide_eq_true in Hastr. apply Nat.eqb_eq in Halen.
  cbn [sizes strides storage] in Hastr, Halen. unfold numel in Halen.
  cbn [sizes] in Halen. subst astr.
  assert (Hnum : prod_list [B; H; W] = (B * H * W)%nat) by (simpl; lia).
  (* the annotations *)
  assert (Hfa : flatten_annotations (Tensor st [B; H; W] (contiguous_strides [B; H; W]))
                = Ok (tensor1 st)).
  { unfold flatten_annotations, view. rewrite Hcont. unfold numel. cbn [sizes storage].
    rewrite infer_flat. cbn [mbind result_bind]. unfold tensor1. now rewrite Halen. }
  pose proof (get_valid_annotations_index_vector st mask_out_value) as Hidx.
  fold pos in Hidx.
  assert (Hidx' : get_valid_annotations_index (tensor1 st) mask_out_value = Ok index).
  { rewrite Hidx. unfold index, pos.
    destruct (valid_positions st mask_out_value) eqn:E; [congruence | reflexivity]. }
  destruct (index_select_rows (tensor1 st) (length st) [] pos eq_refl
              (is_contiguous_wf _ (tensor1_contiguous st))
              (valid_positions_lt st mask_out_value))
    as (ldata & Hsel & _ & Hlget).
  (* the logits *)
  destruct (flatten_logits_any logits B C H W (Z.of_nat C) Hls Hlwf)
    as (fdata & Hflen & Hfget & Hfl).
  rewrite (proj2 (Z.ltb_lt 0 (Z.of_nat C))) in Hfl by lia.
  rewrite Nat2Z.id, Nat.Div0.mod_mul, Nat.div_mul in Hfl by lia. cbn in Hfl.
  assert (Hfwf : wf_tensor (Tensor fdata [(B * H * W)%nat; C]
                                   [(C * 1)%nat; 1%nat]) = true).
  { apply is_contiguous_wf. unfold is_contiguous, numel. cbn [sizes strides storage].
    rewrite bool_decide_eq_true_2 by reflexivity.
    apply Nat.eqb_eq. rewrite Hflen. simpl. lia. }
  assert (Hposlt : Forall (fun p => (p < B * H * W)%nat) pos).
  { rewrite <- Hnum, <- Halen. apply valid_positions_lt. }
  destruct (index_select_rows
              (Tensor fdata [(B * H * W)%nat; C] [(C * 1)%nat; 1%nat])
              (B * H * W) [C] pos eq_refl Hfwf Hposlt)
    as (rdata & Hrsel & _ & Hrget).
  eexists _, _. split.
  { unfold get_valid_annos. rewrite Hfa. cbn [mbind result_bind].
    rewrite Hidx'. cbn [mbind result_bind]. unfold index. rewrite Hsel. reflexivity. }
  split.
  { unfold get_valid_logits. rewrite Hfl. cbn [mbind result_bind]. exact Hrsel. }
  split; [reflexivity|]. split; [reflexivity|].
  intros r p Hp.
  pose proof (proj1 (Forall_lookup _ _) Hposlt _ _ Hp) as HpN. cbv beta in HpN.
  assert (p < length (all_indices [B; H; W]))%nat as Hk
    by (rewrite length_all_indices, Hnum; exact HpN).
  destruct (lookup_lt_is_Some_2 _ _ Hk) as [idx Hidxp].
  destruct (all_indices_lookup_offset _ _ _ Hidxp) as [Hoff Hin].
  destruct (in_bounds3_inv B H W idx Hin) as (b & i & j & -> & Hb & Hi & Hj).
  rewrite pixel_offset in Hoff.
  destruct (valid_positions_spec st mask_out_value r p Hp) as (a & Ha & Hav).
  exists b, i, j, a. repeat (split; [first [assumption | now symmetry]|]).
  split.
  { unfold tget. cbn [sizes strides storage].
    rewrite (in_bounds3 B H W b i j Hb Hi Hj), pixel_offset, Hoff, Ha. reflexivity. }
  split; [exact Hav|]. split.
  { destruct (Hlget r p [] Hp eq_refl) as (x & Hx & Hd).
    assert (x = a) as ->.
    { unfold tget, tensor1, flat_offset in Hx.
      cbn [sizes strides storage in_bounds zip_with sum_list sum_list_with] in Hx.
      unfold id in Hx. rewrite Nat.mul_1_r, Nat.add_0_r, Ha in Hx.
      destruct (p <? length st)%nat; cbn in Hx; congruence. }
    unfold tget. cbn [sizes strides storage in_bounds].
    rewrite (proj2 (Nat.ltb_lt _ _) (lookup_lt_Some _ _ _ Hp)). cbn [andb].
    now rewrite Hd. }
  intros c Hc.
  destruct (Hfget b i j c Hb Hi Hj Hc) as (x & Hx & Hfd). rewrite Hoff in Hfd.
  exists x. split; [exact Hx|].
  destruct (Hrget r p [c] Hp) as (x' & Hx' & Hd).
  { cbn [in_bounds]. now rewrite (proj2 (Nat.ltb_lt _ _) Hc). }
  assert (x' = x) as ->.
  { unfold tget, flat_offset in Hx'.
    cbn [sizes strides storage in_bounds zip_with sum_list sum_list_with] in Hx'.
    unfold id in Hx'.
    replace (p * (C * 1) + (c * 1 + 0))%nat with (p * C + c)%nat in Hx' by lia.
    rewrite Hfd in Hx'.
    destruct ((p <? B * H * W)%nat && ((c <? C)%nat && true)); congruence. }
  unfold tget. cbn [sizes strides storage in_bounds].
  rewrite (proj2 (Nat.ltb_lt _ _) (lookup_lt_Some _ _ _ Hp)),
    (proj2 (Nat.ltb_lt _ _) Hc). cbn [andb].
  now rewrite Hd.
Qed.

Lemma valid_pixels_aligned_witness :
  exists labels rows,
    get_valid_annos (Tensor [0; 255; 3; 255] [1; 2; 2]%nat [4; 2; 1]%nat) 255
    = Ok (labels, LongTensor (Tensor [0; 2] [2%nat] [1%nat]))
    /\ get_valid_logits (Tensor [1; 2; 3; 4; 5; 6; 7; 8; 9; 10; 11; 12]
                                [1; 3; 2; 2]%nat [12; 4; 2; 1]%nat)
                        (LongTensor (Tensor [0; 2] [2%nat] [1%nat])) 3
       = Ok rows
    /\ sizes rows = [2%nat; 3%nat].
Proof.
  destruct (valid_pixels_aligned
              (Tensor [1; 2; 3; 4; 5; 6; 7; 8; 9; 10; 11; 12]
                      [1; 3; 2; 2]%nat [12; 4; 2; 1]%nat)
              (Tensor [0; 255; 3; 255] [1; 2; 2]%nat [4; 2; 1]%nat)
              1 3 2 2 255 eq_refl eq_refl ltac:(lia) eq_refl eq_refl
              ltac:(discriminate))
    as (labels & rows & Hl & Hr & _ & Hs & _).
  exists labels, rows. split; [exact Hl|]. split; [exact Hr | exact Hs].
Defined.

(** ** Compressed object-part logits *)

Section Compression.
Local Open Scope nat_scope.

Lemma concat_pairs_lookup {X} (f g : X -> Z) (l : list X) (n : nat) (x : X) :
  l !! n = Some x ->
  concat (map (fun y => [f y; g y]) l) !! (n * 2) = Some (f x)
  /\ concat (map (fun y => [f y; g y]) l) !! (n * 2 + 1) = Some (g x).
Proof.
  revert n. induction l as [|y l IH]; intros [|n] Hn; try discriminate.
  - injection Hn as ->. split; reflexivity.
  - cbn [map concat app]. replace (S n * 2) with (S (S (n * 2))) by lia.
    cbn [lookup list_lookup Nat.add]. exact (IH n Hn).
Qed.

Lemma to_pair_shape (l : Z) :
  exists bit o p,
    CompressObjpartLogits.to_pair l 20 = (bit, [o; p])
    /\ (bit = (if (l >? 20)%Z then 1 else 0)%Z)
    /\ (o = (if (l >? 20)%Z then l - 20 else l)%Z)
    /\ (p = (if (l >? 20)%Z then l else l + 20)%Z).
Proof.
  unfold CompressObjpartLogits.to_pair. destruct (l >? 20)%Z; eexists _, _, _; eauto.
Qed.

Lemma in_bounds2_inv (idx : list nat) (n0 n1 : nat) :
  in_bounds idx [n0; n1] = true ->
  exists a b, idx = [a; b] /\ a < n0 /\ b < n1.
Proof.
  destruct idx as [|a [|b [|c l]]]; simpl; intros Hb;
    repeat (apply andb_true_iff in Hb as [?%Nat.ltb_lt Hb]); try discriminate.
  eauto.
Qed.

End Compression.

(** X10.  For an N x K score matrix and N labels that are not negative
    and whose part channel (the label itself above 20, the label plus 20
    otherwise) is below K, [compress_objpart_logits] returns an N x 2
    matrix holding, per row, the score of the object channel and the
    score of the part channel of the row's label, and a new label that is
    1 for a part label and 0 otherwise - the column in which the score of
    the original label ended up. *)
Theorem compress_objpart_logits_columns (logits : tensor Q) (labels : list Z)
    (K : nat) :
  sizes logits = [length labels; K] -> wf_tensor logits = true ->
  labels <> [] ->
  Forall (fun l => 0 <= l /\ (if l >? 20 then l else l + 20) < Z.of_nat K) labels ->
  exists compressed bits,
    compress_objpart_logits logits (tensor1 labels) = Ok (compressed, tensor1 bits)
    /\ sizes compressed = [length labels; 2%nat]
    /\ length bits = length labels
    /\ forall n l, labels !! n = Some l ->
         exists bit o p so sp,
           CompressObjpartLogits.to_pair l 20 = (bit, [o; p])
           /\ bits !! n = Some bit
           /\ l = (if bit =? 1 then p else o)
           /\ tget logits [n; Z.to_nat o] = Ok so
           /\ tget logits [n; Z.to_nat p] = Ok sp
           /\ tget compressed [n; 0%nat] = Ok so
           /\ tget compressed [n; 1%nat] = Ok sp.
Proof.
  intros Hsz Hwf Hne Hlab.
  set (N := length labels) in *.
  set (fo := fun l : Z => if l >? 20 then l - 20 else l).
  set (fp := fun l : Z => if l >? 20 then l else l + 20).
  assert (Hind : map snd (map (fun label => CompressObjpartLogits.to_pair label 20) labels)
                 = map (fun l => [fo l; fp l]) labels).
  { rewrite map_map. apply list_fmap_ext. intros n l _.
    unfold CompressObjpartLogits.to_pair, fo, fp. destruct (l >? 20); reflexivity. }
  assert (Hrange : forall n l, labels !! n = Some l ->
            (n < N)%nat /\ 0 <= fo l < Z.of_nat K /\ 0 <= fp l < Z.of_nat K).
  { intros n l Hl. split; [eapply lookup_lt_Some, Hl|].
    pose proof (proj1 (Forall_lookup _ _) Hlab _ _ Hl) as Hr. cbv beta in Hr.
    unfold fo, fp. destruct (Z.gtb_spec l 20); lia. }
  assert (Hscore : forall n c, (n < N)%nat -> 0 <= c < Z.of_nat K ->
            exists s, tget logits [n; Z.to_nat c] = Ok s).
  { intros n c Hn Hc.
    destruct (wf_tensor_get logits [n; Z.to_nat c] Hwf) as (s & Hs & _); [|eauto].
    rewrite Hsz. cbn [in_bounds].
    rewrite (proj2 (Nat.ltb_lt _ _) Hn), (proj2 (Nat.ltb_lt (Z.to_nat c) K)) by lia.
    reflexivity. }
  set (index := Tensor (concat (map (fun l => [fo l; fp l]) labels)) [N; 2%nat]
                       (contiguous_strides [N; 2%nat])).
  assert (Hindex : tensor2 (map (fun l => [fo l; fp l]) labels) = index).
  { unfold tensor2, index. destruct labels as [|l0 rest]; [contradiction|].
    cbn [map length]. unfold N. cbn [length]. now rewrite length_map. }
  assert (Higet : forall n l, labels !! n = Some l ->
            tget index [n; 0%nat] = Ok (fo l) /\ tget index [n; 1%nat] = Ok (fp l)).
  { intros n l Hl. destruct (Hrange n l Hl) as (Hn & _ & _).
    destruct (concat_pairs_lookup fo fp labels n l Hl) as [H0 H1].
    unfold tget, index, flat_offset.
    cbn [sizes strides storage in_bounds zip_with sum_list sum_list_with contiguous_strides
         prod_list foldr].
    unfold id. rewrite (proj2 (Nat.ltb_lt _ _) Hn). cbn [Nat.ltb Nat.leb andb].
    replace (n * (2 * 1) + (0 * 1 + 0))%nat with (n * 2)%nat by lia.
    replace (n * (2 * 1) + (1 * 1 + 0))%nat with (n * 2 + 1)%nat by lia.
    rewrite H0, H1. split; reflexivity. }
  destruct (mapM_pointwise
              (fun idx =>
                 k ← tget index idx;
                 if (0 <=? k) && (k <? Z.of_nat K)
                 then tget logits (<[1%nat := Z.to_nat k]> idx)
                 else Raise IndexError)
              (fun idx s => exists n c l, idx = [n; c] /\ labels !! n = Some l
                             /\ tget logits [n; Z.to_nat (if (c =? 0)%nat then fo l else fp l)]
                                = Ok s)
              (all_indices [N; 2%nat])) as (data & Hdata & HF).
  { intros idx Hidx%elem_of_all_indices.
    apply in_bounds2_inv in Hidx as (n & c & -> & Hn & Hc).
    destruct (lookup_lt_is_Some_2 labels n Hn) as [l Hl].
    destruct (Hrange n l Hl) as (_ & Ho & Hp).
    destruct (Higet n l Hl) as [Hi0 Hi1].
    destruct c as [|[|c]]; [| |lia].
    - rewrite Hi0. cbn [mbind result_bind].
      rewrite (proj2 (Z.leb_le 0 (fo l))), (proj2 (Z.ltb_lt (fo l) (Z.of_nat K))) by lia.
      cbn [andb insert list_insert].
      destruct (Hscore n (fo l) Hn Ho) as [s Hs].
      exists s. split; [exact Hs|]. exists n, 0%nat, l. auto.
    - rewrite Hi1. cbn [mbind result_bind].
      rewrite (proj2 (Z.leb_le 0 (fp l))), (proj2 (Z.ltb_lt (fp l) (Z.of_nat K))) by lia.
      cbn [andb insert list_insert].
      destruct (Hscore n (fp l) Hn Hp) as [s Hs].
      exists s. split; [exact Hs|]. exists n, 1%nat, l. auto. }
  exists (Tensor data [N; 2%nat] (contiguous_strides [N; 2%nat])),
         (map fst (map (fun label => CompressObjpartLogits.to_pair label 20) labels)).
  split.
  { unfold compress_objpart_logits. cbn [tensor1 sizes].
    change (Tensor labels [length labels] [1%nat]) with (tensor1 labels).
    rewrite (row_major_contiguous _ (tensor1_contiguous labels)).
    cbn [mbind result_bind tensor1 storage]. rewrite Hind, Hindex.
    unfold torch_gather. rewrite Hsz. cbn [lookup list_lookup].
    change (sizes index) with [N; 2%nat]. cbn [delete list_delete length].
    rewrite bool_decide_eq_true_2 by reflexivity. cbn [andb Nat.eqb].
    rewrite Hdata. reflexivity. }
  split; [reflexivity|]. split; [now rewrite !length_map|].
  intros n l Hl.
  destruct (to_pair_shape l) as (bit & o & p & Hpair & Hbit & Ho & Hp).
  destruct (Hrange n l Hl) as (Hn & Hor & Hpr).
  fold (fo l) in Ho. fold (fp l) in Hp. subst o p.
  assert (Hcol : forall c, (c < 2)%nat ->
            exists s, tget logits [n; Z.to_nat (if (c =? 0)%nat then fo l else fp l)] = Ok s
                      /\ tget (Tensor data [N; 2%nat] (contiguous_strides [N; 2%nat])) [n; c]
                         = Ok s).
  { intros c Hc.
    assert (in_bounds [n; c] [N; 2%nat] = true) as Hin.
    { cbn [in_bounds]. now rewrite (proj2 (Nat.ltb_lt _ _) Hn), (proj2 (Nat.ltb_lt _ _) Hc). }
    destruct (Forall2_lookup_l _ _ _ _ _ HF (all_indices_lookup _ _ Hin))
      as (s & Hs & n' & c' & l' & E & Hl' & Hget).
    injection E as <- <-. assert (l' = l) as -> by congruence.
    exists s. split; [exact Hget|].
    unfold tget. cbn [sizes strides storage]. now rewrite Hin, Hs. }
  destruct (Hcol 0%nat ltac:(lia)) as (so & Hso & Hco).
  destruct (Hcol 1%nat ltac:(lia)) as (sp & Hsp & Hcp).
  cbn [Nat.eqb] in Hso, Hsp.
  exists bit, (fo l), (fp l), so, sp.
  split; [exact Hpair|]. split.
  { rewrite map_map. change (map ?f ?x) with (f <$> x).
    rewrite list_lookup_fmap, Hl. cbn. now rewrite Hpair. }
  split.
  { subst bit. unfold fo, fp. destruct (l >? 20); reflexivity. }
  auto.
Qed.

Lemma compress_objpart_logits_columns_witness :
  exists compressed bits,
    compress_objpart_logits
      (Tensor (map inject_Z (seqZ 0 82)) [2; 41]%nat [41; 1]%nat) (tensor1 [3; 25])
    = Ok (compressed, tensor1 bits)
    /\ sizes compressed = [2%nat; 2%nat].
Proof.
  destruct (compress_objpart_logits_columns
              (Tensor (map inject_Z (seqZ 0 82)) [2; 41]%nat [41; 1]%nat) [3; 25] 41
              eq_refl eq_refl ltac:(discriminate)
              ltac:(repeat constructor; simpl; lia))
    as (compressed & bits & Hrun & Hs & _).
  exists compressed, bits. split; [exact Hrun | exact Hs].
Defined.

(** ** Rendered object/part masks *)

Section RenderedMasks.

Lemma relabel_values (v : Z) :
  0 <= v ->
  let v1 := if (v >? 0) && (v <? 21) then 1 else v in
  let v2 := if v1 >? 20 then 2 else v1 in
  (v = 0 -> v2 = 0) /\ (0 < v <= 20 -> v2 = 1) /\ (20 < v -> v2 = 2).
Proof.
  intros Hv. cbv zeta.
  destruct (Z.gtb_spec v 0), (Z.ltb_spec v 21); cbn [andb];
    repeat split; intros; try lia;
    match goal with |- context [?x >? 20] => destruct (Z.gtb_spec x 20) end; lia.
Qed.

End RenderedMasks.

(** X11.  In the ['objpart'] mode of [validate_and_output_images], for
    logits of shape (B, C, H, W) and semantic annotations of shape
    (B, H, W) with scorable labels, the rendered mask has the shape of the
    annotations and only the values 0, 1 and 2: 0 exactly at the pixels
    whose label is not strictly between 0 and 255, and at a pixel with an
    object label 1 <= a <= 20 it is 1 when the object channel [a] scores
    at least as high as the part channel [a + 20] and 2 otherwise. *)
Theorem rendered_objpart_mask (objpart_logits semantic_logits : tensor Q)
    (objpart_anno semantic_anno : tensor Z) (B C H W : nat) :
  sizes objpart_logits = [B; C; H; W] -> wf_tensor objpart_logits = true ->
  sizes semantic_anno = [B; H; W] -> wf_tensor semantic_anno = true ->
  forallb (label_ok C) (storage semantic_anno) = true ->
  exists prediction,
    rendered_prediction "objpart" objpart_logits semantic_logits
                        objpart_anno semantic_anno
    = Ok (prediction, semantic_anno)
    /\ sizes prediction = [B; H; W]
    /\ forall b i j, (b < B)%nat -> (i < H)%nat -> (j < W)%nat ->
         exists a v,
           tget semantic_anno [b; i; j] = Ok a
           /\ tget prediction [b; i; j] = Ok v
           /\ (v = 0 \/ v = 1 \/ v = 2)
           /\ (v = 0 <-> ~ 0 < a < 255)
           /\ (0 < a <= 20 ->
               exists so sp,
                 tget_py objpart_logits [Z.of_nat b; a; Z.of_nat i; Z.of_nat j] = Ok so
                 /\ tget_py objpart_logits [Z.of_nat b; a + 20; Z.of_nat i; Z.of_nat j]
                    = Ok sp
                 /\ (v = 1 <-> (sp <= so)%Q)
                 /\ (v = 2 <-> (so < sp)%Q)).
Proof.
  intros Hls Hlwf Has Hawf Hok.
  destruct (outputs_tonp_gt_pixelwise objpart_logits semantic_anno B C H W
              Hls Hlwf Has Hawf Hok) as (preds & gts & Hrun & Hplen & _ & Hpix).
  destruct (outputs_tonp_gt_unflattened _ _ _ _ Hrun) as (p & Hraw & Hps & Hflat).
  rewrite Has in Hps.
  set (f1 := fun v : Z => if (v >? 0) && (v <? 21) then 1 else v).
  set (f2 := fun v : Z => if v >? 20 then 2 else v).
  exists (tmap f2 (tmap f1 p)). split.
  { unfold rendered_prediction. cbn [String.eqb Ascii.eqb Bool.eqb andb].
    rewrite Hraw. reflexivity. }
  split; [exact Hps|].
  intros b i j Hb Hi Hj.
  destruct (Hpix b i j Hb Hi Hj) as (a & Ha & _ & Hcase).
  (* the raw prediction at the pixel *)
  assert (forall v0, preds !! pixel H W b i j = Some v0 -> tget p [b; i; j] = Ok v0) as Hraw_at.
  { intros v0 Hv0. unfold np_flatten in Hflat.
    destruct (row_major p) as [data|] eqn:Hrm; [|discriminate].
    cbn in Hflat. injection Hflat as <-.
    unfold row_major in Hrm. rewrite Hps in Hrm. apply mapM_ok in Hrm.
    pose proof (all_indices_lookup [B; H; W] [b; i; j] (in_bounds3 B H W b i j Hb Hi Hj)) as Hk.
    rewrite pixel_offset in Hk.
    destruct (Forall2_lookup_l _ _ _ _ _ Hrm Hk) as (x & Hx & Hget). congruence. }
  assert (forall v0, tget p [b; i; j] = Ok v0 ->
            tget (tmap f2 (tmap f1 p)) [b; i; j] = Ok (f2 (f1 v0))) as Hmap.
  { intros v0 Hv0. rewrite !tget_tmap, Hv0. reflexivity. }
  destruct Hcase as [[Hfg (obj & part & so & sp & Hp & Hobj & Hpart & Hso & Hsp & Hpred)]
                    |[Hbg Hpred]].
  - set (v0 := if Qle_bool sp so then obj else part) in *.
    assert (0 < v0) as Hv0 by (unfold v0; destruct (Qle_bool sp so); lia).
    destruct (relabel_values v0 ltac:(lia)) as (_ & H1 & H2).
    exists a, (f2 (f1 v0)). split; [exact Ha|].
    split; [apply Hmap, Hraw_at, Hpred|].
    assert (f2 (f1 v0) = 1 /\ v0 <= 20 \/ f2 (f1 v0) = 2 /\ 20 < v0) as Hval.
    { destruct (Z.le_gt_cases v0 20) as [Hle|Hgt].
      - left. split; [apply H1; lia | exact Hle].
      - right. split; [apply H2; lia | lia]. }
    split; [destruct Hval as [[-> _]|[-> _]]; auto|].
    split; [destruct Hval as [[-> _]|[-> _]]; split; intros; lia|].
    intros Ha20.
    unfold OutputsTonpGt.to_pair, num_to_aggregate in Hp.
    destruct (Z.gtb_spec a 20); [lia|]. injection Hp as <- <-.
    exists so, sp. split; [exact Hso|]. split; [exact Hsp|].
    subst v0. destruct (Qle_bool sp so) eqn:Hcmp.
    + apply Qle_bool_iff in Hcmp.
      destruct Hval as [[-> _]|[_ ?]]; [|lia].
      split; split; intros; auto; try lia.
      exfalso. eapply Qlt_not_le; eauto.
    + assert (so < sp)%Q as Hlt.
      { apply Qnot_le_lt. intros Hle. apply Qle_bool_iff in Hle. congruence. }
      destruct Hval as [[_ ?]|[-> _]]; [lia|].
      split; split; intros; auto; try lia.
      exfalso. eapply Qlt_not_le; eauto.
  - destruct (relabel_values 0 ltac:(lia)) as (H0 & _ & _).
    exists a, (f2 (f1 0)). split; [exact Ha|].
    split; [apply Hmap, Hraw_at, Hpred|].
    rewrite (H0 eq_refl : f2 (f1 0) = 0).
    split; [auto|]. split; [split; intros; [lia | reflexivity] | lia].
Qed.

Lemma rendered_objpart_mask_witness :
  exists prediction,
    rendered_prediction "objpart"
      (Tensor (map inject_Z (seqZ 0 82)) [1; 41; 1; 2]%nat [82; 2; 2; 1]%nat)
      (Tensor [] [0; 0; 0; 0]%nat [0; 0; 0; 0]%nat)
      (Tensor [] [0; 0; 0]%nat [0; 0; 0]%nat)
      (Tensor [3; 255] [1; 1; 2]%nat [2; 2; 1]%nat)
    = Ok (prediction, Tensor [3; 255] [1; 1; 2]%nat [2; 2; 1]%nat)
    /\ sizes prediction = [1; 1; 2]%nat.
Proof.
  destruct (rendered_objpart_mask
              (Tensor (map inject_Z (seqZ 0 82)) [1; 41; 1; 2]%nat [82; 2; 2; 1]%nat)
              (Tensor [] [0; 0; 0; 0]%nat [0; 0; 0; 0]%nat)
              (Tensor [] [0; 0; 0]%nat [0; 0; 0]%nat)
              (Tensor [3; 255] [1; 1; 2]%nat [2; 2; 1]%nat)
              1 41 1 2 eq_refl eq_refl eq_refl eq_refl eq_refl)
    as (prediction & Hrun & Hs & _).
  exists prediction. split; [exact Hrun | exact Hs].
Defined.

(** ** Batches without object or part pixels *)

(** X12.  A batch with at least one pixel whose object-part annotations
    are all background, padding or the ignore value makes
    [validate_batch] raise a [ValueError] when the object-part labels lie
    inside [0, 255): after the background has been rewritten to -1 no
    label occurs in the ground truth, and the confusion matrix rejects
    the batch - whatever the running matrices and the semantic labels. *)
Theorem validate_batch_without_parts_raises
    (objpart_logits semantic_logits : tensor Q) (objpart_anno semantic_anno : tensor Z)
    (overall_part overall_semantic : option matrix)
    (objpart_labels semantic_labels : list Z) (B C H W : nat) :
  is_ok (numpyify_logits_and_annotations semantic_logits semantic_anno true) = true ->
  sizes objpart_logits = [B; C; H; W] -> wf_tensor objpart_logits = true ->
  sizes objpart_anno = [B; H; W] -> wf_tensor objpart_anno = true ->
  (0 < B * H * W)%nat ->
  Forall (fun a => a <= 0 \/ a = 255) (storage objpart_anno) ->
  Forall (fun l => 0 <= l < 255) objpart_labels ->
  validate_batch (objpart_logits, objpart_anno) (semantic_logits, semantic_anno)
                 overall_part overall_semantic (objpart_labels, semantic_labels)
  = Raise ValueError.
Proof.
  intros Hsem Hls Hlwf Has Hawf Hpix Hanno Hlabels.
  assert (Hok : forallb (label_ok C) (storage objpart_anno) = true).
  { apply forallb_forall. intros a Ha%list_elem_of_In.
    pose proof (proj1 (Forall_forall _ _) Hanno a Ha) as Hbg. cbv beta in Hbg.
    unfold label_ok. destruct (Z.leb_spec a 0); [reflexivity|].
    destruct (Z.eqb_spec a 255); [reflexivity | lia]. }
  destruct (outputs_tonp_gt_pixelwise objpart_logits objpart_anno B C H W
              Hls Hlwf Has Hawf Hok) as (preds & gts & Hrun & _ & Hlen & _).
  pose proof (outputs_tonp_gt_ground_truth _ _ _ _ Hrun) as Hflat.
  unfold np_flatten in Hflat.
  destruct (row_major objpart_anno) as [data|] eqn:Hrm; [|discriminate].
  cbn in Hflat. injection Hflat as ->.
  unfold validate_batch, current_confusion_matrices.
  destruct (numpyify_logits_and_annotations semantic_logits semantic_anno true)
    as [[sp sg]|] eqn:Hnum; [|discriminate].
  rewrite Hrun. cbn [mbind result_bind].
  assert (confusion_matrix (objpart_ground_truth (tensor1 gts))
            (storage (tensor1 preds)) objpart_labels = Raise ValueError) as ->.
  { apply confusion_matrix_no_label.
    - unfold objpart_ground_truth. cbn [tensor1 storage].
      intros Hnil%(f_equal length). rewrite length_map in Hnil. cbn in Hnil. lia.
    - intros l Hl Hin. unfold objpart_ground_truth in Hin. cbn [tensor1 storage] in Hin.
      apply list_elem_of_fmap in Hin as (a & Hla & Ha).
      pose proof (proj1 (Forall_forall _ _) Hlabels l Hl) as Hrange.
      pose proof (proj1 (Forall_forall _ _) Hanno a
                    (row_major_elements _ _ _ Hrm Ha)) as Hbg.
      cbv beta in Hrange, Hbg. revert Hla. destruct (Z.eqb_spec a 0); lia. }
  destruct (confusion_matrix (storage sg) (storage sp) semantic_labels)
    as [semantic|e] eqn:Hcs; cbn [mbind result_bind]; [reflexivity|].
  now apply confusion_matrix_raise in Hcs as ->.
Qed.

Lemma validate_batch_without_parts_raises_witness :
  validate_batch
    (Tensor (map inject_Z (seqZ 0 82)) [1; 41; 1; 2]%nat [82; 2; 2; 1]%nat,
     Tensor [0; 255] [1; 1; 2]%nat [2; 2; 1]%nat)
    (Tensor (map inject_Z [5; 1; 2; 7]) [1; 2; 1; 2]%nat [4; 2; 2; 1]%nat,
     Tensor [0; 1] [1; 1; 2]%nat [2; 2; 1]%nat)
    (Some [[1; 0; 0]; [0; 2; 0]; [0; 0; 3]]) None ([0; 3; 23], [0; 1])
  = Raise ValueError.
Proof.
  apply (validate_batch_without_parts_raises
           (Tensor (map inject_Z (seqZ 0 82)) [1; 41; 1; 2]%nat [82; 2; 2; 1]%nat)
           (Tensor (map inject_Z [5; 1; 2; 7]) [1; 2; 1; 2]%nat [4; 2; 2; 1]%nat)
           (Tensor [0; 255] [1; 1; 2]%nat [2; 2; 1]%nat)
           (Tensor [0; 1] [1; 1; 2]%nat [2; 2; 1]%nat)
           (Some [[1; 0; 0]; [0; 2; 0]; [0; 0; 3]]) None [0; 3; 23] [0; 1]
           1 41 1 2 eq_refl eq_refl eq_refl eq_refl eq_refl).
  - simpl. lia.
  - repeat constructor; lia.
  - repeat constructor; lia.
Defined.
